(** * Danesfield: geodetic utilities and pipeline orchestration

    A shallow embedding of [danesfield/gdal_utils.py] and
    [tools/run_danesfield.py].

    Conventions of the embedding.
    - A Python [float] is an exact rational ([Q]); rounding, infinities and
      NaN are outside the model.  [math.fmod], [int()] and the comparisons are
      exact on floats and are modelled as they are.
    - A Python exception is a constructor of [exn]; a function that may raise
      returns a [result].
    - A Python [dict] with string keys whose order is irrelevant is a
      [gmap string _]; a [dict] whose iteration order is observed is an
      insertion-ordered association list.
    - A Python [str] is a [string]; paths and file contents are taken to be
      ASCII text, so that [\d] is a decimal digit and [lower] acts on A-Z.
    - Library calls whose behaviour depends on the outside world (GDAL, pyproj,
      the file system, the clock) are parameters of the definitions that use
      them. *)

From Stdlib Require Import QArith Qround ZArith Lia Lqa Ascii String.
From stdpp Require Import gmap strings list.

(** ** Exceptions and results *)

Inductive exn : Type :=
| RuntimeError
| ValueError
| TypeError
| IndexError
| KeyError (key : string).

Inductive result (A : Type) : Type :=
| Ok (a : A)
| Raise (e : exn).
Arguments Ok {A} a.
Arguments Raise {A} e.

#[global] Instance result_ret : MRet result := fun A a => Ok a.
#[global] Instance result_bind : MBind result := fun A B f m =>
  match m with
  | Ok a => f a
  | Raise e => Raise e
  end.

(** ** Floats as rationals *)

(** [x < y] on floats. *)
Definition Qlt_bool (x y : Q) : bool := negb (Qle_bool y x).

(** [int(x)]: truncation toward zero. *)
Definition Qtrunc (x : Q) : Z := Z.quot (Qnum x) (Z.pos (Qden x)).

(** [math.fmod(x, y)]: the remainder [x - n*y] where [n] is [x/y] truncated
    toward zero, so the result carries the sign of [x]. *)
Definition fmod (x y : Q) : Q := (x - y * inject_Z (Qtrunc (x / y)))%Q.

(** ** [compute_utm_zone] (gdal_utils.py) *)

Definition normalize_lon (lon : Q) : Q := (fmod (lon + 180) 360 - 180)%Q.
Definition normalize_lat (lat : Q) : Q := (fmod (lat + 90) 180 - 90)%Q.

(** The zone computed before the final [zone == 0] test, on normalized
    coordinates. *)
Definition utm_zone_number (lon lat : Q) : Z :=
  if Qle_bool (-80) lat && Qle_bool lat 84 then
    if Qle_bool 72 lat && (Qle_bool 0 lon && Qlt_bool lon 42) then
      if Qlt_bool lon 9 then 31
      else if Qlt_bool lon 21 then 33
      else if Qlt_bool lon 33 then 35
      else 37
    else if (Qle_bool 56 lat && Qlt_bool lat 64) && (Qle_bool 0 lon && Qlt_bool lon 12) then
      if Qlt_bool lon 3 then 31 else 32
    else
      Qtrunc (inject_Z (Qtrunc lon + 180) / 6 + 1)
  else 0.

Definition compute_utm_zone (lon lat : Q) : result (Z * string) :=
  let lon := normalize_lon lon in
  let lat := normalize_lat lat in
  let hemisphere := if Qlt_bool 0 lat then "N" else "S" in
  let zone := utm_zone_number lon lat in
  if (zone =? 0)%Z then Raise RuntimeError
  else Ok (zone, hemisphere).

(** What the specification states of [utmZone], in its words: longitude
    reduced to (-180,180] and latitude to (-90,90]; a zone in [1,60] with the
    hemisphere of the sign of the latitude when the latitude is in [-80,84);
    [InvalidUTM] outside that band. *)
Definition stated_utm_behaviour (lon lat : Q) : Prop :=
  let lon' := normalize_lon lon in
  let lat' := normalize_lat lat in
  (-180 < lon' <= 180)%Q /\ (-90 < lat' <= 90)%Q /\
  ((-80 <= lat' < 84)%Q ->
   exists zone : Z,
     (1 <= zone <= 60)%Z /\
     compute_utm_zone lon lat = Ok (zone, if Qlt_bool 0 lat' then "N" else "S")) /\
  (~ (-80 <= lat' < 84)%Q -> compute_utm_zone lon lat = Raise RuntimeError).

(** ** [gdal_bounding_box] (gdal_utils.py) *)

(** The six coefficients of a GDAL geotransform, [transform[0]] to
    [transform[5]]. *)
Record GeoTransform : Type := {
  t0 : Q; t1 : Q; t2 : Q; t3 : Q; t4 : Q; t5 : Q
}.

(** [numpy.amin] and [numpy.amax] over a one-dimensional array.  numpy raises
    on an empty array; the arrays built by [gdal_bounding_box] always hold four
    entries, and the empty case is given the value [0] here. *)
Definition amin (a : list Q) : Q :=
  match a with
  | [] => 0
  | x :: xs => foldl (fun m y => if Qlt_bool y m then y else m) x xs
  end.

Definition amax (a : list Q) : Q :=
  match a with
  | [] => 0
  | x :: xs => foldl (fun m y => if Qlt_bool m y then y else m) x xs
  end.

(** [c + pixels * a + lines * b], element by element. *)
Definition affine (c a b : Q) (pixels lines : list Q) : list Q :=
  zip_with (fun p l => (c + p * a + l * b)%Q) pixels lines.

Section BoundingBox.
(** Ground-control points and [gdal.GCPsToGeoTransform]. *)
Variable GCP : Type.
Variable GCPsToGeoTransform : list GCP -> option GeoTransform.
(** [pyproj.Proj] objects; [proj_of_wkt] stands for
    [pyproj.Proj(osr.SpatialReference(wkt=projection).ExportToProj4())] and
    [pyproj_transform] for [pyproj.transform] on one point. *)
Variable Proj : Type.
Variable proj_of_wkt : string -> Proj.
Variable pyproj_transform : Proj -> Proj -> Q -> Q -> Q * Q.

Record Raster : Type := {
  GetProjection : string;
  GetGeoTransform : GeoTransform;
  GetGCPProjection : string;
  GetGCPs : list GCP;
  RasterXSize : Z;
  RasterYSize : Z
}.

(** Lines 25-34: the projection and the geotransform used, [None] when the
    geotransform cannot be extracted from the ground-control points. *)
Definition georeference (raster : Raster) : option (string * GeoTransform) :=
  let projection := GetProjection raster in
  if negb (String.eqb projection "") then
    Some (projection, GetGeoTransform raster)
  else
    let projection := GetGCPProjection raster in
    match GCPsToGeoTransform (GetGCPs raster) with
    | None => None
    | Some transform => Some (projection, transform)
    end.

(** Lines 35-38: the coordinates of the four image corners. *)
Definition corner_arrays (raster : Raster) (transform : GeoTransform)
  : list Q * list Q :=
  let lines := [0%Q; 0%Q; inject_Z (RasterYSize raster); inject_Z (RasterYSize raster)] in
  let pixels := [0%Q; inject_Z (RasterXSize raster); inject_Z (RasterXSize raster); 0%Q] in
  (affine (t0 transform) (t1 transform) (t2 transform) pixels lines,
   affine (t3 transform) (t4 transform) (t5 transform) pixels lines).

(** Lines 40-44: [pyproj.transform] applied to the arrays of coordinates. *)
Definition reproject (inProj outProj : Proj) (arrayX arrayY : list Q)
  : list Q * list Q :=
  let pts := zip_with (pyproj_transform inProj outProj) arrayX arrayY in
  (pts.*1, pts.*2).

(** [None] is the Python [None] returned "in case of an error". *)
Definition gdal_bounding_box (raster : Raster) (outProj : option Proj)
  : option (list Q) :=
  match georeference raster with
  | None => None
  | Some (projection, transform) =>
      let '(arrayX, arrayY) := corner_arrays raster transform in
      let '(arrayX, arrayY) :=
        match outProj with
        | Some outProj => reproject (proj_of_wkt projection) outProj arrayX arrayY
        | None => (arrayX, arrayY)
        end in
      let minX := amin arrayX in
      let minY := amin arrayY in
      let maxX := amax arrayX in
      let maxY := amax arrayY in
      Some [minX; minY; maxX; maxY]
  end.

(** The image corner at pixel [p] and line [l], by the six coefficients. *)
Definition corner (transform : GeoTransform) (p l : Q) : Q * Q :=
  (t0 transform + p * t1 transform + l * t2 transform,
   t3 transform + p * t4 transform + l * t5 transform)%Q.

(** The four image corners, reprojected when a target is given: the points
    whose envelope the specification asks for. *)
Definition corners (raster : Raster) (projection : string)
    (transform : GeoTransform) (outProj : option Proj) : list (Q * Q) :=
  let w := inject_Z (RasterXSize raster) in
  let h := inject_Z (RasterYSize raster) in
  let to_target '(x, y) :=
    match outProj with
    | Some outProj => pyproj_transform (proj_of_wkt projection) outProj x y
    | None => (x, y)
    end in
  map to_target
      [corner transform 0 0; corner transform w 0;
       corner transform w h; corner transform 0 h].
End BoundingBox.

Arguments GetProjection {GCP} _.
Arguments GetGeoTransform {GCP} _.
Arguments GetGCPProjection {GCP} _.
Arguments GetGCPs {GCP} _.
Arguments RasterXSize {GCP} _.
Arguments RasterYSize {GCP} _.
Arguments georeference {GCP} _ _.
Arguments corner_arrays {GCP} _ _.
Arguments reproject {Proj} _ _ _ _ _.
Arguments gdal_bounding_box {GCP} _ {Proj} _ _ _ _.
Arguments corners {GCP Proj} _ _ _ _ _ _.

(** Two rasters without ground-control points: one of 10 by 10 pixels with
    a projection, origin (0,0) and pixel size (1,-1); one with neither
    projection nor geotransform to derive. *)
Definition example_raster : Raster unit :=
  {| GetProjection := "PROJCS";
     GetGeoTransform := {| t0 := 0; t1 := 1; t2 := 0; t3 := 0; t4 := 0; t5 := -1 |};
     GetGCPProjection := "";
     GetGCPs := [];
     RasterXSize := 10;
     RasterYSize := 10 |}.

Definition example_raster_bare : Raster unit :=
  {| GetProjection := "";
     GetGeoTransform := {| t0 := 0; t1 := 1; t2 := 0; t3 := 0; t4 := 0; t5 := 1 |};
     GetGCPProjection := "";
     GetGCPs := [];
     RasterXSize := 10;
     RasterYSize := 10 |}.

(** ** Strings *)

(** [needle in hay]. *)
Fixpoint str_contains (needle hay : string) : bool :=
  String.prefix needle hay ||
  match hay with
  | EmptyString => false
  | String _ hay' => str_contains needle hay'
  end.

(** [s.endswith(suffix)]. *)
Definition endswith (s suffix : string) : bool :=
  String.prefix (String.rev suffix) (String.rev s).

Definition ascii_lower (c : ascii) : ascii :=
  let n := N_of_ascii c in
  if (65 <=? n)%N && (n <=? 90)%N then ascii_of_N (n + 32) else c.

(** [s.lower()] on ASCII text. *)
Fixpoint lower (s : string) : string :=
  match s with
  | EmptyString => EmptyString
  | String c s' => String (ascii_lower c) (lower s')
  end.

Fixpoint lstrip_char (c : ascii) (s : string) : string :=
  match s with
  | String c' s' => if Ascii.eqb c c' then lstrip_char c s' else s
  | EmptyString => EmptyString
  end.

(** [s.rstrip(c)] for a one-character argument. *)
Definition rstrip_char (c : ascii) (s : string) : string :=
  String.rev (lstrip_char c (String.rev s)).

(** White space: the space, the controls 9 to 13 and the separators 28 to
    31. *)
Definition is_space (c : ascii) : bool :=
  let n := N_of_ascii c in
  (n =? 32)%N || ((9 <=? n)%N && (n <=? 13)%N) || ((28 <=? n)%N && (n <=? 31)%N).

Fixpoint lstrip (s : string) : string :=
  match s with
  | String c s' => if is_space c then lstrip s' else s
  | EmptyString => EmptyString
  end.

(** [s.strip()]. *)
Definition strip (s : string) : string :=
  String.rev (lstrip (String.rev (lstrip s))).

(** All the characters of [s] are in the class [p]. *)
Fixpoint all_chars (p : ascii -> bool) (s : string) : bool :=
  match s with
  | EmptyString => true
  | String c s' => p c && all_chars p s'
  end.

Definition newline : ascii := "010"%char.

(** [f.readline()]: the next line with its newline, and the rest of the
    file; the empty string at the end of the file. *)
Fixpoint readline (f : string) : string * string :=
  match f with
  | EmptyString => (EmptyString, EmptyString)
  | String c f' =>
      if Ascii.eqb c newline then (String c EmptyString, f')
      else let (line, rest) := readline f' in (String c line, rest)
  end.

(** ** Regular expressions ([re])

    The fragment used by the two modules, matched the way [re] does:
    leftmost alternative first, greedy repetition, backtracking on failure.
    Repetition is over character classes only, which is all the patterns of
    the source need. *)

Inductive regex : Type :=
| Chr (p : ascii -> bool)             (* one character of a class *)
| Cat (r1 r2 : regex)                 (* r1r2 *)
| Alt (r1 r2 : regex)                 (* r1|r2 *)
| Opt (r : regex)                     (* r? *)
| Star (p : ascii -> bool)            (* [..]* *)
| Plus (p : ascii -> bool)            (* [..]+ *)
| Repeat (n : nat) (p : ascii -> bool) (* [..]{n} *)
| Group (i : nat) (r : regex)         (* capture group number i *)
| Eps.                                (* the empty pattern *)

Definition is_digit (c : ascii) : bool :=
  let n := N_of_ascii c in (48 <=? n)%N && (n <=? 57)%N.
Definition is_upper (c : ascii) : bool :=
  let n := N_of_ascii c in (65 <=? n)%N && (n <=? 90)%N.
(** [.]: any character but a newline. *)
Definition any_char (c : ascii) : bool := negb (Ascii.eqb c newline).
(** [[abc]]. *)
Fixpoint one_of (set : string) (c : ascii) : bool :=
  match set with
  | EmptyString => false
  | String c' set' => Ascii.eqb c c' || one_of set' c
  end.
(** [[^abc]]. *)
Definition none_of (set : string) (c : ascii) : bool := negb (one_of set c).

(** A literal string. *)
Fixpoint lit (s : string) : regex :=
  match s with
  | EmptyString => Eps
  | String c s' => Cat (Chr (Ascii.eqb c)) (lit s')
  end.

Definition seq (rs : list regex) : regex := foldr Cat Eps rs.

(** The text consumed between [s] and its suffix [rest]. *)
Definition consumed (s rest : string) : string :=
  String.substring 0 (String.length s - String.length rest) s.

Section Matcher.
Context {A : Type}.

Fixpoint match_star (p : ascii -> bool) (s : string)
    (k : string -> option A) : option A :=
  match s with
  | String c s' =>
      if p c then
        match match_star p s' k with
        | Some a => Some a
        | None => k s
        end
      else k s
  | EmptyString => k s
  end.

Fixpoint match_repeat (n : nat) (p : ascii -> bool) (s : string)
    (k : string -> option A) : option A :=
  match n with
  | O => k s
  | S n' =>
      match s with
      | String c s' => if p c then match_repeat n' p s' k else None
      | EmptyString => None
      end
  end.

Fixpoint match_re (r : regex) (s : string) (g : gmap nat string)
    (k : string -> gmap nat string -> option A) : option A :=
  match r with
  | Chr p =>
      match s with
      | String c s' => if p c then k s' g else None
      | EmptyString => None
      end
  | Cat r1 r2 => match_re r1 s g (fun s' g' => match_re r2 s' g' k)
  | Alt r1 r2 =>
      match match_re r1 s g k with
      | Some a => Some a
      | None => match_re r2 s g k
      end
  | Opt r =>
      match match_re r s g k with
      | Some a => Some a
      | None => k s g
      end
  | Star p => match_star p s (fun s' => k s' g)
  | Plus p =>
      match s with
      | String c s' => if p c then match_star p s' (fun s'' => k s'' g) else None
      | EmptyString => None
      end
  | Repeat n p => match_repeat n p s (fun s' => k s' g)
  | Group i r => match_re r s g (fun s' g' => k s' (<[i := consumed s s']> g'))
  | Eps => k s g
  end.
End Matcher.

(** The texts that a pattern denotes. *)
Inductive matches : regex -> string -> Prop :=
| matches_Chr (p : ascii -> bool) (c : ascii) :
    p c = true -> matches (Chr p) (String c EmptyString)
| matches_Cat (r1 r2 : regex) (t1 t2 : string) :
    matches r1 t1 -> matches r2 t2 -> matches (Cat r1 r2) (t1 +:+ t2)
| matches_Alt_l (r1 r2 : regex) (t : string) :
    matches r1 t -> matches (Alt r1 r2) t
| matches_Alt_r (r1 r2 : regex) (t : string) :
    matches r2 t -> matches (Alt r1 r2) t
| matches_Opt_some (r : regex) (t : string) :
    matches r t -> matches (Opt r) t
| matches_Opt_none (r : regex) :
    matches (Opt r) EmptyString
| matches_Star (p : ascii -> bool) (t : string) :
    all_chars p t = true -> matches (Star p) t
| matches_Plus (p : ascii -> bool) (t : string) :
    t <> EmptyString -> all_chars p t = true -> matches (Plus p) t
| matches_Repeat (n : nat) (p : ascii -> bool) (t : string) :
    String.length t = n -> all_chars p t = true -> matches (Repeat n p) t
| matches_Group (i : nat) (r : regex) (t : string) :
    matches r t -> matches (Group i r) t
| matches_Eps :
    matches Eps EmptyString.

(** [pattern.match(s)]: a match anchored at the start of [s]; the result maps
    group numbers to the captured text, group [0] being the whole match. *)
Definition re_match (r : regex) (s : string) : option (gmap nat string) :=
  match_re r s ∅ (fun rest g => Some (<[0%nat := consumed s rest]> g)).

(** [pattern.search(s)]: the leftmost position with a match. *)
Fixpoint re_search (r : regex) (s : string) : option (gmap nat string) :=
  match re_match r s with
  | Some m => Some m
  | None =>
      match s with
      | String _ s' => re_search r s'
      | EmptyString => None
      end
  end.

(** ** [float(s)]

    Decimal literals: optional sign, digits with an optional fraction or a
    fraction alone, optional exponent, surrounding white space ignored.
    [None] stands for [ValueError].  The spellings [inf], [nan] and digit
    separators have no value in [Q] and are not modelled. *)

Definition digit_of (c : ascii) : option Z :=
  if is_digit c then Some (Z.of_N (N_of_ascii c) - 48)%Z else None.

Fixpoint read_digits (s : string) (acc : Z) (count : nat) : Z * nat * string :=
  match s with
  | String c s' =>
      match digit_of c with
      | Some d => read_digits s' (10 * acc + d)%Z (S count)
      | None => (acc, count, s)
      end
  | EmptyString => (acc, count, s)
  end.

Definition read_sign (s : string) : Z * string :=
  match s with
  | String "-" s' => ((-1)%Z, s')
  | String "+" s' => (1%Z, s')
  | _ => (1%Z, s)
  end.

(** [m * 10^e]. *)
Definition scale10 (m e : Z) : Q :=
  Qred (if (0 <=? e)%Z then inject_Z (m * 10 ^ e)
        else Qmake m (Z.to_pos (10 ^ (- e)))).

Definition float_of_string (s : string) : option Q :=
  let s := strip s in
  let '(sign, s) := read_sign s in
  let '(int_part, n_int, s) := read_digits s 0%Z 0%nat in
  let '(mantissa, n_frac, s) :=
    match s with
    | String "." s' => read_digits s' int_part 0%nat
    | _ => (int_part, 0%nat, s)
    end in
  if (n_int + n_frac =? 0)%nat then None
  else
    match s with
    | EmptyString => Some (scale10 (sign * mantissa) (- Z.of_nat n_frac))
    | String c s' =>
        if one_of "eE" c then
          let '(esign, s') := read_sign s' in
          let '(e, n_exp, s') := read_digits s' 0%Z 0%nat in
          if (n_exp =? 0)%nat then None
          else
            match s' with
            | EmptyString =>
                Some (scale10 (sign * mantissa) (esign * e - Z.of_nat n_frac))
            | _ => None
            end
        else None
    end.

(** [float(match.group(i))]. *)
Definition float_group (m : gmap nat string) (i : nat) : result Q :=
  match m !! i with
  | None => Raise TypeError
  | Some s =>
      match float_of_string s with
      | Some v => Ok v
      | None => Raise ValueError
      end
  end.

(** The pattern of a float in [reFloatList], between its outer
    parentheses. *)
Definition float_pattern : regex :=
  seq [Opt (Chr (one_of "-+"));
       Group 2 (Alt (Cat (Plus is_digit)
                         (Opt (Group 3 (Cat (lit ".") (Star is_digit)))))
                    (Cat (lit ".") (Plus is_digit)));
       Opt (Group 4 (seq [Chr (one_of "eE");
                          Opt (Chr (one_of "-+"));
                          Plus is_digit]))].

(** The parts of a float literal: a sign, a fraction and an exponent, each
    possibly absent. *)
Definition sign_text (s : string) : Prop :=
  s = EmptyString \/ exists c, s = String c EmptyString /\ one_of "-+" c = true.

Definition fraction_text (s : string) : Prop :=
  s = EmptyString \/
  exists ds, s = String "." ds /\ all_chars is_digit ds = true.

Definition exponent_text (s : string) : Prop :=
  s = EmptyString \/
  exists e sg ds,
    s = String e (sg +:+ ds) /\ one_of "eE" e = true /\ sign_text sg /\
    all_chars is_digit ds = true /\ ds <> EmptyString.

(** The characters of a float literal. *)
Definition is_float_char (c : ascii) : bool :=
  is_digit c || one_of "-+.eE" c.

(** A text that does not start with a digit, or with a sign. *)
Definition no_digit_ahead (s : string) : Prop :=
  match s with
  | EmptyString => True
  | String c _ => is_digit c = false
  end.

Definition no_sign_ahead (s : string) : Prop :=
  match s with
  | EmptyString => True
  | String c _ => one_of "-+" c = false
  end.

(** ** [read_offset] (gdal_utils.py) *)

(** [offset[i] = v] on a Python list. *)
Definition setitem (offset : list Q) (i : nat) (v : Q) : result (list Q) :=
  if (i <? length offset)%nat then Ok (<[i := v]> offset) else Raise IndexError.

(** The text of the first pattern; [read_offset] replaces its second
    character by the axis letter before compiling it. *)
Definition reFloatList : string :=
  "#. offset: ([-+]?(\d+(\.\d*)?|\.\d+)([eE][-+]?\d+)?)".

(** [re.compile] of [reFloatList] with the axis letter in place. *)
Definition reFloat (axis : ascii) : regex :=
  seq [lit "#"; Chr (Ascii.eqb axis); lit " offset: "; Group 1 float_pattern].

(** The text of the second pattern, where [\n] is a newline. *)
Definition reCSString : string :=
  "# coordinate_system: {.* \[[^,]*, [^,]*, ([^,]*), ([^,]*), ([^,]*), .*\].*}\n".

(** [re.compile(reCSString)]. *)
Definition reCS : regex :=
  seq [lit "# coordinate_system: {"; Star any_char; lit " [";
       Star (none_of ","); lit ", "; Star (none_of ","); lit ", ";
       Group 1 (Star (none_of ",")); lit ", ";
       Group 2 (Star (none_of ",")); lit ", ";
       Group 3 (Star (none_of ",")); lit ", ";
       Star any_char; lit "]"; Star any_char; lit "}";
       Chr (Ascii.eqb newline)].

(** The first loop of [read_offset], from index [i] on: the value of [i] when
    the loop is left, and the offsets. *)
Fixpoint scan_offsets (axes : list ascii) (i : nat) (f : string)
    (offset : list Q) : result (nat * list Q) :=
  match axes with
  | [] => Ok (pred i, offset)
  | axis :: axes' =>
      let (line, f') := readline f in
      match re_match (reFloat axis) line with
      | Some m =>
          v ← float_group m 1;
          offset ← setitem offset i v;
          scan_offsets axes' (S i) f' offset
      | None => Ok (i, offset)
      end
  end.

(** [for i in range(n): line = f.readline()]: the last line read. *)
Fixpoint nth_readline (n : nat) (f : string) (line : string) : string :=
  match n with
  | O => line
  | S n' => let (line, f') := readline f in nth_readline n' f' line
  end.

(** Line number [n] of a file, counted from 1, as [readline] returns it. *)
Definition file_line (n : nat) (file : string) : string :=
  nth_readline n file EmptyString.

(** [file] is the text of the file [fileName]; the result is the list
    [offset] after the call. *)
Definition read_offset (file : string) (offset : list Q) : result (list Q) :=
  offset ← setitem offset 0 0%Q;
  offset ← setitem offset 1 0%Q;
  offset ← setitem offset 2 0%Q;
  '(i, offset) ← scan_offsets ["x"; "y"; "z"]%char 0 file offset;
  if (i =? 0)%nat then
    let line := nth_readline 8 file EmptyString in
    match re_match reCS line with
    | Some m =>
        x ← float_group m 1;
        offset ← setitem offset 0 x;
        y ← float_group m 2;
        offset ← setitem offset 1 y;
        z ← float_group m 3;
        setitem offset 2 z
    | None => Ok offset
    end
  else Ok offset.

(** Headers: the three offset comments as the source documents them, the
    same with a space after the hash sign, and a header whose eighth line is
    the documented [coordinate_system] comment. *)
Definition nl : string := String newline EmptyString.
Definition dq : string := String "034"%char EmptyString.

Definition header_offsets : string :=
  "#x offset: 747594.676221" +:+ nl +:+
  "#y offset: 4407371.835686" +:+ nl +:+
  "#z offset: 225.038274" +:+ nl.

Definition header_offsets_spaced : string :=
  "# x offset: 747594.676221" +:+ nl +:+
  "# y offset: 4407371.835686" +:+ nl +:+
  "# z offset: 225.038274" +:+ nl.

Definition coordinate_system_line : string :=
  "# coordinate_system: {" +:+ dq +:+ "parameters" +:+ dq +:+ ": [" +:+
  dq +:+ "wgs84" +:+ dq +:+ ", " +:+ dq +:+ "UTM zone 16N" +:+ dq +:+
  ", 747594.6762214857, 4407371.835685772, 225.03827424185408, 0, 0, 0, 0, 0], " +:+
  dq +:+ "type" +:+ dq +:+ ": " +:+ dq +:+ "EPSG" +:+ dq +:+ "}" +:+ nl.

Definition header_coordinate_system : string :=
  "ply" +:+ nl +:+ "format ascii 1.0" +:+ nl +:+ "comment a" +:+ nl +:+
  "comment b" +:+ nl +:+ "comment c" +:+ nl +:+ "comment d" +:+ nl +:+
  "comment e" +:+ nl +:+ coordinate_system_line +:+ "end_header" +:+ nl.

(** ** Paths ([os.path], POSIX flavour) *)

(** [os.path.join(a, b)]. *)
Definition path_join (a b : string) : string :=
  if String.prefix "/" b then b
  else if String.eqb a "" || endswith a "/" then a +:+ b
  else a +:+ "/" +:+ b.

(** The text after the last occurrence of [c], the whole of [s] without one. *)
Fixpoint after_last (c : ascii) (s : string) : string :=
  match s with
  | EmptyString => EmptyString
  | String c' s' =>
      if str_contains (String c EmptyString) s' then after_last c s'
      else if Ascii.eqb c c' then s'
      else s
  end.

(** [os.path.split(p)[1]]. *)
Definition path_basename (p : string) : string := after_last "/" p.

(** The text before the first occurrence of [c], the whole of [s] without
    one: [s.split(c)[0]]. *)
Fixpoint before_first (c : ascii) (s : string) : string :=
  match s with
  | EmptyString => EmptyString
  | String c' s' =>
      if Ascii.eqb c c' then EmptyString else String c' (before_first c s')
  end.

(** [os.path.splitext(name)[0]] for a name without directory part: the
    extension starts at the last dot, unless only dots come before it. *)
Definition splitext_root (name : string) : string :=
  let ext := after_last "." name in
  if negb (str_contains "." name) then name
  else
    let root := String.substring 0 (String.length name - String.length ext - 1) name in
    if String.eqb (lstrip_char "." root) "" then name else root.

(** ** Python dictionaries in insertion order *)

Section Dict.
Context {V : Type}.

Fixpoint dict_get (k : string) (d : list (string * V)) : option V :=
  match d with
  | [] => None
  | (k', v) :: d' => if decide (k = k') then Some v else dict_get k d'
  end.

(** [d[k] = v]: in place for a key of [d], at the end for a new key. *)
Fixpoint dict_set (k : string) (v : V) (d : list (string * V))
  : list (string * V) :=
  match d with
  | [] => [(k, v)]
  | (k', v') :: d' =>
      if decide (k = k') then (k, v) :: d' else (k', v') :: dict_set k v d'
  end.

(** [del d[k]] for a key of [d]. *)
Fixpoint dict_del (k : string) (d : list (string * V)) : list (string * V) :=
  match d with
  | [] => []
  | (k', v) :: d' =>
      if decide (k = k') then d' else (k', v) :: dict_del k d'
  end.

(** [d[k]]. *)
Definition getitem (k : string) (d : list (string * V)) : result V :=
  match dict_get k d with
  | Some v => Ok v
  | None => Raise (KeyError k)
  end.
End Dict.

(** [m[k]] on a dictionary whose order is not observed. *)
Definition getkey (k : string) (m : gmap string string) : result string :=
  match m !! k with
  | Some v => Ok v
  | None => Raise (KeyError k)
  end.

(** ** [run_danesfield.py] *)

Section WorkingDir.
(** [os.path.realpath] and [str(datetime.datetime.now().timestamp())]. *)
Variable realpath : string -> string.
Variable now_timestamp : string.

(** [working_dir] is [None] for an option absent from the configuration.
    Creating the directory when it does not exist is an effect on the file
    system and leaves no trace in the result. *)
Definition create_working_dir (working_dir : option string)
    (imagery_dir : string) : result string :=
  let working_dir :=
    match working_dir with
    | None | Some EmptyString =>
        let date_str := now_timestamp in
        "danesfield-" +:+ before_first "." date_str
    | Some working_dir => working_dir
    end in
  if str_contains (realpath imagery_dir) (realpath working_dir) then
    Raise ValueError
  else Ok working_dir.
End WorkingDir.

(** The components of a path, and "[working] is [imagery] or lies inside
    it" in the words of the specification: the components of [imagery] are
    the leading components of [working]. *)
Fixpoint split_on (c : ascii) (s : string) : list string :=
  match s with
  | EmptyString => [EmptyString]
  | String c' s' =>
      if Ascii.eqb c c' then EmptyString :: split_on c s'
      else match split_on c s' with
           | [] => [String c' EmptyString]
           | part :: parts => String c' part :: parts
           end
  end.

Definition path_components (p : string) : list string :=
  filter (fun part => part <> EmptyString) (split_on "/" p).

Definition equal_or_nested (working imagery : string) : bool :=
  bool_decide (path_components imagery `prefix_of` path_components working).

Definition ensure_complete_modality (modality_dict : gmap string string)
    (require_rpc : bool) : bool :=
  let keys := ["image"; "info"] ++ (if require_rpc then ["rpc"] else []) in
  forallb (fun key => bool_decide (is_Some (modality_dict !! key))) keys.

(** The value stored under a collection identifier. *)
Record collection : Type := {
  pan : gmap string string;
  pansharpened_fpath : string;
  rgb_fpath : string;
  msi : gmap string string;
  swir : gmap string string;
  angle : Z
}.

Definition set_pan (f : gmap string string -> gmap string string)
    (c : collection) : collection :=
  {| pan := f (pan c); pansharpened_fpath := pansharpened_fpath c;
     rgb_fpath := rgb_fpath c; msi := msi c; swir := swir c; angle := angle c |}.
Definition set_msi (f : gmap string string -> gmap string string)
    (c : collection) : collection :=
  {| pan := pan c; pansharpened_fpath := pansharpened_fpath c;
     rgb_fpath := rgb_fpath c; msi := f (msi c); swir := swir c; angle := angle c |}.
Definition set_swir (f : gmap string string -> gmap string string)
    (c : collection) : collection :=
  {| pan := pan c; pansharpened_fpath := pansharpened_fpath c;
     rgb_fpath := rgb_fpath c; msi := msi c; swir := f (swir c); angle := angle c |}.
Definition set_pansharpened_fpath (p : string) (c : collection) : collection :=
  {| pan := pan c; pansharpened_fpath := p;
     rgb_fpath := rgb_fpath c; msi := msi c; swir := swir c; angle := angle c |}.
Definition set_rgb_fpath (p : string) (c : collection) : collection :=
  {| pan := pan c; pansharpened_fpath := pansharpened_fpath c;
     rgb_fpath := p; msi := msi c; swir := swir c; angle := angle c |}.

(** [id_to_files[prefix][...] ...] updated in place. *)
Definition update_item (prefix : string) (f : collection -> collection)
    (id_to_files : list (string * collection))
  : result (list (string * collection)) :=
  files ← getitem prefix id_to_files;
  Ok (dict_set prefix (f files) id_to_files).

Fixpoint classify_fpaths (prefix : string) (fpaths : list string)
    (id_to_files : list (string * collection)) (file_type : string)
  : result (list (string * collection)) :=
  match fpaths with
  | [] => Ok id_to_files
  | fpath :: fpaths' =>
      id_to_files ←
        (if str_contains prefix fpath then
           if str_contains "-P1BS-" fpath then
             update_item prefix (set_pan <[file_type := fpath]>) id_to_files
           else if str_contains "-M1BS-" fpath then
             update_item prefix (set_msi <[file_type := fpath]>) id_to_files
           else if str_contains "-A1BS-" fpath then
             update_item prefix (set_swir <[file_type := fpath]>) id_to_files
           else Ok id_to_files
         else Ok id_to_files);
      classify_fpaths prefix fpaths' id_to_files file_type
  end.

(** The effect of one iteration of [classify_fpaths] on the entry of
    [prefix], and of the whole loop. *)
Definition classify_fpath (prefix file_type fpath : string) (files : collection)
  : collection :=
  if str_contains prefix fpath then
    if str_contains "-P1BS-" fpath then set_pan <[file_type := fpath]> files
    else if str_contains "-M1BS-" fpath then set_msi <[file_type := fpath]> files
    else if str_contains "-A1BS-" fpath then set_swir <[file_type := fpath]> files
    else files
  else files.

Definition classify_files (prefix : string) (fpaths : list string)
    (file_type : string) (files : collection) : collection :=
  foldl (fun files fpath => classify_fpath prefix file_type fpath files) files fpaths.

(** The files that [classify_fpaths] files under each modality of [prefix]. *)
Definition is_pan_of (prefix fpath : string) : bool :=
  str_contains prefix fpath && str_contains "-P1BS-" fpath.
Definition is_msi_of (prefix fpath : string) : bool :=
  str_contains prefix fpath && negb (str_contains "-P1BS-" fpath)
  && str_contains "-M1BS-" fpath.
Definition is_swir_of (prefix fpath : string) : bool :=
  str_contains prefix fpath && negb (str_contains "-P1BS-" fpath)
  && negb (str_contains "-M1BS-" fpath) && str_contains "-A1BS-" fpath.

(** The three modalities, their dictionary in a collection and their files. *)
Inductive modality : Type := Pan | Msi | Swir.

Definition modality_files (m : modality) (files : collection)
  : gmap string string :=
  match m with
  | Pan => pan files
  | Msi => msi files
  | Swir => swir files
  end.

Definition belongs_to (m : modality) (prefix fpath : string) : bool :=
  match m with
  | Pan => is_pan_of prefix fpath
  | Msi => is_msi_of prefix fpath
  | Swir => is_swir_of prefix fpath
  end.

(** *** Discovery of the files (lines 135-156) *)

(** [os.walk(top)] as the list of its [(root, files)] entries. *)
Definition walk_with_ext (walk : list (string * list string)) (ext : string)
  : list string :=
  flat_map (fun '(root, files) =>
              map (path_join root)
                  (filter (fun file => Is_true (endswith (lower file) ext)) files))
           walk.

(** ['[0-9]{2}[A-Z]{3}[0-9]{8}-'] *)
Definition prefix_regex : regex :=
  seq [Repeat 2 is_digit; Repeat 3 is_upper; Repeat 8 is_digit; lit "-"].

(** A collection identifier in the words of the specification: two digits,
    three uppercase letters, eight digits. *)
Definition is_collection_id (s : string) : bool :=
  (String.length s =? 13)%nat
  && all_chars is_digit (String.substring 0 2 s)
  && all_chars is_upper (String.substring 2 3 s)
  && all_chars is_digit (String.substring 5 8 s).

(** The identifier that lines 153-155 read off a path, if any. *)
Definition found_prefix (ntf_fpath : string) : option string :=
  match re_search prefix_regex ntf_fpath with
  | Some m => Some (rstrip_char "-" (default EmptyString (m !! 0%nat)))
  | None => None
  end.

(** The loop of lines 152-155, the set [prefixes] being [acc]. *)
Fixpoint collect_prefixes (ntf_fpaths : list string) (acc : gset string)
  : gset string :=
  match ntf_fpaths with
  | [] => acc
  | ntf_fpath :: rest =>
      match re_search prefix_regex ntf_fpath with
      | Some m =>
          collect_prefixes rest
            ({[ rstrip_char "-" (default EmptyString (m !! 0%nat)) ]} ∪ acc)
      | None => collect_prefixes rest acc
      end
  end.

(** *** The log of a run *)

Inductive event : Type :=
| LogWarning (msg : string)               (* logging.warning *)
| Call (tool : string) (cmd_args : list string). (* tool.main(cmd_args), subprocess.run *)

(** A computation that logs events and may raise. *)
Definition run (A : Type) : Type := list event * result A.

#[global] Instance run_ret : MRet run := fun A a => ([], Ok a).
#[global] Instance run_bind : MBind run := fun A B f m =>
  match m with
  | (log, Ok a) => let (log', r) := f a in (log ++ log', r)
  | (log, Raise e) => (log, Raise e)
  end.

Definition is_call (e : event) : bool :=
  match e with
  | Call _ _ => true
  | LogWarning _ => false
  end.

Definition emit (e : event) : run unit := ([e], Ok tt).
Definition lift {A : Type} (r : result A) : run A := ([], r).

(** [for x in xs: st = body st x], stopping at the first exception. *)
Fixpoint for_each {A S : Type} (body : S -> A -> run S) (xs : list A) (st : S)
  : run S :=
  match xs with
  | [] => mret st
  | x :: xs' => st' ← body st x; for_each body xs' st'
  end.

(** *** Grouping and validation (lines 159-186) *)

Definition new_collection : collection :=
  {| pan := ∅; pansharpened_fpath := ""; rgb_fpath := "";
     msi := ∅; swir := ∅; angle := (-1)%Z |}.

Definition skip_message (prefix : string) : string :=
  "Don't have complete modality for collection ID: '" +:+ prefix +:+ "', skipping!".

(** Lines 177-180: the completeness test of a collection; SWIR is not
    checked. *)
Definition is_complete (files : collection) : bool :=
  ensure_complete_modality (pan files) true &&
  ensure_complete_modality (msi files) true.

(** The body of the loop over [prefixes]; the state is
    [(collection_id_to_files, incomplete_ids)]. *)
Definition group_prefix (ntf_fpaths rpc_fpaths info_fpaths : list string)
    (st : list (string * collection) * list string) (prefix : string)
  : run (list (string * collection) * list string) :=
  let '(collection_id_to_files, incomplete_ids) := st in
  let collection_id_to_files := dict_set prefix new_collection collection_id_to_files in
  collection_id_to_files ← lift (classify_fpaths prefix ntf_fpaths collection_id_to_files "image");
  collection_id_to_files ← lift (classify_fpaths prefix rpc_fpaths collection_id_to_files "rpc");
  collection_id_to_files ← lift (classify_fpaths prefix info_fpaths collection_id_to_files "info");
  files ← lift (getitem prefix collection_id_to_files);
  let complete := is_complete files in
  if negb complete then
    _ ← emit (LogWarning (skip_message prefix));
    mret (dict_del prefix collection_id_to_files, incomplete_ids ++ [prefix])
  else mret (collection_id_to_files, incomplete_ids).

(** The record that lines 162-173 build for [prefix]. *)
Definition classified (ntf_fpaths rpc_fpaths info_fpaths : list string)
    (prefix : string) : collection :=
  classify_files prefix info_fpaths "info"
    (classify_files prefix rpc_fpaths "rpc"
       (classify_files prefix ntf_fpaths "image" new_collection)).

(** Lines 135-186: discovery, grouping and validation, from the entries of
    the walks of the imagery and of the rpc directory.  [list(prefixes)]
    enumerates the set in an order of its own, here that of [elements]. *)
Definition find_collections (imagery_walk rpc_walk : list (string * list string))
  : run (list (string * collection) * list string) :=
  let ntf_fpaths := walk_with_ext imagery_walk ".ntf" in
  let info_fpaths := walk_with_ext imagery_walk ".tar" in
  let rpc_fpaths := walk_with_ext rpc_walk ".rpc" in
  let prefixes := elements (collect_prefixes ntf_fpaths ∅) in
  for_each (group_prefix ntf_fpaths rpc_fpaths info_fpaths) prefixes ([], []).

(** *** The stages (lines 188-440) *)

(** [for k, v in d.items()] where the body may update the value [v] in place
    and carries the local variables [st]. *)
Fixpoint for_items {S V : Type} (body : S -> string -> V -> run (S * V))
    (d : list (string * V)) (st : S) : run (S * list (string * V)) :=
  match d with
  | [] => mret (st, [])
  | (k, v) :: d' =>
      '(st, v) ← body st k v;
      '(st, d') ← for_items body d' st;
      mret (st, (k, v) :: d')
  end.

(** Truth value of an optional string: [None] and [''] are false. *)
Definition truthy (o : option string) : bool :=
  match o with
  | Some s => negb (String.eqb s "")
  | None => false
  end.

(** Lines 270-272; [None] is [float('inf')]. *)
Definition nadir_update (collection_id : string) (angle : Q)
    (st : option Q * string) : option Q * string :=
  let '(lowest_angle, most_nadir_collection_id) := st in
  let lower :=
    match lowest_angle with
    | None => true
    | Some lowest => Qlt_bool angle lowest
    end in
  if lower then (Some angle, collection_id)
  else (lowest_angle, most_nadir_collection_id).

(** The selection made by the loop of lines 256-272 on collections with
    their obliquity angles, in iteration order. *)
Definition nadir_step (st : option Q * string) (x : string * Q)
  : option Q * string :=
  let '(collection_id, angle) := x in nadir_update collection_id angle st.

Definition most_nadir (angles : list (string * Q)) : string :=
  snd (foldl nadir_step (None, EmptyString) angles).

Record config : Type := {
  work_dir : option string;
  imagery_dir : string;
  rpc_dir : string;
  p3d_fpath : string;
  aoi_name : string;
  aoi_bounds : list string;   (* list(map(str, aoi_bounds)) *)
  gsd : string;               (* str(gsd) *)
  osm_roads_shapefiles_dir : option string;
  osm_roads_shapefiles_prefix : option string;
  semantic_config_fpath : string;
  semantic_model_fpath : string;
  building_model_fpath_prefix : string;
  material_model_fpath : string;
  material_batch_size : option string;
  material_cuda : bool;
  roof_model_dir : string;
  roof_model_prefix : string
}.

(** The paths written by the per-collection stages, and the record of a
    complete collection after each of them. *)
Definition ortho_path (working_dir : string) (m : gmap string string) : string :=
  path_join working_dir
    (splitext_root (path_basename (default EmptyString (m !! "image"))) +:+ "_ortho.tif").

Definition orthorectified (working_dir : string) (files : collection) : collection :=
  set_msi <["ortho_img_fpath" := ortho_path working_dir (msi files)]>
    (set_pan <["ortho_img_fpath" := ortho_path working_dir (pan files)]> files).

Definition pansharpened_path (working_dir collection_id : string) : string :=
  path_join working_dir (collection_id +:+ "_ortho_pansharpened.tif").

Definition rgb_path (working_dir collection_id : string) : string :=
  path_join working_dir (collection_id +:+ "_rgb_byte_image.tif").

Section Pipeline.
Variable realpath : string -> string.
Variable now_timestamp : string.
(** [os.walk(top)], its entries reduced to [(root, files)]. *)
Variable os_walk : string -> list (string * list string).
(** The metadata item [NITF_CSEXRA_OBLIQUITY_ANGLE] of an image, as a float. *)
Variable obliquity_angle : string -> Q.
Variable glob : string -> list string.

Definition orthorectify_collection (working_dir dsm_file dtm_file : string)
    (st : unit) (collection_id : string) (files : collection)
  : run (unit * collection) :=
  pan_ntf_fpath ← lift (getkey "image" (pan files));
  let pan_fname := splitext_root (path_basename pan_ntf_fpath) in
  let pan_ortho_img_fpath := path_join working_dir (pan_fname +:+ "_ortho.tif") in
  let cmd_args := [pan_ntf_fpath; dsm_file; pan_ortho_img_fpath; "--dtm"; dtm_file] in
  let pan_rpc_fpath := pan files !! "rpc" in
  let cmd_args :=
    if truthy pan_rpc_fpath
    then cmd_args ++ ["--raytheon-rpc"; default EmptyString pan_rpc_fpath]
    else cmd_args in
  _ ← emit (Call "orthorectify" cmd_args);
  let files := set_pan <["ortho_img_fpath" := pan_ortho_img_fpath]> files in
  msi_ntf_fpath ← lift (getkey "image" (msi files));
  let msi_fname := splitext_root (path_basename msi_ntf_fpath) in
  let msi_ortho_img_fpath := path_join working_dir (msi_fname +:+ "_ortho.tif") in
  let cmd_args := [msi_ntf_fpath; dsm_file; msi_ortho_img_fpath; "--dtm"; dtm_file] in
  let msi_rpc_fpath := msi files !! "rpc" in
  let cmd_args :=
    if truthy msi_rpc_fpath
    then cmd_args ++ ["--raytheon-rpc"; default EmptyString msi_rpc_fpath]
    else cmd_args in
  _ ← emit (Call "orthorectify" cmd_args);
  mret (st, set_msi <["ortho_img_fpath" := msi_ortho_img_fpath]> files).

Definition pansharpen_collection (working_dir : string)
    (st : option Q * string) (collection_id : string) (files : collection)
  : run ((option Q * string) * collection) :=
  ortho_pan_fpath ← lift (getkey "ortho_img_fpath" (pan files));
  ortho_msi_fpath ← lift (getkey "ortho_img_fpath" (msi files));
  let pansharpened_output_image :=
    path_join working_dir (collection_id +:+ "_ortho_pansharpened.tif") in
  let cmd_args := ["gdal_pansharpen.py"; ortho_pan_fpath; ortho_msi_fpath;
                   pansharpened_output_image] in
  _ ← emit (Call "subprocess.run" cmd_args);
  let files := set_pansharpened_fpath pansharpened_output_image files in
  pan_image ← lift (getkey "image" (pan files));
  let angle := obliquity_angle pan_image in
  mret (nadir_update collection_id angle st, files).

Definition rgb_collection (working_dir : string)
    (st : unit) (collection_id : string) (files : collection)
  : run (unit * collection) :=
  let rgb_image_fpath :=
    path_join working_dir (collection_id +:+ "_rgb_byte_image.tif") in
  let msi_image_fpath := pansharpened_fpath files in
  let cmd_args := [msi_image_fpath; rgb_image_fpath; "-b"] in
  _ ← emit (Call "msi_to_rgb" cmd_args);
  mret (st, set_rgb_fpath rgb_image_fpath files).

(** Lines 370-374; the state is [(img_paths, info_paths)]. *)
Definition material_paths (st : list string * list string)
    (collection_id : string) (files : collection)
  : run ((list string * list string) * collection) :=
  let '(img_paths, info_paths) := st in
  img ← lift (getkey "ortho_img_fpath" (msi files));
  info ← lift (getkey "info" (msi files));
  mret ((img_paths ++ [img], info_paths ++ [info]), files).

(** Lines 188-440: the stages, on the collections that passed validation. *)
Definition run_stages (cfg : config) (working_dir : string)
    (collection_id_to_files : list (string * collection)) : run unit :=
  let p3d_file := p3d_fpath cfg in
  (* Render DSM from P3D point cloud *)
  let dsm_file := path_join working_dir (aoi_name cfg +:+ "_P3D_DSM.tif") in
  _ ← emit (Call "generate_dsm"
              ([dsm_file; "-s"; p3d_file; "--bounds"] ++ aoi_bounds cfg
               ++ ["--gsd"; gsd cfg]));
  (* Fit DTM to the DSM *)
  let dtm_file := path_join working_dir (aoi_name cfg +:+ "_DTM.tif") in
  _ ← emit (Call "fit_dtm" [dsm_file; dtm_file]);
  (* Orthorectify images *)
  '(_, collection_id_to_files) ←
    for_items (orthorectify_collection working_dir dsm_file dtm_file)
              collection_id_to_files tt;
  (* Pansharpen images *)
  '((lowest_angle, most_nadir_collection_id), collection_id_to_files) ←
    for_items (pansharpen_collection working_dir)
              collection_id_to_files (None, EmptyString);
  (* Convert to 8-bit RGB *)
  '(_, collection_id_to_files) ←
    for_items (rgb_collection working_dir) collection_id_to_files tt;
  (* Segment by Height and Vegetation *)
  most_nadir_files ← lift (getitem most_nadir_collection_id collection_id_to_files);
  let most_nadir_pan_fpath := pansharpened_fpath most_nadir_files in
  let ndvi_output_fpath := path_join working_dir "ndvi.tif" in
  let threshold_output_mask_fpath := path_join working_dir "threshold_CLS.tif" in
  let cmd_args := [dsm_file; dtm_file; threshold_output_mask_fpath;
                   "--msi"; most_nadir_pan_fpath; "--ndvi"; ndvi_output_fpath] in
  let cmd_args :=
    if truthy (osm_roads_shapefiles_dir cfg) && truthy (osm_roads_shapefiles_prefix cfg)
    then cmd_args ++
         ["--road-vector";
          path_join (default EmptyString (osm_roads_shapefiles_dir cfg))
                    (default EmptyString (osm_roads_shapefiles_prefix cfg) +:+ ".shx");
          "--road-rasterized";
          path_join working_dir "road_rasterized.tif";
          "--road-rasterized-bridge";
          path_join working_dir "road_rasterized_bridge.tif"]
    else cmd_args in
  _ ← emit (Call "segment_by_height" cmd_args);
  (* UNet Semantic Segmentation *)
  let semantic_output_prefix := "semantic" in
  most_nadir_files ← lift (getitem most_nadir_collection_id collection_id_to_files);
  let most_nadir_rgb_fpath := rgb_fpath most_nadir_files in
  _ ← emit (Call "kwsemantic_segment"
              [semantic_config_fpath cfg; semantic_model_fpath cfg;
               most_nadir_rgb_fpath; dsm_file; dtm_file; most_nadir_pan_fpath;
               working_dir; semantic_output_prefix]);
  (* Columbia Building Segmentation *)
  most_nadir_files ← lift (getitem most_nadir_collection_id collection_id_to_files);
  let most_nadir_pan_fpath := pansharpened_fpath most_nadir_files in
  most_nadir_files ← lift (getitem most_nadir_collection_id collection_id_to_files);
  let most_nadir_rgb_fpath := rgb_fpath most_nadir_files in
  _ ← emit (Call "building_segmentation"
              ["--rgb_image"; most_nadir_rgb_fpath;
               "--msi_image"; most_nadir_pan_fpath;
               "--dsm"; dsm_file;
               "--dtm"; dtm_file;
               "--model_path"; building_model_fpath_prefix cfg;
               "--save_dir"; working_dir;
               "--output_tif"]);
  (* Material Segmentation *)
  '((img_paths, info_paths), collection_id_to_files) ←
    for_items material_paths collection_id_to_files ([], []);
  let cmd_args :=
    ["--image_paths"] ++ img_paths ++ ["--info_paths"] ++ info_paths
    ++ ["--output_dir"; working_dir;
        "--model_path"; material_model_fpath cfg;
        "--outfile_prefix"; aoi_name cfg] in
  let cmd_args :=
    match material_batch_size cfg with
    | Some batch_size => cmd_args ++ ["--batch_size"; batch_size]
    | None => cmd_args
    end in
  let cmd_args :=
    if material_cuda cfg then cmd_args ++ ["--cuda"] else cmd_args in
  _ ← emit (Call "material_classifier" cmd_args);
  (* Roof Geon Extraction & PointNet Geon Extraction *)
  _ ← emit (Call "roof_geon_extraction"
              ["--las"; p3d_file;
               "--cls"; threshold_output_mask_fpath;
               "--dtm"; dtm_file;
               "--model_dir"; roof_model_dir cfg;
               "--model_prefix"; roof_model_prefix cfg;
               "--output_dir"; working_dir]);
  (* Buildings to DSM *)
  let output_dsm := path_join working_dir "buildings_to_dsm_DSM.tif" in
  _ ← emit (Call "buildings_to_dsm"
              ([dtm_file; output_dsm] ++ ["--input_obj_paths"]
               ++ glob (working_dir +:+ "/*.obj")));
  let output_cls := path_join working_dir "buildings_to_dsm_CLS.tif" in
  _ ← emit (Call "buildings_to_dsm"
              ([dtm_file; output_cls; "--render_cls"] ++ ["--input_obj_paths"]
               ++ glob (working_dir +:+ "/*.obj")));
  mret tt.

Definition main (cfg : config) : run unit :=
  working_dir ← lift (create_working_dir realpath now_timestamp
                        (work_dir cfg) (imagery_dir cfg));
  '(collection_id_to_files, incomplete_ids) ←
    find_collections (os_walk (imagery_dir cfg)) (os_walk (rpc_dir cfg));
  run_stages cfg working_dir collection_id_to_files.
End Pipeline.

(** *** Example runs *)

(** An imagery tree with two collections, the second without the archive of
    its msi image, and the tree of their rpc files. *)
Definition example_imagery_walk : list (string * list string) :=
  [("/data/img",
    ["12ABC34567890-P1BS-1.ntf"; "12ABC34567890-M1BS-1.ntf";
     "12ABC34567890-P1BS-1.tar"; "12ABC34567890-M1BS-1.tar";
     "13ABC34567890-P1BS-1.ntf"; "13ABC34567890-M1BS-1.ntf";
     "13ABC34567890-P1BS-1.tar"])].

Definition example_rpc_walk : list (string * list string) :=
  [("/data/rpc",
    ["12ABC34567890-P1BS-1.rpc"; "12ABC34567890-M1BS-1.rpc";
     "13ABC34567890-P1BS-1.rpc"; "13ABC34567890-M1BS-1.rpc"])].

(** An imagery tree that holds the archive and, next door, the rpc file of a
    collection, without any image. *)
Definition archive_only_walk : list (string * list string) :=
  [("/data/img", ["12ABC34567890-P1BS-1.tar"])].

Definition archive_only_rpc_walk : list (string * list string) :=
  [("/data/rpc", ["12ABC34567890-P1BS-1.rpc"])].

Definition example_os_walk (top : string) : list (string * list string) :=
  if String.eqb top "/data/img" then example_imagery_walk
  else if String.eqb top "/data/rpc" then example_rpc_walk
  else [].

Definition example_config : config :=
  {| work_dir := Some "/work";
     imagery_dir := "/data/img";
     rpc_dir := "/data/rpc";
     p3d_fpath := "/data/p3d.las";
     aoi_name := "D1";
     aoi_bounds := ["747285"; "747908"; "4407065"; "4407640"];
     gsd := "0.25";
     osm_roads_shapefiles_dir := None;
     osm_roads_shapefiles_prefix := None;
     semantic_config_fpath := "/models/semantic.json";
     semantic_model_fpath := "/models/semantic.pth";
     building_model_fpath_prefix := "/models/building";
     material_model_fpath := "/models/material.pth";
     material_batch_size := None;
     material_cuda := false;
     roof_model_dir := "/models/roof";
     roof_model_prefix := "dayton" |}.

(** What the specification states of a run in which validation leaves no
    collection: the validator signals [NoUsableCollections], and the run ends
    on that error before any stage is called. *)
Definition stated_no_usable_collections (r : run unit) : Prop :=
  (exists e, r.2 = Raise e) /\ forallb (fun e => negb (is_call e)) r.1 = true.

(** ** Opening, saving and layers ([gdal_utils.py]) *)

(** The exceptions of the functions below: those of [exn], the [OSError] of
    a file that cannot be opened and the [UnboundLocalError] of a local
    variable read before any assignment. *)
Inductive error : Type :=
| Exn (e : exn)
| OSError
| UnboundLocalError.

Inductive outcome (A : Type) : Type :=
| Returns (a : A)
| Raises (e : error).
Arguments Returns {A} a.
Arguments Raises {A} e.

Definition of_result {A : Type} (r : result A) : outcome A :=
  match r with
  | Ok a => Returns a
  | Raise e => Raises (Exn e)
  end.

Section Open.
(** The objects that [gdal.Open] and [ogr.Open] return, and the two
    functions: [None] for a file that cannot be opened. *)
Context {Dataset DataSource : Type}.
Variable gdal_Open : string -> option Dataset.
Variable ogr_Open : string -> option DataSource.

Definition gdal_open (filename : string) : outcome Dataset :=
  let rv := gdal_Open filename in
  match rv with
  | None => Raises OSError
  | Some rv => Returns rv
  end.

Definition ogr_open (filename : string) : outcome DataSource :=
  let rv := ogr_Open filename in
  match rv with
  | None => Raises OSError
  | Some rv => Returns rv
  end.
End Open.

Section Save.
(** numpy arrays and their [shape]; the value of
    [src_file.GetDriver().GetMetadata().get(gdal.DCAP_CREATE)] is the
    argument [dcap_create]. *)
Variable ndarray : Type.
Variable shape : ndarray -> list Z.

(** What [gdal_save] does to the driver and to the new file. *)
Inductive gdal_op : Type :=
| Create (filename : string) (xsize ysize : Z) (bands : nat) (eType : Z)
         (options : list string)
| CopyDatasetInfo
| WriteArray (band : nat) (a : ndarray).

(** [for i, a in enumerate(arr)], from index [i] on. *)
Fixpoint write_bands (arr : list ndarray) (i : nat) : list gdal_op :=
  match arr with
  | [] => []
  | a :: arr' => WriteArray (i + 1) a :: write_bands arr' (S i)
  end.

(** [arr] is one array or a Python list of arrays. *)
Definition gdal_save (arr : ndarray + list ndarray) (dcap_create : option string)
    (filename : string) (eType : Z) (options : list string)
  : list gdal_op * result unit :=
  let '(numberOfBands, arr) :=
    match arr with
    | inr arr => (length arr, arr)
    | inl arr => (1%nat, [arr])
    end in
  if negb (bool_decide (dcap_create = Some "YES")) then ([], Raise RuntimeError)
  else
    match arr !! 0%nat with
    | None => ([], Raise IndexError)
    | Some arr0 =>
        match shape arr0 !! 1%nat, shape arr0 !! 0%nat with
        | Some xsize, Some ysize =>
            (Create filename xsize ysize numberOfBands eType options
               :: CopyDatasetInfo :: write_bands arr 0,
             Ok tt)
        | _, _ => ([], Raise IndexError)
        end
    end.
End Save.

Arguments Create {ndarray} _ _ _ _ _ _.
Arguments CopyDatasetInfo {ndarray}.
Arguments WriteArray {ndarray} _ _.

Section Layers.
(** The layers of a vector file, [GetLayerByIndex(i)] being entry [i] of
    the list, and the geometry type of a layer. *)
Variable Layer : Type.
Variable GetGeomType : Layer -> Z.

(** The loop of lines 105-109 from index [i] on; [bound] holds the values
    of the local variables [i] and [layer], [None] before the first
    assignment. *)
Fixpoint ogr_layer_loop (layers : list Layer) (i : nat) (geometryType : Z)
    (bound : option (nat * Layer)) : option (nat * Layer) :=
  match layers with
  | [] => bound
  | layer :: layers' =>
      let type := GetGeomType layer in
      if (type =? geometryType)%Z then Some (i, layer)
      else ogr_layer_loop layers' (S i) geometryType (Some (i, layer))
  end.

Definition ogr_get_layer (vectorFile : list Layer) (geometryType : Z)
  : outcome Layer :=
  let layerCount := length vectorFile in
  match ogr_layer_loop vectorFile 0 geometryType None with
  | None => Raises UnboundLocalError
  | Some (i, layer) =>
      if (i =? layerCount)%nat then Raises (Exn RuntimeError)
      else Returns layer
  end.
End Layers.

Section UtmZoneOfFile.
Variable GCP : Type.
Variable GCPsToGeoTransform : list GCP -> option GeoTransform.
Variable Proj : Type.
Variable proj_of_wkt : string -> Proj.
Variable pyproj_transform : Proj -> Proj -> Q -> Q -> Q * Q.
Variable gdal_Open : string -> option (Raster GCP).
(** [pyproj.Proj('+proj=longlat +datum=WGS84')]. *)
Variable longlat : Proj.

(** Unpacking [None] into four names is a [TypeError]. *)
Definition gdal_get_utm_zone (file_name : string) : outcome (Z * string) :=
  match gdal_open gdal_Open file_name with
  | Raises e => Raises e
  | Returns img =>
      let out_proj := longlat in
      match gdal_bounding_box GCPsToGeoTransform proj_of_wkt pyproj_transform
              img (Some out_proj) with
      | Some [left_; bottom; right_; top] =>
          let lon := ((left_ + right_) / 2)%Q in
          let lat := ((bottom + top) / 2)%Q in
          of_result (compute_utm_zone lon lat)
      | Some _ => Raises (Exn ValueError)
      | None => Raises (Exn TypeError)
      end
  end.
End UtmZoneOfFile.

(** ** Canonical paths and command lines *)

(** The absolute path of the components [cs], as [os.path.realpath] writes
    it: a slash before each component, a single slash for the root. *)
Definition join_components (cs : list string) : string :=
  match cs with
  | [] => "/"
  | _ => foldr (fun c path => "/" +:+ c +:+ path) EmptyString cs
  end.

Definition canonical (p : string) : Prop :=
  p = join_components (path_components p).

(** The arguments that lines 204-217 and 227-240 pass to [orthorectify] for
    the image of one modality of a collection. *)
Definition ortho_args (working_dir dsm_file dtm_file : string)
    (m : gmap string string) : list string :=
  [default EmptyString (m !! "image"); dsm_file; ortho_path working_dir m;
   "--dtm"; dtm_file]
  ++ (if truthy (m !! "rpc")
      then ["--raytheon-rpc"; default EmptyString (m !! "rpc")]
      else []).

(** The name of the tool of a call. *)
Definition tool_of (e : event) : string :=
  match e with
  | Call tool _ => tool
  | LogWarning _ => EmptyString
  end.

(** A collection after the three stages that rewrite its record. *)
Definition staged (working_dir : string) (kv : string * collection)
  : string * collection :=
  (kv.1, set_rgb_fpath (rgb_path working_dir kv.1)
           (set_pansharpened_fpath (pansharpened_path working_dir kv.1)
              (orthorectified working_dir kv.2))).

(** The complete collection of the example, as validation leaves it. *)
Definition example_collections : list (string * collection) :=
  [("12ABC34567890",
    classified (walk_with_ext example_imagery_walk ".ntf")
               (walk_with_ext example_rpc_walk ".rpc")
               (walk_with_ext example_imagery_walk ".tar") "12ABC34567890")].

(** * Properties *)

(** ** Floats *)

Section FloatFacts.
Local Open Scope Q_scope.

Lemma Qlt_bool_iff (x y : Q) : Qlt_bool x y = true <-> x < y.
Proof.
  unfold Qlt_bool. rewrite negb_true_iff.
  destruct (Qle_bool y x) eqn:E.
  - apply Qle_bool_iff in E. split; [discriminate | intros H; exfalso; lra].
  - split; [intros _ | reflexivity].
    destruct (Qlt_le_dec x y) as [H|H]; [exact H |].
    apply Qle_bool_iff in H. congruence.
Qed.

Lemma Qlt_bool_false (x y : Q) : Qlt_bool x y = false <-> y <= x.
Proof.
  unfold Qlt_bool. rewrite negb_false_iff. apply Qle_bool_iff.
Qed.

Lemma Qle_bool_false (x y : Q) : Qle_bool x y = false <-> y < x.
Proof.
  rewrite <- Qlt_bool_iff. unfold Qlt_bool.
  destruct (Qle_bool x y); simpl; intuition congruence.
Qed.

Lemma Qtrunc_nonneg (x : Q) : 0 <= x -> Qtrunc x = Qfloor x.
Proof.
  destruct x as [n d]. unfold Qle, Qtrunc, Qfloor. simpl. intros H.
  apply Z.quot_div_nonneg; lia.
Qed.

Lemma Qtrunc_nonpos (x : Q) : x <= 0 -> Qtrunc x = Qceiling x.
Proof.
  destruct x as [n d]. unfold Qle, Qtrunc, Qceiling, Qfloor. simpl. intros H.
  replace n with (- - n)%Z at 1 by lia.
  rewrite Z.quot_opp_l by lia.
  f_equal. apply Z.quot_div_nonneg; lia.
Qed.

Lemma Qtrunc_integer (x : Q) : x == inject_Z (Qfloor x) -> Qtrunc x = Qfloor x.
Proof.
  intros Hx. destruct (Qlt_le_dec x 0) as [Hneg | Hpos].
  - rewrite Qtrunc_nonpos by lra. unfold Qceiling.
    assert (H : - x == inject_Z (- Qfloor x)).
    { rewrite inject_Z_opp. rewrite <- Hx. reflexivity. }
    rewrite (Qfloor_comp _ _ H), Qfloor_Z. lia.
  - apply Qtrunc_nonneg, Hpos.
Qed.

Lemma Qtrunc_lower (x : Q) (a : Z) : inject_Z a <= x -> (a <= 0)%Z -> (a <= Qtrunc x)%Z.
Proof.
  intros Hx Ha. destruct (Qlt_le_dec x 0) as [Hneg | Hpos].
  - rewrite Qtrunc_nonpos by lra.
    rewrite Zle_Qle. pose proof (Qle_ceiling x). lra.
  - rewrite Qtrunc_nonneg by exact Hpos.
    transitivity 0%Z; [exact Ha |].
    rewrite <- (Qfloor_Z 0). apply Qfloor_resp_le. exact Hpos.
Qed.

Lemma Qfloor_lt (x : Q) (b : Z) : x < inject_Z b -> (Qfloor x < b)%Z.
Proof.
  intros Hx. rewrite Zlt_Qlt. pose proof (Qfloor_le x). lra.
Qed.

Lemma Qtrunc_upper (x : Q) (b : Z) : x < inject_Z b -> (0 < b)%Z -> (Qtrunc x < b)%Z.
Proof.
  intros Hx Hb. destruct (Qlt_le_dec x 0) as [Hneg | Hpos].
  - rewrite Qtrunc_nonpos by lra.
    enough (Qceiling x <= 0)%Z by lia.
    rewrite <- (Qceiling_Z 0). apply Qceiling_resp_le.
    change (inject_Z 0) with 0. lra.
  - rewrite Qtrunc_nonneg by exact Hpos. apply Qfloor_lt, Hx.
Qed.

(** [math.fmod] of a non-negative float lies in [[0, y)]. *)
Lemma fmod_nonneg (x y : Q) : 0 <= x -> 0 < y -> 0 <= fmod x y < y.
Proof.
  intros Hx Hy. unfold fmod.
  assert (Hq : 0 <= x / y).
  { apply Qle_shift_div_l; [exact Hy | lra]. }
  rewrite (Qtrunc_nonneg _ Hq).
  pose proof (Qfloor_le (x / y)) as Hlo.
  pose proof (Qlt_floor (x / y)) as Hhi.
  rewrite inject_Z_plus in Hhi.
  assert (Hxy : x == y * (x / y)) by (field; lra).
  set (q := x / y) in *. set (f := inject_Z (Qfloor q)) in *.
  change (inject_Z 1) with 1 in Hhi.
  split.
  - assert (y * f <= y * q) by (apply Qmult_le_l; assumption). lra.
  - assert (y * q < y * (f + 1)) by (apply Qmult_lt_l; assumption). lra.
Qed.

(** [math.fmod] of a negative float lies in [(-y, 0]]. *)
Lemma fmod_neg (x y : Q) : x < 0 -> 0 < y -> - y < fmod x y <= 0.
Proof.
  intros Hx Hy. unfold fmod.
  assert (Hq : x / y <= 0).
  { apply Qle_shift_div_r; [exact Hy | lra]. }
  rewrite (Qtrunc_nonpos _ Hq).
  pose proof (Qle_ceiling (x / y)) as Hlo.
  pose proof (Qceiling_lt (x / y)) as Hhi.
  unfold Z.sub in Hhi. rewrite inject_Z_plus, inject_Z_opp in Hhi.
  assert (Hxy : x == y * (x / y)) by (field; lra).
  set (q := x / y) in *. set (f := inject_Z (Qceiling q)) in *.
  change (inject_Z 1) with 1 in Hhi.
  split.
  - assert (y * (f - 1) < y * q) by (apply Qmult_lt_l; assumption). lra.
  - assert (y * q <= y * f) by (apply Qmult_le_l; assumption). lra.
Qed.

Lemma Qtrunc_div6 (n : Z) :
  (0 <= n)%Z -> Qtrunc (inject_Z n / 6 + 1) = (n / 6 + 1)%Z.
Proof.
  intros Hn. unfold Qtrunc, Qdiv, Qmult, Qplus, Qinv, inject_Z. simpl.
  rewrite Z.quot_div_nonneg by lia.
  change (Z.pos (1 * 6 * 1)) with 6%Z. change (1 * Z.pos (1 * 6))%Z with (1 * 6)%Z.
  rewrite Z.div_add by lia. f_equal. f_equal. lia.
Qed.

End FloatFacts.

(** ** [compute_utm_zone] *)

Section UTM.
Local Open Scope Q_scope.

(** Turns the boolean comparisons in the context into propositions. *)
Ltac Qprop :=
  repeat match goal with
  | H : Qle_bool _ _ = true |- _ => apply Qle_bool_iff in H
  | H : Qle_bool _ _ = false |- _ => apply Qle_bool_false in H
  | H : Qlt_bool _ _ = true |- _ => apply Qlt_bool_iff in H
  | H : Qlt_bool _ _ = false |- _ => apply Qlt_bool_false in H
  end.

(** Case analysis on the first comparison tested by the goal. *)
Ltac Qcase :=
  match goal with
  | |- context [Qle_bool ?a ?b] => destruct (Qle_bool a b) eqn:?
  | |- context [Qlt_bool ?a ?b] => destruct (Qlt_bool a b) eqn:?
  end; simpl; Qprop.

Lemma normalize_lon_range (lon : Q) :
  -180 <= lon -> -180 <= normalize_lon lon < 180.
Proof.
  intros H. unfold normalize_lon.
  assert (Hf : 0 <= fmod (lon + 180) 360 < 360) by (apply fmod_nonneg; lra).
  lra.
Qed.

Lemma normalize_lat_range (lat : Q) :
  -90 <= lat -> -90 <= normalize_lat lat < 90.
Proof.
  intros H. unfold normalize_lat.
  assert (Hf : 0 <= fmod (lat + 90) 180 < 180) by (apply fmod_nonneg; lra).
  lra.
Qed.

(** Below [-90] the reduction leaves the latitude below [-90]. *)
Lemma normalize_lat_low (lat : Q) :
  lat < -90 -> normalize_lat lat <= -90.
Proof.
  intros H. unfold normalize_lat.
  assert (Hf : - (180) < fmod (lat + 90) 180 <= 0) by (apply fmod_neg; lra).
  lra.
Qed.

Lemma general_zone_range (lon : Q) :
  -180 <= lon < 180 ->
  (1 <= Qtrunc (inject_Z (Qtrunc lon + 180) / 6 + 1) <= 60)%Z.
Proof.
  intros [Hlo Hhi].
  assert (H1 : (-180 <= Qtrunc lon)%Z) by (apply Qtrunc_lower; [exact Hlo | lia]).
  assert (H2 : (Qtrunc lon < 180)%Z) by (apply Qtrunc_upper; [exact Hhi | lia]).
  rewrite Qtrunc_div6 by lia.
  assert (0 <= (Qtrunc lon + 180) / 6 < 60)%Z; [| lia].
  split; [apply Z.div_pos; lia | apply Z.div_lt_upper_bound; lia].
Qed.

Lemma utm_zone_number_valid (lon lat : Q) :
  -180 <= lon < 180 -> -80 <= lat <= 84 ->
  (1 <= utm_zone_number lon lat <= 60)%Z.
Proof.
  intros Hlon [Hlo Hhi]. unfold utm_zone_number.
  apply Qle_bool_iff in Hlo, Hhi. rewrite Hlo, Hhi. simpl.
  repeat (Qcase; try lia).
  all: apply general_zone_range, Hlon.
Qed.

Lemma utm_zone_number_invalid (lon lat : Q) :
  ~ (-80 <= lat <= 84) -> utm_zone_number lon lat = 0%Z.
Proof.
  intros H. unfold utm_zone_number.
  destruct (Qle_bool (-80) lat) eqn:Hlo; [| reflexivity].
  destruct (Qle_bool lat 84) eqn:Hhi; [| reflexivity].
  Qprop. exfalso. apply H. split; assumption.
Qed.

Lemma compute_utm_zone_ok (lon lat : Q) (zone : Z) :
  utm_zone_number (normalize_lon lon) (normalize_lat lat) = zone ->
  zone <> 0%Z ->
  compute_utm_zone lon lat =
  Ok (zone, if Qlt_bool 0 (normalize_lat lat) then "N" else "S")%string.
Proof.
  intros Hz Hnz. unfold compute_utm_zone. rewrite Hz.
  destruct (Z.eqb_spec zone 0) as [E | _]; [contradiction | reflexivity].
Qed.

Lemma compute_utm_zone_raise (lon lat : Q) :
  utm_zone_number (normalize_lon lon) (normalize_lat lat) = 0%Z ->
  compute_utm_zone lon lat = Raise RuntimeError.
Proof. intros Hz. unfold compute_utm_zone. rewrite Hz. reflexivity. Qed.

(** The zone of the first exception band, as the specification words it. *)
Lemma band_72_84_zone (lon lat : Q) :
  -80 <= lat <= 84 -> 72 <= lat -> 0 <= lon < 42 ->
  utm_zone_number lon lat =
  (if Qlt_bool lon 9 then 31
   else if Qlt_bool lon 21 then 33
   else if Qlt_bool lon 33 then 35 else 37)%Z.
Proof.
  intros [H1 H2] H3 [H4 H5]. unfold utm_zone_number.
  apply Qle_bool_iff in H1, H2, H3, H4. apply Qlt_bool_iff in H5.
  rewrite H1, H2, H3, H4, H5. reflexivity.
Qed.

Lemma band_56_64_zone (lon lat : Q) :
  56 <= lat < 64 -> 0 <= lon < 12 ->
  utm_zone_number lon lat = (if Qlt_bool lon 3 then 31 else 32)%Z.
Proof.
  intros [H1 H2] [H3 H4]. unfold utm_zone_number.
  assert (Ha : Qle_bool (-80) lat = true) by (apply Qle_bool_iff; lra).
  assert (Hb : Qle_bool lat 84 = true) by (apply Qle_bool_iff; lra).
  assert (Hc : Qle_bool 72 lat = false) by (apply Qle_bool_false; lra).
  apply Qle_bool_iff in H1, H3. apply Qlt_bool_iff in H2, H4.
  rewrite Ha, Hb, Hc, H1, H2, H3, H4. reflexivity.
Qed.

Lemma general_zone (lon lat : Q) :
  -80 <= lat <= 84 ->
  ~ (72 <= lat /\ 0 <= lon < 42) ->
  ~ (56 <= lat < 64 /\ 0 <= lon < 12) ->
  utm_zone_number lon lat = Qtrunc (inject_Z (Qtrunc lon + 180) / 6 + 1).
Proof.
  intros [H1 H2] HA HB. unfold utm_zone_number.
  apply Qle_bool_iff in H1, H2. rewrite H1, H2. simpl.
  destruct (Qle_bool 72 lat && (Qle_bool 0 lon && Qlt_bool lon 42)) eqn:EA.
  { exfalso. apply HA. rewrite !andb_true_iff in EA.
    destruct EA as (? & ? & ?). Qprop. auto. }
  destruct ((Qle_bool 56 lat && Qlt_bool lat 64) && (Qle_bool 0 lon && Qlt_bool lon 12)) eqn:EB.
  { exfalso. apply HB. rewrite !andb_true_iff in EB.
    destruct EB as ((? & ?) & ? & ?). Qprop. auto. }
  reflexivity.
Qed.

Lemma general_zone_floor (lon : Q) :
  0 <= lon \/ (-180 <= lon /\ lon == inject_Z (Qfloor lon)) ->
  Qtrunc (inject_Z (Qtrunc lon + 180) / 6 + 1) = ((Qfloor lon + 180) / 6 + 1)%Z
  /\ (1 <= (Qfloor lon + 180) / 6 + 1)%Z.
Proof.
  intros H.
  assert (Ht : Qtrunc lon = Qfloor lon).
  { destruct H as [H | [_ H]]; [apply Qtrunc_nonneg, H | apply Qtrunc_integer, H]. }
  assert (Hn : (-180 <= Qfloor lon)%Z).
  { rewrite <- Ht. apply Qtrunc_lower; [| lia].
    destruct H as [H | [H _]]; [| exact H].
    change (inject_Z (-180)) with (-180). lra. }
  rewrite Ht, Qtrunc_div6 by lia. split; [reflexivity |].
  assert (0 <= (Qfloor lon + 180) / 6)%Z by (apply Z.div_pos; lia). lia.
Qed.

(** C1 (as amended).  With [lon'] and [lat'] the normalized coordinates and
    [lat'] in the valid band [-80,84]: in the band of latitudes from 72 up and
    longitudes [0,42) the zone is 31 below 9, 33 below 21, 35 below 33 and 37
    otherwise; in the band of latitudes [56,64) and longitudes [0,12) it is 31
    below 3 and 32 otherwise; outside both bands, for a longitude that is
    non-negative or a whole number not below -180, it is
    floor((floor(lon') + 180) / 6) + 1.  In particular utmZone(5,75) = 31,
    utmZone(25,75) = 35, utmZone(1,60) = 31 and utmZone(5,60) = 32. *)
Theorem utm_zone_bands :
  (forall lon lat : Q,
     let lon' := normalize_lon lon in
     let lat' := normalize_lat lat in
     let hemisphere := (if Qlt_bool 0 lat' then "N" else "S")%string in
     -80 <= lat' <= 84 ->
     (72 <= lat' -> 0 <= lon' < 42 ->
      compute_utm_zone lon lat =
      Ok ((if Qlt_bool lon' 9 then 31
           else if Qlt_bool lon' 21 then 33
           else if Qlt_bool lon' 33 then 35 else 37)%Z, hemisphere)) /\
     (56 <= lat' < 64 -> 0 <= lon' < 12 ->
      compute_utm_zone lon lat =
      Ok ((if Qlt_bool lon' 3 then 31 else 32)%Z, hemisphere)) /\
     (~ (72 <= lat' /\ 0 <= lon' < 42) ->
      ~ (56 <= lat' < 64 /\ 0 <= lon' < 12) ->
      0 <= lon' \/ (-180 <= lon' /\ lon' == inject_Z (Qfloor lon')) ->
      compute_utm_zone lon lat =
      Ok (((Qfloor lon' + 180) / 6 + 1)%Z, hemisphere))) /\
  compute_utm_zone 5 75 = Ok (31%Z, "N"%string) /\
  compute_utm_zone 25 75 = Ok (35%Z, "N"%string) /\
  compute_utm_zone 1 60 = Ok (31%Z, "N"%string) /\
  compute_utm_zone 5 60 = Ok (32%Z, "N"%string).
Proof.
  split; [| repeat split; reflexivity].
  intros lon lat lon' lat' hemisphere Hband. repeat split.
  - intros H72 Hlon. apply compute_utm_zone_ok.
    + apply band_72_84_zone; assumption.
    + fold lon'. repeat (Qcase; try discriminate).
  - intros H56 Hlon. apply compute_utm_zone_ok.
    + apply band_56_64_zone; assumption.
    + fold lon'. repeat (Qcase; try discriminate).
  - intros HA HB Hlon.
    destruct (general_zone_floor lon' Hlon) as [Hz Hpos].
    apply compute_utm_zone_ok.
    + fold lon' lat'. rewrite general_zone by assumption. exact Hz.
    + lia.
Qed.

(** The first band at longitude 5 and latitude 75. *)
Lemma utm_zone_bands_witness :
  compute_utm_zone 5 75 = Ok (31%Z, "N"%string).
Proof.
  refine (proj1 (proj1 utm_zone_bands 5 75 _) _ _).
  - split; apply Qle_bool_iff; vm_compute; reflexivity.
  - apply Qle_bool_iff; vm_compute; reflexivity.
  - split; [apply Qle_bool_iff | apply Qlt_bool_iff]; vm_compute; reflexivity.
Defined.

(** C1 as stated fails: at longitude 25 and latitude 75 the zone is 35, not
    33; and at latitude 84, which the code takes as valid, the first band
    still applies, so that longitude 10 is given zone 33 where the general
    formula gives 32. *)
Lemma utm_zone_stated_examples_fail :
  ~ (exists hemisphere, compute_utm_zone 25 75 = Ok (33%Z, hemisphere)) /\
  compute_utm_zone 10 84 = Ok (33%Z, "N"%string) /\
  ((Qfloor 10 + 180) / 6 + 1 = 32)%Z.
Proof.
  split; [| split; reflexivity].
  intros [h H]. vm_compute in H. discriminate H.
Qed.

(** The general case truncates toward zero where the zoning takes a floor:
    half a degree west of Greenwich lies in zone 30, and is given zone 31. *)
Lemma utm_zone_truncation :
  compute_utm_zone (-1 # 2) 0 = Ok (31%Z, "S"%string) /\
  ((Qfloor (-1 # 2) + 180) / 6 + 1 = 30)%Z.
Proof. split; reflexivity. Qed.

(** The reduction leaves a longitude below -180 as it is, and the zone is
    then neither in [1,60] nor an error. *)
Lemma utm_zone_west_of_minus_180 :
  normalize_lon (-200) == -200 /\
  compute_utm_zone (-200) 0 = Ok ((-2)%Z, "S"%string).
Proof. split; reflexivity. Qed.

(** C2 (as amended).  For a longitude not below -180 and a latitude not
    below -90, [compute_utm_zone] reduces the longitude to [-180,180) and the
    latitude to [-90,90), each by a whole number of turns; when the reduced
    latitude is in [-80,84] it returns a zone in [1,60] with hemisphere N
    exactly when the reduced latitude is positive and S otherwise; when the
    reduced latitude is outside [-80,84] it raises. *)
Theorem utm_normalization_and_validity (lon lat : Q) :
  -180 <= lon -> -90 <= lat ->
  let lon' := normalize_lon lon in
  let lat' := normalize_lat lat in
  (-180 <= lon' < 180 /\ exists k : Z, lon' == lon - 360 * inject_Z k) /\
  (-90 <= lat' < 90 /\ exists k : Z, lat' == lat - 180 * inject_Z k) /\
  (-80 <= lat' <= 84 ->
   exists (zone : Z) (hemisphere : string),
     compute_utm_zone lon lat = Ok (zone, hemisphere) /\
     (1 <= zone <= 60)%Z /\
     (hemisphere = "N"%string <-> 0 < lat') /\
     (hemisphere = "S"%string <-> lat' <= 0)) /\
  (~ (-80 <= lat' <= 84) -> compute_utm_zone lon lat = Raise RuntimeError).
Proof.
  intros Hlon Hlat lon' lat'.
  pose proof (normalize_lon_range lon Hlon) as Hlon'.
  pose proof (normalize_lat_range lat Hlat) as Hlat'.
  repeat split; try tauto.
  - exists (Qtrunc ((lon + 180) / 360)). unfold lon', normalize_lon, fmod. ring.
  - exists (Qtrunc ((lat + 90) / 180)). unfold lat', normalize_lat, fmod. ring.
  - intros Hband.
    pose proof (utm_zone_number_valid lon' lat' Hlon' Hband) as Hz.
    eexists _, _. split; [apply compute_utm_zone_ok; [reflexivity | ] |].
    + fold lon' lat'. lia.
    + fold lon' lat'. split; [exact Hz |].
      destruct (Qlt_bool 0 lat') eqn:E; Qprop.
      * split; split; intros; try reflexivity; try assumption; try discriminate.
        exfalso; lra.
      * split; split; intros; try reflexivity; try assumption; try discriminate.
        exfalso; lra.
  - intros Hout. apply compute_utm_zone_raise, utm_zone_number_invalid, Hout.
Qed.

(** Longitude 10 at the upper end of the valid band. *)
Lemma utm_normalization_and_validity_witness :
  exists (zone : Z) (hemisphere : string),
    compute_utm_zone 10 84 = Ok (zone, hemisphere) /\ (1 <= zone <= 60)%Z.
Proof.
  assert (H1 : -180 <= 10) by (apply Qle_bool_iff; vm_compute; reflexivity).
  assert (H2 : -90 <= 84) by (apply Qle_bool_iff; vm_compute; reflexivity).
  destruct (utm_normalization_and_validity 10 84 H1 H2) as (_ & _ & H & _).
  destruct H as (zone & hemisphere & Hz & Hr & _).
  - split; apply Qle_bool_iff; vm_compute; reflexivity.
  - exists zone, hemisphere. split; assumption.
Defined.

(** C2 as stated fails: latitude 84 is given a zone; longitude 180 is reduced
    to -180 and latitude 90 to -90. *)
Lemma utm_stated_behaviour_fails :
  ~ stated_utm_behaviour 0 84 /\
  ~ stated_utm_behaviour 180 0 /\
  ~ stated_utm_behaviour 0 90.
Proof.
  repeat split.
  - intros (_ & _ & _ & H).
    assert (Hout : ~ (-80 <= normalize_lat 84 < 84)).
    { intros [_ Hlt]. apply Qlt_bool_iff in Hlt. vm_compute in Hlt. discriminate. }
    specialize (H Hout). vm_compute in H. discriminate.
  - intros ([Hlt _] & _). apply Qlt_bool_iff in Hlt. vm_compute in Hlt. discriminate.
  - intros (_ & [Hlt _] & _). apply Qlt_bool_iff in Hlt. vm_compute in Hlt. discriminate.
Qed.

End UTM.

(** ** [gdal_bounding_box] *)

Section Extrema.
Local Open Scope Q_scope.

Lemma foldl_min_spec (xs : list Q) (m : Q) :
  let r := foldl (fun m y => if Qlt_bool y m then y else m) m xs in
  (r = m \/ r ∈ xs) /\ r <= m /\ (forall x, x ∈ xs -> r <= x).
Proof.
  revert m. induction xs as [| y xs IH]; intros m; simpl.
  - split; [left; reflexivity |]. split; [lra |]. intros x Hx. inversion Hx.
  - destruct (Qlt_bool y m) eqn:E.
    + apply Qlt_bool_iff in E.
      destruct (IH y) as (Hin & Hle & Hall).
      split; [right; destruct Hin as [-> | Hin]; [left | right; exact Hin] |].
      split; [lra |].
      intros x Hx. apply elem_of_cons in Hx as [-> | Hx]; [exact Hle | auto].
    + apply Qlt_bool_false in E.
      destruct (IH m) as (Hin & Hle & Hall).
      split; [destruct Hin as [-> | Hin]; [left; reflexivity | right; right; exact Hin] |].
      split; [exact Hle |].
      intros x Hx. apply elem_of_cons in Hx as [-> | Hx]; [lra | auto].
Qed.

Lemma foldl_max_spec (xs : list Q) (m : Q) :
  let r := foldl (fun m y => if Qlt_bool m y then y else m) m xs in
  (r = m \/ r ∈ xs) /\ m <= r /\ (forall x, x ∈ xs -> x <= r).
Proof.
  revert m. induction xs as [| y xs IH]; intros m; simpl.
  - split; [left; reflexivity |]. split; [lra |]. intros x Hx. inversion Hx.
  - destruct (Qlt_bool m y) eqn:E.
    + apply Qlt_bool_iff in E.
      destruct (IH y) as (Hin & Hle & Hall).
      split; [right; destruct Hin as [-> | Hin]; [left | right; exact Hin] |].
      split; [lra |].
      intros x Hx. apply elem_of_cons in Hx as [-> | Hx]; [exact Hle | auto].
    + apply Qlt_bool_false in E.
      destruct (IH m) as (Hin & Hle & Hall).
      split; [destruct Hin as [-> | Hin]; [left; reflexivity | right; right; exact Hin] |].
      split; [exact Hle |].
      intros x Hx. apply elem_of_cons in Hx as [-> | Hx]; [lra | auto].
Qed.

(** [numpy.amin] of a non-empty array is one of its entries and a lower
    bound of all of them. *)
Lemma amin_spec (a : list Q) :
  a <> [] -> amin a ∈ a /\ (forall x, x ∈ a -> amin a <= x).
Proof.
  destruct a as [| x xs]; [congruence | intros _]. simpl.
  destruct (foldl_min_spec xs x) as (Hin & Hle & Hall).
  split.
  - destruct Hin as [-> | Hin]; [left | right; exact Hin].
  - intros y Hy. apply elem_of_cons in Hy as [-> | Hy]; [exact Hle | auto].
Qed.

Lemma amax_spec (a : list Q) :
  a <> [] -> amax a ∈ a /\ (forall x, x ∈ a -> x <= amax a).
Proof.
  destruct a as [| x xs]; [congruence | intros _]. simpl.
  destruct (foldl_max_spec xs x) as (Hin & Hle & Hall).
  split.
  - destruct Hin as [-> | Hin]; [left | right; exact Hin].
  - intros y Hy. apply elem_of_cons in Hy as [-> | Hy]; [exact Hle | auto].
Qed.

End Extrema.

Section BoundingBoxFacts.
Local Open Scope Q_scope.
Variable GCP : Type.
Variable GCPsToGeoTransform : list GCP -> option GeoTransform.
Variable Proj : Type.
Variable proj_of_wkt : string -> Proj.
Variable pyproj_transform : Proj -> Proj -> Q -> Q -> Q * Q.


Lemma gdal_bounding_box_unfold (raster : Raster GCP) (outProj : option Proj)
    (projection : string) (transform : GeoTransform) :
  georeference GCPsToGeoTransform raster = Some (projection, transform) ->
  let pts := corners proj_of_wkt pyproj_transform raster projection transform outProj in
  gdal_bounding_box GCPsToGeoTransform proj_of_wkt pyproj_transform raster outProj =
  Some [amin pts.*1; amin pts.*2; amax pts.*1; amax pts.*2].
Proof.
  intros Hgeo. unfold gdal_bounding_box. rewrite Hgeo.
  unfold corners, corner_arrays, affine.
  destruct outProj as [outProj |]; simpl.
  - destruct (pyproj_transform _ _ _ _) as [x0 y0] eqn:E0.
    repeat match goal with
    | |- context [pyproj_transform ?a ?b ?x ?y] =>
        let E := fresh "E" in
        destruct (pyproj_transform a b x y) eqn:E
    end.
    simpl. reflexivity.
  - reflexivity.
Qed.

(** C3.  For a raster with a geotransform, stored or derived from the
    ground-control points, [gdal_bounding_box] returns
    [[minX, minY, maxX, maxY]], the envelope of the four image corners at
    pixels {0, width, width, 0} and lines {0, 0, height, height}, reprojected
    when a target is given: every corner lies within the bounds, and each
    bound is attained by a corner.  For origin (0,0), pixel size (1,-1), size
    10 by 10 and no reprojection the result is [[0, -10, 10, 0]]. *)
Theorem bounding_box_is_envelope_of_corners :
  (forall (raster : Raster GCP) (outProj : option Proj) (projection : string)
          (transform : GeoTransform),
     georeference GCPsToGeoTransform raster = Some (projection, transform) ->
     let pts := corners proj_of_wkt pyproj_transform raster projection transform outProj in
     exists minX minY maxX maxY : Q,
       gdal_bounding_box GCPsToGeoTransform proj_of_wkt pyproj_transform raster outProj =
       Some [minX; minY; maxX; maxY] /\
       (forall x y, (x, y) ∈ pts -> minX <= x <= maxX /\ minY <= y <= maxY) /\
       minX ∈ pts.*1 /\ maxX ∈ pts.*1 /\ minY ∈ pts.*2 /\ maxY ∈ pts.*2) /\
  (forall (raster : Raster GCP) (projection : string),
     georeference GCPsToGeoTransform raster =
     Some (projection, {| t0 := 0; t1 := 1; t2 := 0; t3 := 0; t4 := 0; t5 := -1 |}) ->
     RasterXSize raster = 10%Z -> RasterYSize raster = 10%Z ->
     gdal_bounding_box GCPsToGeoTransform proj_of_wkt pyproj_transform raster None =
     Some [0; -10; 10; 0]).
Proof.
  split.
  - intros raster outProj projection transform Hgeo pts.
    exists (amin pts.*1), (amin pts.*2), (amax pts.*1), (amax pts.*2).
    split; [apply gdal_bounding_box_unfold, Hgeo |].
    assert (Hx : pts.*1 <> []) by (unfold pts, corners; simpl; discriminate).
    assert (Hy : pts.*2 <> []) by (unfold pts, corners; simpl; discriminate).
    destruct (amin_spec _ Hx) as [Hminx Hlox], (amax_spec _ Hx) as [Hmaxx Hhix].
    destruct (amin_spec _ Hy) as [Hminy Hloy], (amax_spec _ Hy) as [Hmaxy Hhiy].
    split; [| tauto].
    intros x y Hin.
    pose proof (list_elem_of_fmap_2 fst _ _ Hin) as Hinx.
    pose proof (list_elem_of_fmap_2 snd _ _ Hin) as Hiny.
    repeat split; auto.
  - intros raster projection Hgeo Hw Hh.
    rewrite (gdal_bounding_box_unfold raster None _ _ Hgeo).
    unfold corners. rewrite Hw, Hh. reflexivity.
Qed.

(** C4.  A raster without projection whose ground-control points give no
    geotransform has no bounding box: the result is [None]. *)
Theorem bounding_box_without_georeference (raster : Raster GCP)
    (outProj : option Proj) :
  GetProjection raster = EmptyString ->
  GCPsToGeoTransform (GetGCPs raster) = None ->
  gdal_bounding_box GCPsToGeoTransform proj_of_wkt pyproj_transform raster outProj = None.
Proof.
  intros Hproj Hgcp. unfold gdal_bounding_box, georeference.
  rewrite Hproj, Hgcp. reflexivity.
Qed.

(** Conversely, [None] is returned in that case only. *)
Lemma bounding_box_none_only_without_georeference (raster : Raster GCP)
    (outProj : option Proj) :
  gdal_bounding_box GCPsToGeoTransform proj_of_wkt pyproj_transform raster outProj = None ->
  GetProjection raster = EmptyString /\
  GCPsToGeoTransform (GetGCPs raster) = None.
Proof.
  unfold gdal_bounding_box, georeference.
  destruct (String.eqb_spec (GetProjection raster) "") as [E | E]; simpl.
  - destruct (GCPsToGeoTransform (GetGCPs raster)) eqn:Hg; [| auto].
    destruct (corner_arrays raster g), outProj; try destruct (reproject _ _ _ _ _);
      discriminate.
  - destruct (corner_arrays raster (GetGeoTransform raster)), outProj;
      try destruct (reproject _ _ _ _ _); discriminate.
Qed.

End BoundingBoxFacts.

(** A raster of 10 by 10 pixels with a projection, origin (0,0) and pixel
    size (1,-1), and one without any georeference; no ground-control points,
    and the identity as reprojection. *)
Lemma bounding_box_is_envelope_of_corners_witness :
  gdal_bounding_box (fun _ : list unit => None) (fun _ => tt)
    (fun (_ _ : unit) x y => (x, y)) example_raster None =
  Some [0; -10; 10; 0]%Q.
Proof.
  apply (proj2 (bounding_box_is_envelope_of_corners unit (fun _ => None) unit
                  (fun _ => tt) (fun _ _ x y => (x, y)))
               example_raster "PROJCS");
    reflexivity.
Defined.

Lemma bounding_box_without_georeference_witness :
  gdal_bounding_box (fun _ : list unit => None) (fun _ => tt)
    (fun (_ _ : unit) x y => (x, y)) example_raster_bare None = None.
Proof.
  apply bounding_box_without_georeference; reflexivity.
Defined.

(** ** Strings *)

Lemma string_app_nil_l (s : string) : "" +:+ s = s.
Proof. reflexivity. Qed.

Lemma string_app_cons (c : ascii) (a b : string) :
  String c a +:+ b = String c (a +:+ b).
Proof. reflexivity. Qed.

Lemma string_length_app (a b : string) :
  String.length (a +:+ b) = (String.length a + String.length b)%nat.
Proof. induction a as [| c a IH]; simpl; [reflexivity | rewrite IH; reflexivity]. Qed.

Lemma substring_app_prefix (a b : string) :
  String.substring 0 (String.length a) (a +:+ b) = a.
Proof.
  induction a as [| c a IH]; simpl.
  - destruct b; reflexivity.
  - rewrite IH. reflexivity.
Qed.

Lemma consumed_app (a b : string) : consumed (a +:+ b) b = a.
Proof.
  unfold consumed. rewrite string_length_app.
  replace (String.length a + String.length b - String.length b)%nat
    with (String.length a) by lia.
  apply substring_app_prefix.
Qed.

Lemma prefix_app (a b : string) : String.prefix a (a +:+ b) = true.
Proof.
  induction a as [| c a IH]; simpl; [destruct b; reflexivity |].
  rewrite IH. destruct (ascii_dec c c); [reflexivity | congruence].
Qed.

Lemma str_contains_prefix (a b : string) :
  String.prefix a b = true -> str_contains a b = true.
Proof. intros H. destruct b; cbn [str_contains]; rewrite H; reflexivity. Qed.

Lemma str_contains_tail (a : string) (c : ascii) (b : string) :
  str_contains a b = true -> str_contains a (String c b) = true.
Proof. intros H. cbn [str_contains]. rewrite H. apply orb_true_r. Qed.

(** [a in p + a + b]. *)
Lemma str_contains_app (p a b : string) : str_contains a (p +:+ a +:+ b) = true.
Proof.
  induction p as [| c p IH]; rewrite ?string_app_nil_l, ?string_app_cons.
  - apply str_contains_prefix, prefix_app.
  - apply str_contains_tail, IH.
Qed.

(** A text shorter than [a] does not contain [a]. *)
Lemma str_contains_shorter (a b : string) :
  (String.length b < String.length a)%nat -> str_contains a b = false.
Proof.
  assert (Hp : forall a b, (String.length b < String.length a)%nat ->
                           String.prefix a b = false).
  { clear. induction a as [| c a IH]; intros [| c' b]; simpl; intros H;
      try lia; try reflexivity.
    destruct (ascii_dec c c'); [apply IH; lia | reflexivity]. }
  induction b as [| c b IH]; intros H; cbn [str_contains].
  - rewrite Hp by exact H. reflexivity.
  - rewrite Hp by exact H. simpl. apply IH. simpl in H. lia.
Qed.


Lemma string_app_nil_r (s : string) : s +:+ "" = s.
Proof. induction s as [| c s IH]; [reflexivity |]. rewrite string_app_cons, IH. reflexivity. Qed.

Lemma string_app_assoc (a b c : string) : (a +:+ b) +:+ c = a +:+ (b +:+ c).
Proof.
  induction a as [| x a IH]; [reflexivity |].
  rewrite !string_app_cons, IH. reflexivity.
Qed.

Lemma all_chars_app (p : ascii -> bool) (a b : string) :
  all_chars p (a +:+ b) = all_chars p a && all_chars p b.
Proof.
  induction a as [| c a IH]; [reflexivity |].
  rewrite string_app_cons. cbn [all_chars]. rewrite IH, andb_assoc. reflexivity.
Qed.

Lemma all_chars_impl (p q : ascii -> bool) (s : string) :
  (forall c, p c = true -> q c = true) ->
  all_chars p s = true -> all_chars q s = true.
Proof.
  intros Hpq. induction s as [| c s IH]; [reflexivity |].
  cbn [all_chars]. rewrite !andb_true_iff. intros [Hc Hs]. auto.
Qed.

(** ** The matcher

    Every result of the backtracking matcher comes from a text of the pattern
    at the start of the input, the continuation being run on the rest. *)

Section MatcherSound.
Context {A : Type}.

Lemma match_star_sound (p : ascii -> bool) (s : string)
    (k : string -> option A) (a : A) :
  match_star p s k = Some a ->
  exists t s' : string, s = t +:+ s' /\ all_chars p t = true /\ k s' = Some a.
Proof.
  induction s as [| c s IH]; cbn [match_star].
  - intros H. exists EmptyString, EmptyString. auto.
  - destruct (p c) eqn:Hc.
    + destruct (match_star p s k) as [a' |] eqn:E.
      * intros [= ->]. destruct (IH eq_refl) as (t & s' & -> & Ht & Hk).
        exists (String c t), s'. rewrite string_app_cons. cbn [all_chars].
        rewrite Hc, Ht. auto.
      * intros H. exists EmptyString, (String c s). auto.
    + intros H. exists EmptyString, (String c s). auto.
Qed.

Lemma match_repeat_sound (n : nat) (p : ascii -> bool) (s : string)
    (k : string -> option A) (a : A) :
  match_repeat n p s k = Some a ->
  exists t s' : string,
    s = t +:+ s' /\ String.length t = n /\ all_chars p t = true /\ k s' = Some a.
Proof.
  revert s. induction n as [| n IH]; intros s; cbn [match_repeat].
  - intros H. exists EmptyString, s. auto.
  - destruct s as [| c s]; [discriminate |].
    destruct (p c) eqn:Hc; [| discriminate].
    intros H. destruct (IH s H) as (t & s' & -> & Hlen & Ht & Hk).
    exists (String c t), s'. rewrite string_app_cons. cbn [all_chars String.length].
    rewrite Hc, Ht, Hlen. auto.
Qed.

Lemma match_re_sound (r : regex) (s : string) (g : gmap nat string)
    (k : string -> gmap nat string -> option A) (a : A) :
  match_re r s g k = Some a ->
  exists (t s' : string) (g' : gmap nat string),
    s = t +:+ s' /\ matches r t /\ k s' g' = Some a.
Proof.
  revert s g k. induction r as
    [p | r1 IH1 r2 IH2 | r1 IH1 r2 IH2 | r IH | p | p | n p | i r IH |];
    intros s g k; cbn [match_re].
  - destruct s as [| c s]; [discriminate |].
    destruct (p c) eqn:Hc; [| discriminate].
    intros H. exists (String c EmptyString), s, g.
    split; [reflexivity |]. split; [constructor; exact Hc | exact H].
  - intros H. destruct (IH1 _ _ _ H) as (t1 & s1 & g1 & -> & Hm1 & H1).
    destruct (IH2 _ _ _ H1) as (t2 & s2 & g2 & -> & Hm2 & H2).
    exists (t1 +:+ t2), s2, g2. rewrite string_app_assoc.
    split; [reflexivity |]. split; [constructor; assumption | exact H2].
  - destruct (match_re r1 s g k) as [a' |] eqn:E.
    + intros [= ->]. destruct (IH1 _ _ _ E) as (t & s' & g' & -> & Hm & Hk).
      exists t, s', g'. split; [reflexivity |].
      split; [apply matches_Alt_l, Hm | exact Hk].
    + intros H. destruct (IH2 _ _ _ H) as (t & s' & g' & -> & Hm & Hk).
      exists t, s', g'. split; [reflexivity |].
      split; [apply matches_Alt_r, Hm | exact Hk].
  - destruct (match_re r s g k) as [a' |] eqn:E.
    + intros [= ->]. destruct (IH _ _ _ E) as (t & s' & g' & -> & Hm & Hk).
      exists t, s', g'. split; [reflexivity |].
      split; [apply matches_Opt_some, Hm | exact Hk].
    + intros H. exists EmptyString, s, g.
      split; [reflexivity |]. split; [apply matches_Opt_none | exact H].
  - intros H. destruct (match_star_sound _ _ _ _ H) as (t & s' & -> & Ht & Hk).
    exists t, s', g. split; [reflexivity |].
    split; [apply matches_Star, Ht | exact Hk].
  - destruct s as [| c s]; [discriminate |].
    destruct (p c) eqn:Hc; [| discriminate].
    intros H. destruct (match_star_sound _ _ _ _ H) as (t & s' & -> & Ht & Hk).
    exists (String c t), s', g. rewrite string_app_cons.
    split; [reflexivity |].
    split; [apply matches_Plus; [discriminate | cbn [all_chars]; rewrite Hc, Ht; reflexivity]
           | exact Hk].
  - intros H. destruct (match_repeat_sound _ _ _ _ _ H) as (t & s' & -> & Hlen & Ht & Hk).
    exists t, s', g. split; [reflexivity |].
    split; [apply matches_Repeat; assumption | exact Hk].
  - intros H. destruct (IH _ _ _ H) as (t & s' & g' & -> & Hm & Hk).
    exists t, s', (<[i := consumed (t +:+ s') s']> g').
    split; [reflexivity |]. split; [apply matches_Group, Hm | exact Hk].
  - intros H. exists EmptyString, s, g.
    split; [reflexivity |]. split; [apply matches_Eps | exact H].
Qed.

End MatcherSound.

(** ** Float literals

    The text captured by the float pattern is one that [float] converts. *)

Lemma rev_app_involutive (s acc acc' : string) :
  String.rev_app (String.rev_app s acc) acc' = String.rev_app acc (s +:+ acc').
Proof.
  revert acc acc'. induction s as [| c s IH]; intros acc acc'; [reflexivity |].
  cbn [String.rev_app]. rewrite IH. reflexivity.
Qed.

Lemma rev_involutive (s : string) : String.rev (String.rev s) = s.
Proof.
  unfold String.rev. rewrite rev_app_involutive. cbn [String.rev_app].
  apply string_app_nil_r.
Qed.

Lemma all_chars_rev_app (p : ascii -> bool) (s acc : string) :
  all_chars p (String.rev_app s acc) = all_chars p s && all_chars p acc.
Proof.
  revert acc. induction s as [| c s IH]; intros acc; [reflexivity |].
  cbn [String.rev_app all_chars]. rewrite IH. cbn [all_chars].
  destruct (p c), (all_chars p s), (all_chars p acc); reflexivity.
Qed.

Lemma lstrip_no_space (s : string) :
  all_chars (fun c => negb (is_space c)) s = true -> lstrip s = s.
Proof.
  destruct s as [| c s]; [reflexivity |]. cbn [all_chars lstrip].
  rewrite andb_true_iff, negb_true_iff. intros [-> _]. reflexivity.
Qed.

Lemma strip_no_space (s : string) :
  all_chars (fun c => negb (is_space c)) s = true -> strip s = s.
Proof.
  intros H. unfold strip. rewrite (lstrip_no_space s H).
  rewrite lstrip_no_space.
  - apply rev_involutive.
  - unfold String.rev. rewrite all_chars_rev_app, H. reflexivity.
Qed.

Lemma float_char_no_space (c : ascii) :
  is_float_char c = true -> negb (is_space c) = true.
Proof.
  destruct c as [[] [] [] [] [] [] [] []]; vm_compute; congruence.
Qed.

Lemma digit_is_float_char (c : ascii) : is_digit c = true -> is_float_char c = true.
Proof. unfold is_float_char. intros ->. reflexivity. Qed.

Lemma sign_is_float_char (c : ascii) : one_of "-+" c = true -> is_float_char c = true.
Proof.
  destruct c as [[] [] [] [] [] [] [] []]; vm_compute; congruence.
Qed.

Lemma exp_is_float_char (c : ascii) : one_of "eE" c = true -> is_float_char c = true.
Proof.
  destruct c as [[] [] [] [] [] [] [] []]; vm_compute; congruence.
Qed.

Lemma read_digits_app (ds rest : string) (acc : Z) (count : nat) :
  all_chars is_digit ds = true -> no_digit_ahead rest ->
  exists acc' : Z,
    read_digits (ds +:+ rest) acc count = (acc', (count + String.length ds)%nat, rest).
Proof.
  intros Hds Hrest. revert acc count.
  induction ds as [| c ds IH]; intros acc count.
  - rewrite string_app_nil_l. exists acc. cbn [String.length]. rewrite Nat.add_0_r.
    destruct rest as [| c rest]; [reflexivity |]. cbn [read_digits].
    unfold digit_of. simpl in Hrest. rewrite Hrest. reflexivity.
  - cbn [all_chars] in Hds. apply andb_true_iff in Hds as [Hc Hds].
    rewrite string_app_cons. cbn [read_digits]. unfold digit_of at 1. rewrite Hc.
    destruct (IH Hds (10 * acc + (Z.of_N (N_of_ascii c) - 48))%Z (S count)) as [acc' E].
    exists acc'. rewrite E. cbn [String.length]. f_equal. f_equal. lia.
Qed.

(** The sign that [read_sign] reads: a sign character, or nothing when the
    text does not start with one. *)
Lemma read_sign_char (c : ascii) (rest : string) :
  one_of "-+" c = true -> exists sign : Z, read_sign (String c rest) = (sign, rest).
Proof.
  destruct c as [[] [] [] [] [] [] [] []]; vm_compute; intros H;
    try discriminate H; eexists; reflexivity.
Qed.

Lemma read_sign_none (s : string) : no_sign_ahead s -> read_sign s = (1%Z, s).
Proof.
  destruct s as [| c s]; [reflexivity |]. simpl.
  destruct c as [[] [] [] [] [] [] [] []]; vm_compute; intros H;
    try discriminate H; reflexivity.
Qed.

Ltac invm H := inversion H; subst; clear H.

Lemma matches_lit_dot (t : string) :
  matches (Cat (Chr (Ascii.eqb ".")) Eps) t -> t = ".".
Proof.
  intros H. invm H.
  match goal with H : matches (Chr _) _ |- _ => invm H end.
  match goal with H : matches Eps _ |- _ => invm H end.
  match goal with H : Ascii.eqb _ _ = true |- _ => apply Ascii.eqb_eq in H; subst end.
  reflexivity.
Qed.

Lemma matches_sign (t : string) :
  matches (Opt (Chr (one_of "-+"))) t -> sign_text t.
Proof.
  intros H. invm H; [| left; reflexivity].
  match goal with H : matches (Chr _) _ |- _ => invm H end.
  right. eauto.
Qed.

Lemma matches_mantissa (t : string) :
  matches (Group 2 (Alt (Cat (Plus is_digit)
                            (Opt (Group 3 (Cat (lit ".") (Star is_digit)))))
                       (Cat (lit ".") (Plus is_digit)))) t ->
  exists ds frac : string,
    t = ds +:+ frac /\ all_chars is_digit ds = true /\ fraction_text frac /\
    (ds <> EmptyString \/
     exists ds2, frac = String "." ds2 /\ ds2 <> EmptyString).
Proof.
  intros H. invm H.
  match goal with H : matches (Alt _ _) _ |- _ => invm H end;
    match goal with H : matches (Cat _ _) _ |- _ => invm H end.
  - match goal with H : matches (Plus _) _ |- _ => invm H end.
    match goal with H : matches (Opt _) _ |- _ => invm H end.
    + match goal with H : matches (Group _ _) _ |- _ => invm H end.
      match goal with H : matches (Cat _ _) _ |- _ => invm H end.
      match goal with H : matches (Cat (Chr _) Eps) _ |- _ =>
        apply matches_lit_dot in H; subst end.
      match goal with H : matches (Star _) _ |- _ => invm H end.
      eexists _, _. split; [reflexivity |]. split; [assumption |].
      split; [right; eexists; split; [reflexivity | assumption] | left; assumption].
    + eexists _, _. split; [reflexivity |]. split; [assumption |].
      split; [left; reflexivity | left; assumption].
  - match goal with H : matches (Cat (Chr _) Eps) _ |- _ =>
        apply matches_lit_dot in H; subst end.
    match goal with H : matches (Plus _) _ |- _ => invm H end.
    exists EmptyString. eexists. split; [reflexivity |]. split; [reflexivity |].
    split; right; eexists; split; try reflexivity; assumption.
Qed.

Lemma matches_exponent (t : string) :
  matches (Opt (Group 4 (seq [Chr (one_of "eE"); Opt (Chr (one_of "-+"));
                              Plus is_digit]))) t ->
  exponent_text t.
Proof.
  intros H. invm H; [| left; reflexivity].
  match goal with H : matches (Group _ _) _ |- _ => invm H end.
  unfold seq in *. cbn [foldr] in *.
  repeat match goal with H : matches (Cat _ _) _ |- _ => invm H end.
  match goal with H : matches (Chr _) _ |- _ => invm H end.
  match goal with H : matches (Opt _) _ |- _ => apply matches_sign in H end.
  match goal with H : matches (Plus _) _ |- _ => invm H end.
  match goal with H : matches Eps _ |- _ => invm H end.
  right. eexists _, _, _. rewrite string_app_nil_r, string_app_cons, string_app_nil_l.
  repeat split; try reflexivity; assumption.
Qed.

(** The shape of the texts of the float pattern. *)
Lemma matches_float_pattern (t : string) :
  matches float_pattern t ->
  exists sg ds frac ex : string,
    t = sg +:+ (ds +:+ (frac +:+ ex)) /\
    sign_text sg /\ all_chars is_digit ds = true /\ fraction_text frac /\
    (ds <> EmptyString \/ exists ds2, frac = String "." ds2 /\ ds2 <> EmptyString) /\
    exponent_text ex.
Proof.
  unfold float_pattern, seq. cbn [foldr]. intros H.
  invm H. match goal with H : matches (Cat _ _) _ |- _ => invm H end.
  match goal with H : matches (Cat _ _) _ |- _ => invm H end.
  match goal with H : matches Eps _ |- _ => invm H end.
  match goal with H : matches (Opt (Chr _)) _ |- _ => apply matches_sign in H end.
  match goal with H : matches (Group 2 _) _ |- _ =>
    apply matches_mantissa in H; destruct H as (ds & frac & -> & Hds & Hfrac & Hne) end.
  match goal with H : matches (Opt (Group 4 _)) _ |- _ => apply matches_exponent in H end.
  eexists _, ds, frac, _. rewrite string_app_nil_r, string_app_assoc.
  repeat split; try reflexivity; assumption.
Qed.

Lemma sign_text_chars (sg : string) :
  sign_text sg -> all_chars is_float_char sg = true.
Proof.
  intros [-> | (c & -> & Hc)]; [reflexivity |].
  cbn [all_chars]. rewrite (sign_is_float_char c Hc). reflexivity.
Qed.

Lemma digits_chars (ds : string) :
  all_chars is_digit ds = true -> all_chars is_float_char ds = true.
Proof. apply all_chars_impl, digit_is_float_char. Qed.

Lemma fraction_text_chars (frac : string) :
  fraction_text frac -> all_chars is_float_char frac = true.
Proof.
  intros [-> | (ds & -> & Hds)]; [reflexivity |].
  cbn [all_chars]. rewrite (digits_chars ds Hds). reflexivity.
Qed.

Lemma exponent_text_chars (ex : string) :
  exponent_text ex -> all_chars is_float_char ex = true.
Proof.
  intros [-> | (e & sg & ds & -> & He & Hsg & Hds & _)]; [reflexivity |].
  cbn [all_chars]. rewrite all_chars_app.
  rewrite (exp_is_float_char e He), (sign_text_chars sg Hsg), (digits_chars ds Hds).
  reflexivity.
Qed.

Lemma exp_char_no_digit (e : ascii) : one_of "eE" e = true -> is_digit e = false.
Proof. destruct e as [[] [] [] [] [] [] [] []]; vm_compute; congruence. Qed.

Lemma exp_char_no_sign (e : ascii) : one_of "eE" e = true -> one_of "-+" e = false.
Proof. destruct e as [[] [] [] [] [] [] [] []]; vm_compute; congruence. Qed.

Lemma digit_no_sign (c : ascii) : is_digit c = true -> one_of "-+" c = false.
Proof. destruct c as [[] [] [] [] [] [] [] []]; vm_compute; congruence. Qed.

Lemma exponent_no_digit_ahead (ex : string) : exponent_text ex -> no_digit_ahead ex.
Proof.
  intros [-> | (e & sg & ds & -> & He & _)]; [exact I |].
  apply exp_char_no_digit, He.
Qed.

Lemma string_length_nonempty (s : string) : s <> EmptyString -> String.length s <> 0%nat.
Proof. destruct s; [congruence | discriminate]. Qed.

(** [read_sign] on a sign text followed by digits or a point. *)
Lemma read_sign_text (sg rest : string) :
  sign_text sg -> no_sign_ahead rest ->
  exists sign : Z, read_sign (sg +:+ rest) = (sign, rest).
Proof.
  intros [-> | (c & -> & Hc)] Hrest.
  - rewrite string_app_nil_l. exists 1%Z. apply read_sign_none, Hrest.
  - rewrite string_app_cons, string_app_nil_l. apply read_sign_char, Hc.
Qed.

(** The exponent, once the mantissa is read. *)
Lemma float_exponent_parses (ex : string) (m : Z) (n : nat) :
  exponent_text ex ->
  exists v : Q,
    match ex with
    | EmptyString => Some (scale10 m (- Z.of_nat n))
    | String c s' =>
        if one_of "eE" c then
          let '(esign, s') := read_sign s' in
          let '(e, n_exp, s') := read_digits s' 0%Z 0%nat in
          if (n_exp =? 0)%nat then None
          else
            match s' with
            | EmptyString => Some (scale10 m (esign * e - Z.of_nat n))
            | _ => None
            end
        else None
    end = Some v.
Proof.
  intros [-> | (e & sg & ds & -> & He & Hsg & Hds & Hne)]; [eexists; reflexivity |].
  rewrite He.
  destruct (read_sign_text sg ds Hsg) as [esign ->].
  { destruct ds as [| c ds]; [exact I |]. cbn [all_chars] in Hds.
    apply andb_true_iff in Hds as [Hc _]. apply digit_no_sign, Hc. }
  destruct (read_digits_app ds EmptyString 0%Z 0%nat Hds I) as [ev E].
  rewrite string_app_nil_r in E. rewrite E. cbn [Nat.add].
  apply string_length_nonempty, Nat.eqb_neq in Hne. rewrite Hne.
  eexists. reflexivity.
Qed.

(** [float] converts every text of the float pattern. *)
Lemma float_pattern_parses (t : string) :
  matches float_pattern t -> exists v : Q, float_of_string t = Some v.
Proof.
  intros H.
  destruct (matches_float_pattern t H)
    as (sg & ds & frac & ex & -> & Hsg & Hds & Hfrac & Hne & Hex).
  unfold float_of_string.
  rewrite strip_no_space.
  2:{ apply (all_chars_impl is_float_char); [apply float_char_no_space |].
      rewrite !all_chars_app, (sign_text_chars sg Hsg), (digits_chars ds Hds),
        (fraction_text_chars frac Hfrac), (exponent_text_chars ex Hex).
      reflexivity. }
  (* the sign *)
  destruct (read_sign_text sg (ds +:+ (frac +:+ ex)) Hsg) as [sign ->].
  { destruct ds as [| c ds].
    - rewrite string_app_nil_l.
      destruct Hne as [Hne | (ds2 & -> & _)]; [congruence |]. reflexivity.
    - cbn [all_chars] in Hds. apply andb_true_iff in Hds as [Hc _].
      apply digit_no_sign, Hc. }
  (* the integer part *)
  destruct (read_digits_app ds (frac +:+ ex) 0%Z 0%nat Hds) as [ip ->].
  { destruct Hfrac as [-> | (ds2 & -> & _)]; [| reflexivity].
    rewrite string_app_nil_l. apply exponent_no_digit_ahead, Hex. }
  cbn [Nat.add].
  (* the fraction *)
  destruct Hfrac as [-> | (ds2 & -> & Hds2)].
  - rewrite string_app_nil_l.
    destruct Hne as [Hne | (ds2 & Habs & _)]; [| discriminate].
    assert (Hnodot :
      match ex with
      | String "." s' => read_digits s' ip 0%nat
      | _ => (ip, 0%nat, ex)
      end = (ip, 0%nat, ex)).
    { destruct Hex as [-> | (e & sg' & ds' & -> & He & _)]; [reflexivity |].
      destruct e as [[] [] [] [] [] [] [] []]; try reflexivity.
      vm_compute in He. discriminate. }
    rewrite Hnodot. rewrite Nat.add_0_r.
    apply string_length_nonempty, Nat.eqb_neq in Hne. rewrite Hne.
    apply float_exponent_parses, Hex.
  - rewrite string_app_cons.
    destruct (read_digits_app ds2 ex ip 0%nat Hds2 (exponent_no_digit_ahead ex Hex))
      as [m ->].
    cbn [Nat.add].
    assert (Hlen : (String.length ds + String.length ds2 =? 0)%nat = false).
    { apply Nat.eqb_neq.
      destruct Hne as [Hne | (ds2' & [= <-] & Hne)];
        apply string_length_nonempty in Hne; lia. }
    rewrite Hlen. apply float_exponent_parses, Hex.
Qed.

(** A line that matches the pattern of an axis carries a float that [float]
    converts: the first loop of [read_offset] raises nothing. *)
Lemma reFloat_group_parses (axis : ascii) (line : string) (m : gmap nat string) :
  re_match (reFloat axis) line = Some m ->
  exists v : Q, float_group m 1 = Ok v.
Proof.
  unfold re_match, reFloat, seq. cbn [foldr match_re]. intros H.
  apply match_re_sound in H as (t1 & s1 & g1 & _ & _ & H).
  destruct s1 as [| c s1]; [discriminate |].
  destruct (Ascii.eqb axis c); [| discriminate].
  apply match_re_sound in H as (t2 & s2 & g2 & _ & _ & H).
  apply match_re_sound in H as (t & s' & g' & -> & Hm & H).
  injection H as <-.
  destruct (float_pattern_parses t Hm) as [v Hv].
  exists v. unfold float_group.
  rewrite lookup_insert_ne by discriminate. rewrite lookup_insert_eq.
  rewrite consumed_app, Hv. reflexivity.
Qed.

(** ** [read_offset] *)

Section ReadOffset.
Local Open Scope Q_scope.

(** Unfolds [read_offset] on a list of at least three entries and names the
    lines read. *)
Ltac read_offset_start Hlen offset file :=
  destruct offset as [| ?a [| ?b [| ?c ?rest]]]; simpl in Hlen; try lia;
  unfold file_line, read_offset;
  cbn [nth_readline setitem length Nat.ltb Nat.leb mbind result_bind
       list_insert insert scan_offsets];
  destruct (readline file) as [?l1 ?f1];
  repeat match goal with
  | |- context [readline ?f] =>
      is_var f; destruct (readline f) as [?l ?f]
  end.

Lemma read_offset_xyz (file : string) (offset : list Q)
    (mx my mz : gmap nat string) (x y z : Q) :
  (3 <= length offset)%nat ->
  re_match (reFloat "x") (file_line 1 file) = Some mx -> float_group mx 1 = Ok x ->
  re_match (reFloat "y") (file_line 2 file) = Some my -> float_group my 1 = Ok y ->
  re_match (reFloat "z") (file_line 3 file) = Some mz -> float_group mz 1 = Ok z ->
  read_offset file offset = Ok ([x; y; z] ++ drop 3 offset).
Proof.
  intros Hlen. read_offset_start Hlen offset file.
  intros -> -> -> -> -> ->. reflexivity.
Qed.

Lemma read_offset_xy (file : string) (offset : list Q)
    (mx my : gmap nat string) (x y : Q) :
  (3 <= length offset)%nat ->
  re_match (reFloat "x") (file_line 1 file) = Some mx -> float_group mx 1 = Ok x ->
  re_match (reFloat "y") (file_line 2 file) = Some my -> float_group my 1 = Ok y ->
  re_match (reFloat "z") (file_line 3 file) = None ->
  read_offset file offset = Ok ([x; y; 0] ++ drop 3 offset).
Proof.
  intros Hlen. read_offset_start Hlen offset file.
  intros -> -> -> -> ->. reflexivity.
Qed.

Lemma read_offset_x (file : string) (offset : list Q)
    (mx : gmap nat string) (x : Q) :
  (3 <= length offset)%nat ->
  re_match (reFloat "x") (file_line 1 file) = Some mx -> float_group mx 1 = Ok x ->
  re_match (reFloat "y") (file_line 2 file) = None ->
  read_offset file offset = Ok ([x; 0; 0] ++ drop 3 offset).
Proof.
  intros Hlen. read_offset_start Hlen offset file.
  intros -> -> ->. reflexivity.
Qed.

Lemma read_offset_coordinate_system (file : string) (offset : list Q)
    (m : gmap nat string) (x y z : Q) :
  (3 <= length offset)%nat ->
  re_match (reFloat "x") (file_line 1 file) = None ->
  re_match reCS (file_line 8 file) = Some m ->
  float_group m 1 = Ok x -> float_group m 2 = Ok y -> float_group m 3 = Ok z ->
  read_offset file offset = Ok ([x; y; z] ++ drop 3 offset).
Proof.
  intros Hlen. read_offset_start Hlen offset file.
  intros -> -> -> -> ->. reflexivity.
Qed.

Lemma read_offset_neither (file : string) (offset : list Q) :
  (3 <= length offset)%nat ->
  re_match (reFloat "x") (file_line 1 file) = None ->
  re_match reCS (file_line 8 file) = None ->
  read_offset file offset = Ok ([0; 0; 0] ++ drop 3 offset).
Proof.
  intros Hlen. read_offset_start Hlen offset file.
  intros -> ->. reflexivity.
Qed.

(** C5 (as amended).  On a list of at least three entries: a header whose
    first three lines are [#x offset: 747594.676221],
    [#y offset: 4407371.835686] and [#z offset: 225.038274], without a space
    after the hash sign, gives these three values; when the first line does
    not match the x pattern and the eighth line matches the
    [coordinate_system] pattern, the three fields after the zone descriptor
    are returned as (x, y, z), as for the documented line; when neither
    matches, the offsets are (0, 0, 0); a line that fails its axis pattern
    after the first ends the scan and leaves the remaining offsets at 0; a
    line that matches its axis pattern always carries a float that converts. *)
Theorem read_offset_encodings :
  (forall a b c : Q,
     exists x y z : Q,
       read_offset header_offsets [a; b; c] = Ok [x; y; z] /\
       x == 747594.676221 /\ y == 4407371.835686 /\ z == 225.038274) /\
  (forall a b c : Q,
     exists x y z : Q,
       read_offset header_coordinate_system [a; b; c] = Ok [x; y; z] /\
       x == 747594.6762214857 /\ y == 4407371.835685772 /\
       z == 225.03827424185408) /\
  (forall (file : string) (offset : list Q),
     (3 <= length offset)%nat ->
     (forall (mx my mz : gmap nat string) (x y z : Q),
        re_match (reFloat "x") (file_line 1 file) = Some mx -> float_group mx 1 = Ok x ->
        re_match (reFloat "y") (file_line 2 file) = Some my -> float_group my 1 = Ok y ->
        re_match (reFloat "z") (file_line 3 file) = Some mz -> float_group mz 1 = Ok z ->
        read_offset file offset = Ok ([x; y; z] ++ drop 3 offset)) /\
     (forall (mx my : gmap nat string) (x y : Q),
        re_match (reFloat "x") (file_line 1 file) = Some mx -> float_group mx 1 = Ok x ->
        re_match (reFloat "y") (file_line 2 file) = Some my -> float_group my 1 = Ok y ->
        re_match (reFloat "z") (file_line 3 file) = None ->
        read_offset file offset = Ok ([x; y; 0] ++ drop 3 offset)) /\
     (forall (mx : gmap nat string) (x : Q),
        re_match (reFloat "x") (file_line 1 file) = Some mx -> float_group mx 1 = Ok x ->
        re_match (reFloat "y") (file_line 2 file) = None ->
        read_offset file offset = Ok ([x; 0; 0] ++ drop 3 offset)) /\
     (forall (m : gmap nat string) (x y z : Q),
        re_match (reFloat "x") (file_line 1 file) = None ->
        re_match reCS (file_line 8 file) = Some m ->
        float_group m 1 = Ok x -> float_group m 2 = Ok y -> float_group m 3 = Ok z ->
        read_offset file offset = Ok ([x; y; z] ++ drop 3 offset)) /\
     (re_match (reFloat "x") (file_line 1 file) = None ->
      re_match reCS (file_line 8 file) = None ->
      read_offset file offset = Ok ([0; 0; 0] ++ drop 3 offset))) /\
  (forall (axis : ascii) (line : string) (m : gmap nat string),
     re_match (reFloat axis) line = Some m -> exists v : Q, float_group m 1 = Ok v).
Proof.
  split; [| split; [| split; [| apply reFloat_group_parses]]].
  - intros a b c. eexists _, _, _. split; [vm_compute; reflexivity |].
    repeat split; reflexivity.
  - intros a b c. eexists _, _, _. split; [vm_compute; reflexivity |].
    repeat split; reflexivity.
  - intros file offset Hlen. repeat split; intros.
    + eapply read_offset_xyz; eassumption.
    + eapply read_offset_xy; eassumption.
    + eapply read_offset_x; eassumption.
    + eapply read_offset_coordinate_system; eassumption.
    + apply read_offset_neither; assumption.
Qed.

(** A header with the x offset alone, read into a list of four entries. *)
Lemma read_offset_encodings_witness :
  read_offset ("#x offset: 1.5" +:+ nl +:+ "# vertices" +:+ nl) [7; 8; 9; 10] =
  Ok [3 # 2; 0; 0; 10].
Proof.
  destruct read_offset_encodings as (_ & _ & H & _).
  destruct (H ("#x offset: 1.5" +:+ nl +:+ "# vertices" +:+ nl)%string [7; 8; 9; 10])
    as (_ & _ & Hx & _); [simpl; lia |].
  refine (Hx _ (3 # 2) _ _ _); vm_compute; reflexivity.
Defined.

(** C5 as stated fails: with a space after the hash sign no line matches and
    the offsets are left at 0. *)
Lemma read_offset_spaced_header :
  read_offset header_offsets_spaced [0; 0; 0] = Ok [0; 0; 0] /\
  ~ (exists x y z : Q,
       read_offset header_offsets_spaced [0; 0; 0] = Ok [x; y; z] /\
       x == 747594.676221 /\ y == 4407371.835686 /\ z == 225.038274).
Proof.
  split; [vm_compute; reflexivity |].
  intros (x & y & z & H & Hx & _). vm_compute in H. injection H as <- _ _.
  vm_compute in Hx. discriminate.
Qed.

End ReadOffset.

(** ** Dictionaries *)

Section DictFacts.
Context {V : Type}.
Implicit Types (d : list (string * V)) (k : string) (v : V).

Lemma dict_get_None d k : dict_get k d = None <-> k ∉ d.*1.
Proof.
  induction d as [| [k' v'] d IH]; simpl.
  - split; [intros _; apply not_elem_of_nil | reflexivity].
  - rewrite not_elem_of_cons. destruct (decide (k = k')) as [-> | Hne].
    + split; [discriminate | intros [H _]; contradiction].
    + rewrite IH. tauto.
Qed.

Lemma dict_get_Some_elem d k v : dict_get k d = Some v -> (k, v) ∈ d.
Proof.
  induction d as [| [k' v'] d IH]; simpl; [discriminate |].
  destruct (decide (k = k')) as [-> | Hne].
  - intros [= ->]. left.
  - intros H. right. auto.
Qed.

Lemma dict_get_app_fresh d k v : k ∉ d.*1 -> dict_get k (d ++ [(k, v)]) = Some v.
Proof.
  induction d as [| [k' v'] d IH]; simpl; intros Hk.
  - rewrite decide_True by reflexivity. reflexivity.
  - apply not_elem_of_cons in Hk as [Hne Hk].
    rewrite decide_False by exact Hne. auto.
Qed.

Lemma dict_set_fresh d k v : k ∉ d.*1 -> dict_set k v d = d ++ [(k, v)].
Proof.
  induction d as [| [k' v'] d IH]; simpl; intros Hk; [reflexivity |].
  apply not_elem_of_cons in Hk as [Hne Hk].
  rewrite decide_False by exact Hne. f_equal. auto.
Qed.

Lemma dict_set_last d k v v' :
  k ∉ d.*1 -> dict_set k v (d ++ [(k, v')]) = d ++ [(k, v)].
Proof.
  induction d as [| [k' w] d IH]; simpl; intros Hk.
  - rewrite decide_True by reflexivity. reflexivity.
  - apply not_elem_of_cons in Hk as [Hne Hk].
    rewrite decide_False by exact Hne. f_equal. auto.
Qed.

Lemma dict_del_last d k v : k ∉ d.*1 -> dict_del k (d ++ [(k, v)]) = d.
Proof.
  induction d as [| [k' w] d IH]; simpl; intros Hk.
  - rewrite decide_True by reflexivity. reflexivity.
  - apply not_elem_of_cons in Hk as [Hne Hk].
    rewrite decide_False by exact Hne. f_equal. auto.
Qed.

Lemma getitem_elem d k :
  k ∈ d.*1 -> exists v, getitem k d = Ok v /\ (k, v) ∈ d.
Proof.
  intros Hk. unfold getitem. destruct (dict_get k d) as [v |] eqn:E.
  - exists v. split; [reflexivity | apply dict_get_Some_elem, E].
  - apply dict_get_None in E. contradiction.
Qed.

Lemma getitem_missing d k : k ∉ d.*1 -> getitem k d = Raise (KeyError k).
Proof.
  intros Hk. unfold getitem. apply dict_get_None in Hk. rewrite Hk. reflexivity.
Qed.

End DictFacts.

(** ** [classify_fpaths] *)

Section Classify.
Implicit Types (d : list (string * collection)) (files : collection).

(** On a dictionary whose last entry is that of [prefix], the loop of
    [classify_fpaths] raises nothing and rewrites that entry only. *)
Lemma classify_fpaths_last (prefix file_type : string) (fpaths : list string)
    d files :
  prefix ∉ d.*1 ->
  classify_fpaths prefix fpaths (d ++ [(prefix, files)]) file_type =
  Ok (d ++ [(prefix, classify_files prefix fpaths file_type files)]).
Proof.
  intros Hk. revert files.
  induction fpaths as [| fpath fpaths IH]; intros files; simpl; [reflexivity |].
  assert (Hstep :
    (if str_contains prefix fpath then
       if str_contains "-P1BS-" fpath then
         update_item prefix (set_pan <[file_type := fpath]>) (d ++ [(prefix, files)])
       else if str_contains "-M1BS-" fpath then
         update_item prefix (set_msi <[file_type := fpath]>) (d ++ [(prefix, files)])
       else if str_contains "-A1BS-" fpath then
         update_item prefix (set_swir <[file_type := fpath]>) (d ++ [(prefix, files)])
       else Ok (d ++ [(prefix, files)])
     else Ok (d ++ [(prefix, files)])) =
    Ok (d ++ [(prefix, classify_fpath prefix file_type fpath files)])).
  { unfold classify_fpath, update_item, getitem.
    rewrite (dict_get_app_fresh d prefix files Hk). simpl.
    rewrite !(dict_set_last d prefix _ files Hk).
    repeat match goal with |- context [if ?b then _ else _] => destruct b end;
      reflexivity. }
  rewrite Hstep. simpl. apply IH.
Qed.

End Classify.

(** ** Grouping and validation *)

Section Grouping.
Variables ntf_fpaths rpc_fpaths info_fpaths : list string.
Implicit Types (d : list (string * collection)) (prefix : string).

Local Abbreviation record := (classified ntf_fpaths rpc_fpaths info_fpaths).
Local Abbreviation complete := (fun prefix => Is_true (is_complete (record prefix))).
Local Abbreviation incomplete := (fun prefix => ~ Is_true (is_complete (record prefix))).

(** One iteration of the loop over [prefixes], for a prefix that is not yet a
    key: the record is built, then kept, or dropped with a warning. *)
Lemma group_prefix_spec d (incomplete_ids : list string) prefix :
  prefix ∉ d.*1 ->
  group_prefix ntf_fpaths rpc_fpaths info_fpaths (d, incomplete_ids) prefix =
  if is_complete (record prefix)
  then ([], Ok (d ++ [(prefix, record prefix)], incomplete_ids))
  else ([LogWarning (skip_message prefix)], Ok (d, incomplete_ids ++ [prefix])).
Proof.
  intros Hk. unfold group_prefix. cbv zeta.
  rewrite (dict_set_fresh d prefix _ Hk).
  rewrite (classify_fpaths_last _ _ _ d _ Hk). cbn [lift mbind run_bind].
  rewrite (classify_fpaths_last _ _ _ d _ Hk). cbn [lift mbind run_bind].
  rewrite (classify_fpaths_last _ _ _ d _ Hk). cbn [lift mbind run_bind].
  unfold getitem. rewrite (dict_get_app_fresh d prefix _ Hk).
  cbn [lift mbind run_bind].
  fold (record prefix).
  destruct (is_complete (record prefix)); simpl.
  - reflexivity.
  - rewrite (dict_del_last d prefix _ Hk). reflexivity.
Qed.

Lemma group_prefixes_spec (prefixes : list string) d (incomplete_ids : list string) :
  NoDup prefixes ->
  (forall prefix, prefix ∈ prefixes -> prefix ∉ d.*1) ->
  for_each (group_prefix ntf_fpaths rpc_fpaths info_fpaths) prefixes (d, incomplete_ids) =
  (LogWarning ∘ skip_message <$> filter incomplete prefixes,
   Ok (d ++ ((fun prefix => (prefix, record prefix)) <$> filter complete prefixes),
       incomplete_ids ++ filter incomplete prefixes)).
Proof.
  intros Hnd. revert d incomplete_ids.
  induction Hnd as [| prefix prefixes Hnotin Hnd IH]; intros d incomplete_ids Hfresh.
  - simpl. rewrite !app_nil_r. reflexivity.
  - cbn [for_each]. rewrite group_prefix_spec by (apply Hfresh; left).
    destruct (is_complete (record prefix)) eqn:E.
    + rewrite (filter_cons_True complete) by (rewrite E; exact I).
      rewrite (filter_cons_False incomplete) by (rewrite E; simpl; tauto).
      cbn [mbind run_bind]. rewrite IH.
      * simpl. rewrite <- app_assoc. reflexivity.
      * intros p Hp. rewrite fmap_app, elem_of_app. simpl.
        intros [Hin | Hin%list_elem_of_singleton].
        -- eapply Hfresh; [right; exact Hp | exact Hin].
        -- subst p. contradiction.
    + rewrite (filter_cons_False complete) by (rewrite E; simpl; tauto).
      rewrite (filter_cons_True incomplete) by (rewrite E; simpl; tauto).
      cbn [mbind run_bind]. rewrite IH.
      * simpl. rewrite <- app_assoc. reflexivity.
      * intros p Hp. apply Hfresh. right. exact Hp.
Qed.

End Grouping.

(** The outcome of [find_collections]: the warnings, the dictionary of the
    complete collections and the list of the incomplete ones. *)
Lemma find_collections_spec (imagery_walk rpc_walk : list (string * list string)) :
  let ntf_fpaths := walk_with_ext imagery_walk ".ntf" in
  let info_fpaths := walk_with_ext imagery_walk ".tar" in
  let rpc_fpaths := walk_with_ext rpc_walk ".rpc" in
  let prefixes := elements (collect_prefixes ntf_fpaths ∅) in
  let record := classified ntf_fpaths rpc_fpaths info_fpaths in
  find_collections imagery_walk rpc_walk =
  (LogWarning ∘ skip_message
     <$> filter (fun prefix => ~ Is_true (is_complete (record prefix))) prefixes,
   Ok ((fun prefix => (prefix, record prefix))
         <$> filter (fun prefix => Is_true (is_complete (record prefix))) prefixes,
       filter (fun prefix => ~ Is_true (is_complete (record prefix))) prefixes)).
Proof.
  intros. unfold find_collections.
  rewrite group_prefixes_spec.
  - reflexivity.
  - apply NoDup_elements.
  - intros p _. apply not_elem_of_nil.
Qed.

(** ** Completeness and classification *)

Lemma ensure_complete_modality_iff (modality_dict : gmap string string)
    (require_rpc : bool) :
  ensure_complete_modality modality_dict require_rpc = true <->
  is_Some (modality_dict !! "image") /\ is_Some (modality_dict !! "info") /\
  (require_rpc = true -> is_Some (modality_dict !! "rpc")).
Proof.
  unfold ensure_complete_modality.
  destruct require_rpc; simpl; rewrite ?andb_true_iff, ?bool_decide_eq_true;
    intuition discriminate.
Qed.

Lemma is_complete_iff (files : collection) :
  is_complete files = true <->
  (is_Some (pan files !! "image") /\ is_Some (pan files !! "info") /\
   is_Some (pan files !! "rpc")) /\
  (is_Some (msi files !! "image") /\ is_Some (msi files !! "info") /\
   is_Some (msi files !! "rpc")).
Proof.
  unfold is_complete. rewrite andb_true_iff, !ensure_complete_modality_iff.
  intuition.
Qed.

Lemma is_complete_swir (files : collection)
    (f : gmap string string -> gmap string string) :
  is_complete (set_swir f files) = is_complete files.
Proof. reflexivity. Qed.

Section ClassifyFacts.
Variable prefix : string.
Implicit Types (m : modality) (files : collection) (fpaths : list string).

Lemma classify_fpath_files m (file_type fpath : string) files :
  modality_files m (classify_fpath prefix file_type fpath files) =
  if belongs_to m prefix fpath
  then <[file_type := fpath]> (modality_files m files)
  else modality_files m files.
Proof.
  unfold classify_fpath, belongs_to, is_pan_of, is_msi_of, is_swir_of.
  destruct (str_contains prefix fpath), (str_contains "-P1BS-" fpath),
    (str_contains "-M1BS-" fpath), (str_contains "-A1BS-" fpath), m;
    reflexivity.
Qed.

Lemma classify_files_snoc fpaths (fpath file_type : string) files :
  classify_files prefix (fpaths ++ [fpath]) file_type files =
  classify_fpath prefix file_type fpath (classify_files prefix fpaths file_type files).
Proof. unfold classify_files. rewrite foldl_app. reflexivity. Qed.

(** After the loop, the entry [file_type] of a modality holds the last of the
    paths that belong to it, and the other entries are as before. *)
Lemma classify_files_lookup m fpaths (file_type key : string) files :
  modality_files m (classify_files prefix fpaths file_type files) !! key =
  if decide (key = file_type)
  then match last (filter (fun fpath => Is_true (belongs_to m prefix fpath)) fpaths) with
       | Some fpath => Some fpath
       | None => modality_files m files !! key
       end
  else modality_files m files !! key.
Proof.
  induction fpaths as [| fpath fpaths IH] using rev_ind.
  - simpl. destruct (decide (key = file_type)); reflexivity.
  - rewrite classify_files_snoc, classify_fpath_files, filter_app.
    destruct (belongs_to m prefix fpath) eqn:E.
    + rewrite (filter_cons_True _ fpath []) by (rewrite E; exact I).
      rewrite filter_nil, last_snoc.
      destruct (decide (key = file_type)) as [-> | Hne].
      * apply lookup_insert_eq.
      * rewrite lookup_insert_ne by congruence. exact IH.
    + rewrite (filter_cons_False _ fpath []) by (rewrite E; simpl; tauto).
      rewrite filter_nil, app_nil_r. exact IH.
Qed.

End ClassifyFacts.

(** The record of a prefix: each modality holds, under [image], [rpc] and
    [info], the last of its files among the images, the rpc files and the
    archives, and nothing else. *)
Lemma classified_lookup (ntf_fpaths rpc_fpaths info_fpaths : list string)
    (prefix : string) (m : modality) :
  let files := modality_files m (classified ntf_fpaths rpc_fpaths info_fpaths prefix) in
  let last_of fpaths :=
    last (filter (fun fpath => Is_true (belongs_to m prefix fpath)) fpaths) in
  files !! "image" = last_of ntf_fpaths /\
  files !! "rpc" = last_of rpc_fpaths /\
  files !! "info" = last_of info_fpaths /\
  (forall key, key <> "image" -> key <> "rpc" -> key <> "info" -> files !! key = None).
Proof.
  intros files last_of. unfold files, classified.
  assert (Hnew : forall key, modality_files m new_collection !! key = None).
  { intros key. destruct m; apply lookup_empty. }
  repeat split.
  - rewrite !classify_files_lookup. simpl. rewrite Hnew.
    unfold last_of. destruct (last _); reflexivity.
  - rewrite !classify_files_lookup. simpl. rewrite Hnew.
    unfold last_of. destruct (last _); reflexivity.
  - rewrite !classify_files_lookup. simpl. rewrite Hnew.
    unfold last_of. destruct (last _); reflexivity.
  - intros key H1 H2 H3. rewrite !classify_files_lookup.
    rewrite !decide_False by assumption. apply Hnew.
Qed.

(** ** The identifier pattern *)

Lemma digit_is_not_hyphen (c : ascii) : is_digit c = true -> Ascii.eqb "-" c = false.
Proof.
  intros H. destruct (Ascii.eqb_spec "-" c) as [<- | Hne]; [| reflexivity].
  vm_compute in H. discriminate.
Qed.

(** A match of the pattern at the start of [s]: an identifier of two digits,
    three uppercase letters and eight digits, followed by a hyphen. *)
Lemma prefix_regex_match (s : string) (m : gmap nat string) :
  re_match prefix_regex s = Some m ->
  exists id rest : string,
    s = (id +:+ "-") +:+ rest /\
    is_collection_id id = true /\
    m !! 0%nat = Some (id +:+ "-") /\
    rstrip_char "-" (id +:+ "-") = id.
Proof.
  unfold re_match, prefix_regex, seq.
  cbn [foldr match_re match_repeat lit].
  repeat (destruct s as [| ?c s]; [discriminate |];
          match goal with
          | |- context [if ?b then _ else _] =>
              destruct b eqn:?; [| discriminate]
          end).
  intros [= <-].
  match goal with H : Ascii.eqb "-" ?c = true |- _ =>
    apply Ascii.eqb_eq in H; subst c end.
  match goal with |- context [consumed ?full s] =>
    remember full as whole eqn:Hwhole end.
  match type of Hwhole with
  | _ = String ?c1 (String ?c2 (String ?c3 (String ?c4 (String ?c5 (String ?c6
          (String ?c7 (String ?c8 (String ?c9 (String ?c10 (String ?c11
          (String ?c12 (String ?c13 (String "-" s))))))))))))) =>
      exists (String c1 (String c2 (String c3 (String c4 (String c5 (String c6
          (String c7 (String c8 (String c9 (String c10 (String c11
          (String c12 (String c13 EmptyString))))))))))))), s
  end.
  subst whole. rewrite !string_app_cons, !string_app_nil_l. split; [reflexivity |].
  split.
  { unfold is_collection_id. cbn.
    repeat match goal with H : _ = true |- _ => rewrite H; clear H end.
    reflexivity. }
  split.
  { rewrite lookup_insert_eq. f_equal.
    match goal with |- consumed ?w s = ?p => change w with (p +:+ s) end.
    apply consumed_app. }
  unfold rstrip_char, String.rev. cbn [String.rev_app lstrip_char].
  rewrite Ascii.eqb_refl.
  match goal with H : is_digit ?c = true |- context [Ascii.eqb "-" ?c] =>
    rewrite (digit_is_not_hyphen c H) end.
  reflexivity.
Qed.

Lemma prefix_regex_search (fpath : string) (m : gmap nat string) :
  re_search prefix_regex fpath = Some m ->
  exists id : string,
    is_collection_id id = true /\
    m !! 0%nat = Some (id +:+ "-") /\
    rstrip_char "-" (id +:+ "-") = id /\
    str_contains (id +:+ "-") fpath = true.
Proof.
  induction fpath as [| c fpath IH]; cbn [re_search].
  - discriminate.
  - destruct (re_match prefix_regex (String c fpath)) as [m' |] eqn:E.
    + intros [= <-]. destruct (prefix_regex_match _ _ E) as (id & rest & Hs & Hid & Hm & Hr).
      exists id. repeat split; try assumption.
      rewrite Hs. apply (str_contains_app "" (id +:+ "-") rest).
    + intros H. destruct (IH H) as (id & Hid & Hm & Hr & Hc).
      exists id. repeat split; try assumption.
      apply str_contains_tail, Hc.
Qed.

(** A path is given an identifier exactly when it contains one followed by
    a hyphen. *)
Lemma found_prefix_shape (fpath prefix : string) :
  found_prefix fpath = Some prefix ->
  is_collection_id prefix = true /\ str_contains (prefix +:+ "-") fpath = true.
Proof.
  unfold found_prefix.
  destruct (re_search prefix_regex fpath) as [m |] eqn:E; [| discriminate].
  destruct (prefix_regex_search _ _ E) as (id & Hid & Hm & Hr & Hc).
  rewrite Hm. simpl. rewrite Hr. intros [= <-]. split; assumption.
Qed.

Lemma collection_id_chars (id : string) :
  is_collection_id id = true ->
  exists c1 c2 c3 c4 c5 c6 c7 c8 c9 c10 c11 c12 c13 : ascii,
    id = String c1 (String c2 (String c3 (String c4 (String c5 (String c6
          (String c7 (String c8 (String c9 (String c10 (String c11
          (String c12 (String c13 EmptyString)))))))))))) /\
    is_digit c1 = true /\ is_digit c2 = true /\
    is_upper c3 = true /\ is_upper c4 = true /\ is_upper c5 = true /\
    is_digit c6 = true /\ is_digit c7 = true /\ is_digit c8 = true /\
    is_digit c9 = true /\ is_digit c10 = true /\ is_digit c11 = true /\
    is_digit c12 = true /\ is_digit c13 = true.
Proof.
  unfold is_collection_id. rewrite !andb_true_iff, Nat.eqb_eq.
  intros [[[Hlen H1] H2] H3].
  destruct id as [| c1 id]; [discriminate Hlen |].
  destruct id as [| c2 id]; [discriminate Hlen |].
  destruct id as [| c3 id]; [discriminate Hlen |].
  destruct id as [| c4 id]; [discriminate Hlen |].
  destruct id as [| c5 id]; [discriminate Hlen |].
  destruct id as [| c6 id]; [discriminate Hlen |].
  destruct id as [| c7 id]; [discriminate Hlen |].
  destruct id as [| c8 id]; [discriminate Hlen |].
  destruct id as [| c9 id]; [discriminate Hlen |].
  destruct id as [| c10 id]; [discriminate Hlen |].
  destruct id as [| c11 id]; [discriminate Hlen |].
  destruct id as [| c12 id]; [discriminate Hlen |].
  destruct id as [| c13 id]; [discriminate Hlen |].
  destruct id; [| discriminate Hlen].
  cbn [String.substring all_chars] in H1, H2, H3.
  repeat match goal with
  | H : _ && _ = true |- _ => apply andb_true_iff in H; destruct H
  end.
  exists c1, c2, c3, c4, c5, c6, c7, c8, c9, c10, c11, c12, c13.
  intuition.
Qed.

Lemma prefix_regex_match_complete (id rest : string) :
  is_collection_id id = true ->
  exists m, re_match prefix_regex ((id +:+ "-") +:+ rest) = Some m.
Proof.
  intros Hid.
  destruct (collection_id_chars id Hid) as
    (c1 & c2 & c3 & c4 & c5 & c6 & c7 & c8 & c9 & c10 & c11 & c12 & c13 & -> & H).
  decompose [and] H. clear H.
  unfold re_match, prefix_regex, seq.
  repeat (rewrite string_app_cons || rewrite string_app_nil_l).
  cbn [foldr match_re match_repeat lit].
  repeat match goal with H : _ = true |- _ => rewrite H; clear H end.
  rewrite Ascii.eqb_refl. eexists. reflexivity.
Qed.

Lemma re_search_complete (r : regex) (needle hay : string) :
  (forall rest, exists m, re_match r (needle +:+ rest) = Some m) ->
  str_contains needle hay = true ->
  exists m, re_search r hay = Some m.
Proof.
  intros Hmatch. induction hay as [| c hay IH]; cbn [str_contains re_search];
    rewrite orb_true_iff; intros [Hp | Hc]; try discriminate.
  - apply String.prefix_correct in Hp.
    destruct needle; [| destruct (String.length _); discriminate].
    destruct (Hmatch "") as [m Hm]. rewrite string_app_nil_l in Hm.
    rewrite Hm. eauto.
  - assert (Hhay : exists rest, String c hay = needle +:+ rest).
    { clear -Hp. revert Hp. generalize (String c hay) as s.
      induction needle as [| a needle IH]; intros s Hp.
      - exists s. reflexivity.
      - destruct s as [| b s]; [discriminate |]. simpl in Hp.
        destruct (ascii_dec a b) as [<- | ]; [| discriminate].
        destruct (IH s Hp) as [rest ->]. exists rest. reflexivity. }
    destruct Hhay as [rest ->]. destruct (Hmatch rest) as [m Hm].
    rewrite Hm. eauto.
  - destruct (re_match r (String c hay)); eauto.
Qed.

(** Every path that contains an identifier followed by a hyphen is given one. *)
Lemma found_prefix_complete (fpath id : string) :
  is_collection_id id = true ->
  str_contains (id +:+ "-") fpath = true ->
  exists prefix, found_prefix fpath = Some prefix.
Proof.
  intros Hid Hc. unfold found_prefix.
  destruct (re_search_complete prefix_regex (id +:+ "-") fpath) as [m ->].
  - intros rest. apply prefix_regex_match_complete, Hid.
  - exact Hc.
  - eauto.
Qed.

Lemma collect_prefixes_elem (ntf_fpaths : list string) (acc : gset string)
    (prefix : string) :
  prefix ∈ collect_prefixes ntf_fpaths acc <->
  prefix ∈ acc \/
  exists ntf_fpath, ntf_fpath ∈ ntf_fpaths /\ found_prefix ntf_fpath = Some prefix.
Proof.
  revert acc. induction ntf_fpaths as [| f l IH]; intros acc; cbn [collect_prefixes].
  - split; [auto | intros [H | (f & Hf & _)]; [exact H | inversion Hf]].
  - unfold found_prefix at 1.
    destruct (re_search prefix_regex f) as [m |] eqn:E; rewrite IH.
    + rewrite elem_of_union, elem_of_singleton. split.
      * intros [[-> | H] | (f' & Hf' & Hp)].
        -- right. exists f. split; [left |]. unfold found_prefix. rewrite E. reflexivity.
        -- left. exact H.
        -- right. exists f'. split; [right; exact Hf' | exact Hp].
      * intros [H | (f' & Hf' & Hp)]; [left; right; exact H |].
        apply elem_of_cons in Hf' as [-> | Hf'].
        -- left. left. unfold found_prefix in Hp. rewrite E in Hp. congruence.
        -- right. exists f'. split; assumption.
    + split.
      * intros [H | (f' & Hf' & Hp)]; [left; exact H |].
        right. exists f'. split; [right; exact Hf' | exact Hp].
      * intros [H | (f' & Hf' & Hp)]; [left; exact H |].
        apply elem_of_cons in Hf' as [-> | Hf'].
        -- unfold found_prefix in Hp. rewrite E in Hp. discriminate.
        -- right. exists f'. split; assumption.
Qed.

Lemma walk_with_ext_elem (walk : list (string * list string)) (ext fpath : string) :
  fpath ∈ walk_with_ext walk ext <->
  exists root files file,
    (root, files) ∈ walk /\ file ∈ files /\
    endswith (lower file) ext = true /\ fpath = path_join root file.
Proof.
  unfold walk_with_ext. rewrite list_elem_of_In, in_flat_map. split.
  - intros ([root files] & Hw & Hin). apply in_map_iff in Hin as (file & <- & Hf).
    apply list_elem_of_In, list_elem_of_filter in Hf as [Hext Hf].
    exists root, files, file. repeat split; try assumption.
    + apply list_elem_of_In, Hw.
    + apply Is_true_true, Hext.
  - intros (root & files & file & Hw & Hf & Hext & ->).
    exists (root, files). split; [apply list_elem_of_In, Hw |].
    apply in_map. apply list_elem_of_In, list_elem_of_filter.
    split; [apply Is_true_true, Hext | exact Hf].
Qed.

(** ** The most nadir collection *)

Section Nadir.
Local Open Scope Q_scope.

(** After a non-empty run of the loop, the state holds the first of the
    entries with the least angle. *)
Lemma nadir_fold_first_minimum (angles : list (string * Q)) :
  angles <> [] ->
  exists (i : nat) (collection_id : string) (a : Q),
    foldl nadir_step (None, EmptyString) angles = (Some a, collection_id) /\
    angles !! i = Some (collection_id, a) /\
    forall (j : nat) (id' : string) (a' : Q),
      angles !! j = Some (id', a') -> a <= a' /\ ((j < i)%nat -> a < a').
Proof.
  induction angles as [| [k x] angles IH] using rev_ind; [congruence | intros _].
  rewrite foldl_app. cbn [foldl nadir_step].
  destruct angles as [| y angles].
  - simpl. exists 0%nat, k, x. repeat split; try reflexivity.
    + destruct j; simpl in H; [injection H as <- <-; lra | discriminate].
    + intros Hj. lia.
  - destruct IH as (i & id & a & -> & Hi & Hmin); [discriminate |].
    set (l := y :: angles) in *.
    assert (Hlt : (i < length l)%nat) by (eapply lookup_lt_Some; exact Hi).
    unfold nadir_update. destruct (Qlt_bool x a) eqn:E.
    + apply Qlt_bool_iff in E.
      exists (length l), k, x. split; [reflexivity |]. split.
      * rewrite lookup_app_r by lia. rewrite Nat.sub_diag. reflexivity.
      * intros j id' a' Hj.
        destruct (decide (j < length l)%nat) as [Hjl | Hjl].
        -- rewrite lookup_app_l in Hj by exact Hjl.
           destruct (Hmin j id' a' Hj) as [Hle _]. split; [lra | intros _; lra].
        -- rewrite lookup_app_r in Hj by lia.
           destruct (j - length l)%nat eqn:Ej; simpl in Hj; [| discriminate].
           injection Hj as <- <-. split; [lra | lia].
    + apply Qlt_bool_false in E.
      exists i, id, a. split; [reflexivity |]. split.
      * rewrite lookup_app_l by exact Hlt. exact Hi.
      * intros j id' a' Hj.
        destruct (decide (j < length l)%nat) as [Hjl | Hjl].
        -- rewrite lookup_app_l in Hj by exact Hjl. apply (Hmin j id' a' Hj).
        -- rewrite lookup_app_r in Hj by lia.
           destruct (j - length l)%nat eqn:Ej; simpl in Hj; [| discriminate].
           injection Hj as <- <-. split; [exact E | lia].
Qed.

Lemma most_nadir_fold (angles : list (string * Q)) :
  most_nadir angles = snd (foldl nadir_step (None, EmptyString) angles).
Proof. reflexivity. Qed.

(** C7.  On a non-empty list of collections with their obliquity angles, in
    iteration order, the selection returns the identifier of the first entry
    whose angle is the least of all; of two collections with the same least
    angle the first is returned. *)
Theorem most_nadir_is_first_minimum :
  (forall angles : list (string * Q),
     angles <> [] ->
     exists (i : nat) (a : Q),
       angles !! i = Some (most_nadir angles, a) /\
       forall (j : nat) (id' : string) (a' : Q),
         angles !! j = Some (id', a') -> a <= a' /\ ((j < i)%nat -> a < a')) /\
  (forall (id1 id2 : string) (a1 a2 : Q),
     a1 == a2 -> most_nadir [(id1, a1); (id2, a2)] = id1).
Proof.
  split.
  - intros angles Hne.
    destruct (nadir_fold_first_minimum angles Hne) as (i & id & a & Hf & Hi & Hmin).
    exists i, a. rewrite most_nadir_fold, Hf. simpl. split; assumption.
  - intros id1 id2 a1 a2 Heq. unfold most_nadir. simpl.
    assert (E : Qlt_bool a2 a1 = false) by (apply Qlt_bool_false; lra).
    rewrite E. reflexivity.
Qed.

(** Three collections, the last two with the same least angle. *)
Lemma most_nadir_is_first_minimum_witness :
  let angles :=
    [("12ABC34567890", 20); ("13ABC34567890", 10); ("14ABC34567890", 10)]%string in
  exists (i : nat) (a : Q),
    angles !! i = Some (most_nadir angles, a) /\
    forall (j : nat) (id' : string) (a' : Q),
      angles !! j = Some (id', a') -> a <= a' /\ ((j < i)%nat -> a < a').
Proof.
  intros angles. apply (proj1 most_nadir_is_first_minimum angles). discriminate.
Defined.

End Nadir.

(** ** Loops over the collections *)

Section ForItems.
Context {S V : Type}.
Variable body : S -> string -> V -> run (S * V).

(** A loop whose body succeeds on every entry: the local variables are
    folded over the entries and each value is rewritten in place; the log
    holds calls only when the body logs calls only. *)
Lemma for_items_spec (upd : S -> string -> V -> S) (g : string -> V -> V)
    (d : list (string * V)) (st : S) :
  (forall st k v, (k, v) ∈ d ->
     exists log, body st k v = (log, Ok (upd st k v, g k v)) /\
                 forallb is_call log = true) ->
  exists log,
    for_items body d st =
    (log, Ok (foldl (fun st kv => upd st kv.1 kv.2) st d,
              (fun kv => (kv.1, g kv.1 kv.2)) <$> d)) /\
    forallb is_call log = true.
Proof.
  revert st. induction d as [| [k v] d IH]; intros st Hbody.
  - exists []. split; reflexivity.
  - destruct (Hbody st k v) as (log0 & E0 & Hc0); [left |].
    destruct (IH (upd st k v)) as (log1 & E1 & Hc1).
    { intros st' k' v' Hin. apply Hbody. right. exact Hin. }
    exists (log0 ++ (log1 ++ [])). split.
    + cbn [for_items mbind run_bind]. rewrite E0. cbn [mbind run_bind].
      rewrite E1. reflexivity.
    + rewrite !forallb_app, Hc0, Hc1. reflexivity.
Qed.

(** What the body logs for an entry is in the log of a loop that succeeds. *)
Lemma for_items_log (d : list (string * V)) (st : S) (log : list event)
    (r : S * list (string * V)) (k : string) (v : V) (e : event) :
  for_items body d st = (log, Ok r) ->
  (k, v) ∈ d ->
  (forall st, e ∈ (body st k v).1) ->
  e ∈ log.
Proof.
  intros Hrun Hin He. revert st log r Hrun.
  induction d as [| [k0 v0] d IH]; intros st log r Hrun; [inversion Hin |].
  cbn [for_items mbind run_bind] in Hrun.
  pose proof (He st) as He0.
  destruct (body st k0 v0) as [log0 [[st' v'] | err]] eqn:E0; [| discriminate].
  cbn [mbind run_bind] in Hrun.
  destruct (for_items body d st') as [log1 [[st'' d'] | err]] eqn:E1;
    cbn in Hrun; [| discriminate].
  injection Hrun as <- _.
  apply elem_of_cons in Hin as [[= -> ->] | Hin].
  - rewrite E0 in He0. apply elem_of_app. left. exact He0.
  - apply elem_of_app. right. apply elem_of_app. left.
    eapply IH; [exact Hin | exact E1].
Qed.

End ForItems.

(** ** The stages *)

Section Stages.
Variable obliquity_angle : string -> Q.
Variable glob : string -> list string.

Implicit Types (files : collection) (d : list (string * collection)).

Lemma getkey_Some (m : gmap string string) (k v : string) :
  m !! k = Some v -> getkey k m = Ok v.
Proof. intros H. unfold getkey. rewrite H. reflexivity. Qed.

Lemma orthorectify_complete (working_dir dsm_file dtm_file collection_id : string)
    files (st : unit) :
  is_complete files = true ->
  exists log,
    orthorectify_collection working_dir dsm_file dtm_file st collection_id files =
    (log, Ok (st, orthorectified working_dir files)) /\
    forallb is_call log = true.
Proof.
  intros Hc. apply is_complete_iff in Hc as [([pi Hpi] & _ & _) ([mi Hmi] & _ & _)].
  unfold orthorectify_collection, orthorectified, ortho_path.
  rewrite (getkey_Some _ _ _ Hpi). cbn [lift mbind run_bind emit].
  change (msi (set_pan _ files)) with (msi files).
  rewrite (getkey_Some _ _ _ Hmi). cbn [lift mbind run_bind emit mret run_ret].
  rewrite Hpi, Hmi. simpl default. eexists. split; reflexivity.
Qed.

Lemma pansharpen_orthorectified (working_dir collection_id : string) files0
    (st : option Q * string) :
  is_complete files0 = true ->
  let files := orthorectified working_dir files0 in
  exists log,
    pansharpen_collection obliquity_angle working_dir st collection_id files =
    (log,
     Ok (nadir_update collection_id
           (obliquity_angle (default EmptyString (pan files !! "image"))) st,
         set_pansharpened_fpath (pansharpened_path working_dir collection_id) files)) /\
    forallb is_call log = true.
Proof.
  intros Hc files. apply is_complete_iff in Hc as [([pi Hpi] & _ & _) _].
  unfold pansharpen_collection.
  assert (H1 : pan files !! "ortho_img_fpath" = Some (ortho_path working_dir (pan files0)))
    by apply lookup_insert_eq.
  assert (H2 : msi files !! "ortho_img_fpath" = Some (ortho_path working_dir (msi files0)))
    by apply lookup_insert_eq.
  assert (H3 : pan files !! "image" = Some pi).
  { unfold files, orthorectified. cbn [pan set_msi set_pan].
    rewrite lookup_insert_ne by discriminate. exact Hpi. }
  rewrite (getkey_Some _ _ _ H1), (getkey_Some _ _ _ H2).
  cbn [lift mbind run_bind emit].
  change (pan (set_pansharpened_fpath _ files)) with (pan files).
  rewrite (getkey_Some _ _ _ H3), H3.
  cbn [lift mbind run_bind emit mret run_ret]. eexists. split; reflexivity.
Qed.

Lemma rgb_any (working_dir collection_id : string) files (st : unit) :
  rgb_collection working_dir st collection_id files =
  ([Call "msi_to_rgb" [pansharpened_fpath files;
                       rgb_path working_dir collection_id; "-b"]],
   Ok (st, set_rgb_fpath (rgb_path working_dir collection_id) files)).
Proof. reflexivity. Qed.

Lemma nadir_fold_key (angles : list (string * Q)) (lowest : option Q) (id : string) :
  angles <> [] ->
  foldl nadir_step (None, EmptyString) angles = (lowest, id) ->
  id ∈ angles.*1.
Proof.
  intros Hne Hf.
  destruct (nadir_fold_first_minimum angles Hne) as (i & id' & a & Hf' & Hi & _).
  rewrite Hf in Hf'. injection Hf' as _ ->.
  apply list_elem_of_lookup_2 in Hi. apply (list_elem_of_fmap_2 fst) in Hi. exact Hi.
Qed.

(** The loop of the pansharpening stage leaves in
    [most_nadir_collection_id] the selection [most_nadir] among the
    collections, each with the obliquity angle of its pan image. *)
Lemma pansharpen_loop_selects_most_nadir (working_dir : string) d :
  Forall (fun kv => is_complete kv.2 = true) d ->
  let d1 := (fun kv => (kv.1, orthorectified working_dir kv.2)) <$> d in
  let angles :=
    (fun kv : string * collection =>
       (kv.1, obliquity_angle (default EmptyString (pan kv.2 !! "image")))) <$> d in
  exists (log : list event) (lowest_angle : option Q)
         (d2 : list (string * collection)),
    for_items (pansharpen_collection obliquity_angle working_dir) d1 (None, EmptyString) =
    (log, Ok ((lowest_angle, most_nadir angles), d2)).
Proof.
  intros Hall d1 angles. rewrite Forall_forall in Hall.
  destruct (for_items_spec
              (pansharpen_collection obliquity_angle working_dir)
              (fun st k v =>
                 nadir_update k (obliquity_angle (default EmptyString (pan v !! "image"))) st)
              (fun k v => set_pansharpened_fpath (pansharpened_path working_dir k) v)
              d1 (None, EmptyString))
    as (log & E & _).
  { intros st k v Hin. apply list_elem_of_fmap in Hin as ([k0 v0] & [= -> ->] & Hin).
    apply pansharpen_orthorectified, (Hall (k0, v0) Hin). }
  rewrite E.
  assert (Hfold :
    foldl (fun st kv =>
             nadir_update kv.1
               (obliquity_angle (default EmptyString (pan kv.2 !! "image"))) st)
          (None, EmptyString) d1 =
    foldl nadir_step (None, EmptyString) angles).
  { unfold angles, d1. rewrite !foldl_fmap.
    generalize (@None Q, EmptyString). clear.
    induction d as [| [k v] d IH]; intros st; [reflexivity |].
    cbn [foldl]. rewrite IH. f_equal.
    cbn [fst snd nadir_step orthorectified pan set_msi set_pan].
    rewrite lookup_insert_ne by discriminate. reflexivity. }
  rewrite Hfold. unfold most_nadir.
  destruct (foldl nadir_step (None, EmptyString) angles) as [lowest id].
  eexists _, _, _. reflexivity.
Qed.

(** On a non-empty set of complete collections every stage is run: no
    lookup fails, and each collection goes through the conversion to RGB. *)
Lemma run_stages_complete (cfg : config) (working_dir : string) d :
  d <> [] ->
  Forall (fun kv => is_complete kv.2 = true) d ->
  exists (dsm_args dtm_args : list string) (log : list event),
    run_stages obliquity_angle glob cfg working_dir d =
    (Call "generate_dsm" dsm_args :: Call "fit_dtm" dtm_args :: log, Ok tt) /\
    forallb is_call log = true /\
    forall collection_id, collection_id ∈ d.*1 ->
      Call "msi_to_rgb" [pansharpened_path working_dir collection_id;
                         rgb_path working_dir collection_id; "-b"] ∈ log.
Proof.
  intros Hne Hall. rewrite Forall_forall in Hall.
  unfold run_stages. cbv zeta. cbn [mbind run_bind emit].
  (* orthorectification *)
  destruct (for_items_spec
              (orthorectify_collection working_dir
                 (path_join working_dir (aoi_name cfg +:+ "_P3D_DSM.tif"))
                 (path_join working_dir (aoi_name cfg +:+ "_DTM.tif")))
              (fun st _ _ => st) (fun _ v => orthorectified working_dir v) d tt)
    as (log1 & E1 & Hc1).
  { intros st k v Hin. apply orthorectify_complete, (Hall (k, v) Hin). }
  rewrite E1. cbn [mbind run_bind].
  set (d1 := (fun kv => (kv.1, orthorectified working_dir kv.2)) <$> d) in *.
  (* pansharpening and selection *)
  destruct (for_items_spec
              (pansharpen_collection obliquity_angle working_dir)
              (fun st k v =>
                 nadir_update k (obliquity_angle (default EmptyString (pan v !! "image"))) st)
              (fun k v => set_pansharpened_fpath (pansharpened_path working_dir k) v)
              d1 (None, EmptyString))
    as (log2 & E2 & Hc2).
  { intros st k v Hin. apply list_elem_of_fmap in Hin as ([k0 v0] & [= -> ->] & Hin).
    apply pansharpen_orthorectified, (Hall (k0, v0) Hin). }
  rewrite E2. cbn [mbind run_bind].
  set (d2 := (fun kv => (kv.1, set_pansharpened_fpath
                                 (pansharpened_path working_dir kv.1) kv.2)) <$> d1) in *.
  destruct (foldl _ (None, EmptyString) d1) as [lowest id] eqn:Efold.
  cbn [mbind run_bind].
  (* conversion to RGB *)
  destruct (for_items_spec (rgb_collection working_dir)
              (fun st _ _ => st)
              (fun k v => set_rgb_fpath (rgb_path working_dir k) v) d2 tt)
    as (log3 & E3 & Hc3).
  { intros st k v _. rewrite rgb_any. eexists. split; reflexivity. }
  rewrite E3. cbn [mbind run_bind].
  set (d3 := (fun kv => (kv.1, set_rgb_fpath (rgb_path working_dir kv.1) kv.2)) <$> d2) in *.
  (* the most nadir collection is one of the collections *)
  assert (Hkeys1 : d1.*1 = d.*1).
  { unfold d1. rewrite <- list_fmap_compose. reflexivity. }
  assert (Hkeys2 : d2.*1 = d.*1).
  { unfold d2. rewrite <- list_fmap_compose. exact Hkeys1. }
  assert (Hkeys3 : d3.*1 = d.*1).
  { unfold d3. rewrite <- list_fmap_compose. exact Hkeys2. }
  assert (Hid : id ∈ d3.*1).
  { rewrite Hkeys3, <- Hkeys1.
    pose (angle_of := fun kv : string * collection =>
            (kv.1, obliquity_angle (default EmptyString (pan kv.2 !! "image")))).
    assert (Hf : foldl nadir_step (None, EmptyString) (angle_of <$> d1) = (lowest, id)).
    { rewrite <- Efold. rewrite foldl_fmap. reflexivity. }
    apply nadir_fold_key in Hf.
    - rewrite <- list_fmap_compose in Hf. exact Hf.
    - unfold d1. destruct d; [congruence | discriminate]. }
  destruct (getitem_elem d3 id Hid) as (most_nadir_files & Eget & _).
  rewrite Eget. cbn [lift mbind run_bind].
  (* the paths of the material classifier *)
  destruct (for_items_spec material_paths
              (fun st _ v =>
                 (st.1 ++ [default EmptyString (msi v !! "ortho_img_fpath")],
                  st.2 ++ [default EmptyString (msi v !! "info")]))
              (fun _ v => v) d3 ([], []))
    as (log4 & E4 & Hc4).
  { intros [imgs infos] k v Hin.
    apply list_elem_of_fmap in Hin as ([k2 v2] & [= -> ->] & Hin).
    apply list_elem_of_fmap in Hin as ([k1 v1] & [= -> ->] & Hin).
    apply list_elem_of_fmap in Hin as ([k0 v0] & [= -> ->] & Hin).
    pose proof (Hall (k0, v0) Hin) as Hc.
    apply is_complete_iff in Hc as [_ (_ & [mi Hmi] & _)].
    unfold material_paths. cbn [msi set_rgb_fpath set_pansharpened_fpath fst snd].
    assert (H1 : msi (orthorectified working_dir v0) !! "ortho_img_fpath"
                 = Some (ortho_path working_dir (msi v0))) by apply lookup_insert_eq.
    assert (H2 : msi (orthorectified working_dir v0) !! "info" = Some mi).
    { unfold orthorectified. cbn [msi set_msi set_pan].
      rewrite lookup_insert_ne by discriminate. exact Hmi. }
    rewrite (getkey_Some _ _ _ H1), (getkey_Some _ _ _ H2), H1, H2.
    eexists. split; reflexivity. }
  rewrite E4. cbn [mbind run_bind].
  destruct (foldl _ ([], []) d3) as [img_paths info_paths].
  cbn [mbind run_bind mret run_ret app].
  eexists _, _, _. split; [reflexivity |].
  split.
  { repeat (rewrite forallb_app || cbn [forallb is_call andb]).
    rewrite Hc1, Hc2, Hc3, Hc4. reflexivity. }
  (* every collection is converted to RGB *)
  intros k Hk. rewrite <- Hkeys2 in Hk.
  apply list_elem_of_fmap in Hk as ([k2 v2] & -> & Hin2).
  assert (He : Call "msi_to_rgb" [pansharpened_path working_dir k2;
                                  rgb_path working_dir k2; "-b"] ∈ log3).
  { eapply (for_items_log _ d2 tt log3 _ k2 v2); [exact E3 | exact Hin2 |].
    intros st. rewrite rgb_any. cbn [fst].
    apply list_elem_of_fmap in Hin2 as ([k1 v1] & [= -> ->] & _).
    apply list_elem_of_singleton. reflexivity. }
  rewrite !elem_of_app. tauto.
Qed.

(** Without any collection the first two stages run, and the lookup of the
    most nadir collection fails on the empty identifier. *)
Lemma run_stages_empty (cfg : config) (working_dir : string) :
  exists dsm_args dtm_args : list string,
    run_stages obliquity_angle glob cfg working_dir [] =
    ([Call "generate_dsm" dsm_args; Call "fit_dtm" dtm_args],
     Raise (KeyError EmptyString)).
Proof. eexists _, _. reflexivity. Qed.

End Stages.

(** ** The validator *)

Lemma dict_get_fmap_key {V : Type} (f : string -> V) (l : list string) (k : string) :
  dict_get k ((fun p => (p, f p)) <$> l) = if decide (k ∈ l) then Some (f k) else None.
Proof.
  induction l as [| p l IH]; cbn [fmap list_fmap dict_get].
  - rewrite decide_False by apply not_elem_of_nil. reflexivity.
  - destruct (decide (k = p)) as [-> | Hne].
    + rewrite decide_True by left. reflexivity.
    + rewrite IH. destruct (decide (k ∈ l)) as [Hin | Hnin].
      * rewrite decide_True by (right; exact Hin). reflexivity.
      * rewrite decide_False; [reflexivity |].
        intros [? | ?]%elem_of_cons; contradiction.
Qed.

(** C6.  Of the identifiers found, the validator keeps, with their record,
    exactly those whose pan and msi modalities are complete, and drops the
    others, recording each on the list of incomplete identifiers; a modality
    is complete when its image and info files, and its rpc file when
    required, are present; the rpc file is required of both; the swir
    modality plays no part. *)
Theorem validator_drops_exactly_incomplete
    (imagery_walk rpc_walk : list (string * list string)) :
  let ntf_fpaths := walk_with_ext imagery_walk ".ntf" in
  let info_fpaths := walk_with_ext imagery_walk ".tar" in
  let rpc_fpaths := walk_with_ext rpc_walk ".rpc" in
  let record := classified ntf_fpaths rpc_fpaths info_fpaths in
  let present (m : gmap string string) :=
    is_Some (m !! "image") /\ is_Some (m !! "info") /\ is_Some (m !! "rpc") in
  exists (log : list event) (collection_id_to_files : list (string * collection))
         (incomplete_ids : list string),
    find_collections imagery_walk rpc_walk =
    (log, Ok (collection_id_to_files, incomplete_ids)) /\
    (forall prefix, prefix ∈ collect_prefixes ntf_fpaths ∅ ->
       (present (pan (record prefix)) /\ present (msi (record prefix)) ->
        dict_get prefix collection_id_to_files = Some (record prefix) /\
        prefix ∉ incomplete_ids) /\
       (~ (present (pan (record prefix)) /\ present (msi (record prefix))) ->
        dict_get prefix collection_id_to_files = None /\
        prefix ∈ incomplete_ids)) /\
    (forall prefix, prefix ∈ incomplete_ids -> prefix ∈ collect_prefixes ntf_fpaths ∅) /\
    (forall (m : gmap string string) (require_rpc : bool),
       ensure_complete_modality m require_rpc = true <->
       is_Some (m !! "image") /\ is_Some (m !! "info") /\
       (require_rpc = true -> is_Some (m !! "rpc"))) /\
    (forall (files : collection) (swir' : gmap string string),
       is_complete (set_swir (fun _ => swir') files) = is_complete files).
Proof.
  intros ntf_fpaths info_fpaths rpc_fpaths record present.
  eexists _, _, _. split; [apply find_collections_spec |].
  fold ntf_fpaths info_fpaths rpc_fpaths. fold record.
  set (prefixes := elements (collect_prefixes ntf_fpaths ∅)).
  assert (Hpresent : forall prefix,
            is_complete (record prefix) = true <->
            present (pan (record prefix)) /\ present (msi (record prefix))).
  { intros prefix. apply is_complete_iff. }
  split; [| split; [| split]].
  - intros prefix Hin. apply elem_of_elements in Hin. fold prefixes in Hin.
    rewrite dict_get_fmap_key. split.
    + intros Hc. apply Hpresent in Hc. split.
      * rewrite decide_True; [reflexivity |].
        apply list_elem_of_filter. split; [rewrite Hc; exact I | exact Hin].
      * intros [Hn _]%list_elem_of_filter. rewrite Hc in Hn. apply Hn. exact I.
    + intros Hn. rewrite <- Hpresent in Hn. apply not_true_is_false in Hn. split.
      * rewrite decide_False; [reflexivity |].
        intros [Hc _]%list_elem_of_filter. rewrite Hn in Hc. exact Hc.
      * apply list_elem_of_filter. split; [rewrite Hn; simpl; tauto | exact Hin].
  - intros prefix [_ Hin]%list_elem_of_filter. apply elem_of_elements, Hin.
  - apply ensure_complete_modality_iff.
  - intros files swir'. apply is_complete_swir.
Qed.

(** Of the two collections of the example, the first is kept and the
    second, without the archive of its msi image, is dropped. *)
Lemma validator_drops_exactly_incomplete_witness :
  exists (log : list event) (collection_id_to_files : list (string * collection))
         (incomplete_ids : list string),
    find_collections example_imagery_walk example_rpc_walk =
    (log, Ok (collection_id_to_files, incomplete_ids)) /\
    is_Some (dict_get "12ABC34567890" collection_id_to_files) /\
    ("12ABC34567890" ∉ incomplete_ids) /\
    dict_get "13ABC34567890" collection_id_to_files = None /\
    "13ABC34567890" ∈ incomplete_ids.
Proof.
  destruct (validator_drops_exactly_incomplete example_imagery_walk example_rpc_walk)
    as (log & d & inc & Hrun & Hsplit & _).
  exists log, d, inc. split; [exact Hrun |].
  destruct (Hsplit "12ABC34567890") as [Hkeep _].
  { apply elem_of_elements. vm_compute. repeat constructor. }
  destruct (Hsplit "13ABC34567890") as [_ Hdrop].
  { apply elem_of_elements. vm_compute. repeat constructor. }
  destruct Hkeep as [Hget Hnin].
  { apply is_complete_iff. vm_compute. reflexivity. }
  destruct Hdrop as [Hnone Hin].
  { intros H. apply is_complete_iff in H. vm_compute in H. discriminate. }
  rewrite Hget. repeat split; eauto.
Defined.

(** ** The working directory *)

Section WorkingDirFacts.
Variable realpath : string -> string.
Variable now_timestamp : string.

(** A working directory whose resolved path extends that of the imagery
    directory, the directory itself included, is rejected. *)
Lemma working_dir_inside_is_rejected (working_dir imagery_dir rest : string) :
  working_dir <> EmptyString ->
  realpath working_dir = realpath imagery_dir +:+ rest ->
  create_working_dir realpath now_timestamp (Some working_dir) imagery_dir =
  Raise ValueError.
Proof.
  intros Hne Hpath. unfold create_working_dir.
  destruct working_dir as [| c w]; [congruence |].
  rewrite Hpath.
  rewrite (str_contains_prefix _ _ (prefix_app (realpath imagery_dir) rest)).
  reflexivity.
Qed.

(** A working directory whose resolved path is shorter than that of the
    imagery directory, as that of an ancestor is, is accepted. *)
Lemma working_dir_shorter_is_accepted (working_dir imagery_dir : string) :
  working_dir <> EmptyString ->
  (String.length (realpath working_dir) < String.length (realpath imagery_dir))%nat ->
  create_working_dir realpath now_timestamp (Some working_dir) imagery_dir =
  Ok working_dir.
Proof.
  intros Hne Hlen. unfold create_working_dir.
  destruct working_dir as [| c w]; [congruence |].
  rewrite str_contains_shorter by exact Hlen. reflexivity.
Qed.

End WorkingDirFacts.

(** C8 fails on the code: the test is one of substrings, and the sibling
    [/data/img2] of the imagery directory [/data/img], neither equal to it
    nor inside it, is rejected. *)
Lemma working_dir_sibling_is_rejected :
  equal_or_nested "/data/img2" "/data/img" = false /\
  equal_or_nested "/data/img/work" "/data/img" = true /\
  create_working_dir (fun p => p) "0" (Some "/data/img2") "/data/img" =
  Raise ValueError.
Proof. repeat split; vm_compute; reflexivity. Qed.

(** ** The run *)

Section Run.
Variable realpath : string -> string.
Variable now_timestamp : string.
Variable os_walk : string -> list (string * list string).
Variable obliquity_angle : string -> Q.
Variable glob : string -> list string.

Lemma find_collections_complete (imagery_walk rpc_walk : list (string * list string)) :
  exists (d : list (string * collection)) (incomplete_ids : list string),
    find_collections imagery_walk rpc_walk =
    (LogWarning ∘ skip_message <$> incomplete_ids, Ok (d, incomplete_ids)) /\
    Forall (fun kv => is_complete kv.2 = true) d.
Proof.
  eexists _, _. split; [apply find_collections_spec |].
  apply Forall_forall. intros [k v] Hin.
  apply list_elem_of_fmap in Hin as (p & [= -> ->] & Hp).
  apply list_elem_of_filter in Hp as [Hc _]. apply Is_true_true, Hc.
Qed.

(** C9 (as amended).  Once the working directory is accepted, validation
    logs one warning for each incomplete collection and nothing else.  When
    it leaves no collection, no check is made: the point cloud is rendered
    and the terrain model fitted, and the run then ends on the [KeyError] of
    the empty identifier, raised by the lookup of the most nadir collection.
    When it leaves at least one collection, the run goes through every stage
    without raising, logs calls only after the warnings, and converts each
    of the remaining collections. *)
Theorem run_after_validation (cfg : config) (working_dir : string) :
  create_working_dir realpath now_timestamp (work_dir cfg) (imagery_dir cfg) =
  Ok working_dir ->
  exists (d : list (string * collection)) (incomplete_ids : list string),
    let warnings := LogWarning ∘ skip_message <$> incomplete_ids in
    find_collections (os_walk (imagery_dir cfg)) (os_walk (rpc_dir cfg)) =
    (warnings, Ok (d, incomplete_ids)) /\
    (d = [] ->
     exists dsm_args dtm_args : list string,
       main realpath now_timestamp os_walk obliquity_angle glob cfg =
       (warnings ++ [Call "generate_dsm" dsm_args; Call "fit_dtm" dtm_args],
        Raise (KeyError EmptyString))) /\
    (d <> [] ->
     exists (dsm_args dtm_args : list string) (log : list event),
       main realpath now_timestamp os_walk obliquity_angle glob cfg =
       (warnings ++ Call "generate_dsm" dsm_args :: Call "fit_dtm" dtm_args :: log,
        Ok tt) /\
       forallb is_call log = true /\
       forall collection_id, collection_id ∈ d.*1 ->
         Call "msi_to_rgb" [pansharpened_path working_dir collection_id;
                            rgb_path working_dir collection_id; "-b"] ∈ log).
Proof.
  intros Hwd.
  destruct (find_collections_complete (os_walk (imagery_dir cfg)) (os_walk (rpc_dir cfg)))
    as (d & incomplete_ids & Hfind & Hall).
  exists d, incomplete_ids. cbv zeta. split; [exact Hfind |].
  unfold main. rewrite Hwd. cbn [lift mbind run_bind]. rewrite Hfind.
  cbn [mbind run_bind app]. split.
  - intros ->.
    destruct (run_stages_empty obliquity_angle glob cfg working_dir)
      as (dsm_args & dtm_args & ->).
    exists dsm_args, dtm_args. reflexivity.
  - intros Hne.
    destruct (run_stages_complete obliquity_angle glob cfg working_dir d Hne Hall)
      as (dsm_args & dtm_args & log & -> & Hcalls & Hrgb).
    exists dsm_args, dtm_args, log. repeat split; assumption.
Qed.

End Run.

(** The run of the example: one collection is dropped, the other goes
    through the stages. *)
Lemma run_after_validation_witness :
  exists (d : list (string * collection)) (incomplete_ids dsm_args dtm_args : list string)
         (log : list event),
    d <> [] /\
    main (fun p => p) "0" example_os_walk (fun _ => 20%Q) (fun _ => [])
         example_config =
    ((LogWarning ∘ skip_message <$> incomplete_ids)
       ++ Call "generate_dsm" dsm_args :: Call "fit_dtm" dtm_args :: log,
     Ok tt) /\
    forall collection_id, collection_id ∈ d.*1 ->
      Call "msi_to_rgb" [pansharpened_path "/work" collection_id;
                         rgb_path "/work" collection_id; "-b"] ∈ log.
Proof.
  destruct (run_after_validation (fun p => p) "0" example_os_walk (fun _ => 20%Q)
              (fun _ => []) example_config "/work" eq_refl)
    as (d & incomplete_ids & Hfind & _ & Hrun).
  assert (Hne : d <> []).
  { intros ->. apply (f_equal snd) in Hfind. vm_compute in Hfind. discriminate. }
  destruct (Hrun Hne) as (dsm_args & dtm_args & log & Hmain & _ & Hrgb).
  exists d, incomplete_ids, dsm_args, dtm_args, log. repeat split; assumption.
Defined.

(** C9 as stated fails: in an empty imagery directory validation leaves no
    collection, and the run calls two stages before it ends on a
    [KeyError]. *)
Lemma run_without_collections :
  let r := main (fun p => p) "0" (fun _ => []) (fun _ => 20%Q) (fun _ => [])
                example_config in
  find_collections [] [] = ([], Ok ([], [])) /\
  (exists dsm_args dtm_args : list string,
     r = ([Call "generate_dsm" dsm_args; Call "fit_dtm" dtm_args],
          Raise (KeyError EmptyString))) /\
  ~ stated_no_usable_collections r.
Proof.
  split; [reflexivity |]. split.
  - eexists _, _. vm_compute. reflexivity.
  - intros [_ H]. vm_compute in H. discriminate.
Qed.

(** ** The classifier *)

(** C10 (as amended).  The classifier collects, by extension and without
    regard to case, the [.ntf] and [.tar] files of the imagery tree and the
    [.rpc] files of the rpc tree.  The identifiers are those read off the
    paths of the [.ntf] files alone: the first match in the path of two
    digits, three uppercase letters and eight digits followed by a hyphen,
    every path that holds such a text giving one.  For each identifier the
    loop builds one record, which validation keeps or drops; in it each of
    pan, msi and swir holds, under [image], [rpc] and [info], the last of the
    [.ntf], [.rpc] and [.tar] paths that contain the identifier and the
    marker [-P1BS-], [-M1BS-] or [-A1BS-] of the modality, the first of the
    markers present deciding. *)
Theorem classifier_records (imagery_walk rpc_walk : list (string * list string)) :
  let ntf_fpaths := walk_with_ext imagery_walk ".ntf" in
  let info_fpaths := walk_with_ext imagery_walk ".tar" in
  let rpc_fpaths := walk_with_ext rpc_walk ".rpc" in
  let record := classified ntf_fpaths rpc_fpaths info_fpaths in
  (forall (walk : list (string * list string)) (ext fpath : string),
     fpath ∈ walk_with_ext walk ext <->
     exists root files file,
       (root, files) ∈ walk /\ file ∈ files /\
       endswith (lower file) ext = true /\ fpath = path_join root file) /\
  (forall prefix,
     prefix ∈ collect_prefixes ntf_fpaths ∅ <->
     exists ntf_fpath, ntf_fpath ∈ ntf_fpaths /\ found_prefix ntf_fpath = Some prefix) /\
  (forall fpath prefix,
     found_prefix fpath = Some prefix ->
     is_collection_id prefix = true /\ str_contains (prefix +:+ "-") fpath = true) /\
  (forall fpath id,
     is_collection_id id = true -> str_contains (id +:+ "-") fpath = true ->
     exists prefix, found_prefix fpath = Some prefix) /\
  (forall (d : list (string * collection)) (incomplete_ids : list string) prefix,
     prefix ∉ d.*1 ->
     group_prefix ntf_fpaths rpc_fpaths info_fpaths (d, incomplete_ids) prefix =
     if is_complete (record prefix)
     then ([], Ok (d ++ [(prefix, record prefix)], incomplete_ids))
     else ([LogWarning (skip_message prefix)], Ok (d, incomplete_ids ++ [prefix]))) /\
  (forall prefix (m : modality),
     let files := modality_files m (record prefix) in
     let last_of fpaths :=
       last (filter (fun fpath => Is_true (belongs_to m prefix fpath)) fpaths) in
     files !! "image" = last_of ntf_fpaths /\
     files !! "rpc" = last_of rpc_fpaths /\
     files !! "info" = last_of info_fpaths /\
     (forall key, key <> "image" -> key <> "rpc" -> key <> "info" ->
                  files !! key = None)).
Proof.
  intros ntf_fpaths info_fpaths rpc_fpaths record.
  split; [intros; apply walk_with_ext_elem |].
  split.
  { intros prefix. rewrite collect_prefixes_elem. split; [| auto].
    intros [H | H]; [| exact H]. apply not_elem_of_empty in H. contradiction. }
  split; [apply found_prefix_shape |].
  split; [apply found_prefix_complete |].
  split; [intros; apply group_prefix_spec; assumption |].
  intros prefix m. apply classified_lookup.
Qed.

(** The rpc file of the msi modality of the second collection of the
    example, and the shape of its identifier. *)
Lemma classifier_records_witness :
  modality_files Msi
    (classified (walk_with_ext example_imagery_walk ".ntf")
                (walk_with_ext example_rpc_walk ".rpc")
                (walk_with_ext example_imagery_walk ".tar") "13ABC34567890")
    !! "rpc" = Some "/data/rpc/13ABC34567890-M1BS-1.rpc" /\
  is_collection_id "13ABC34567890" = true.
Proof.
  destruct (classifier_records example_imagery_walk example_rpc_walk)
    as (_ & _ & Hshape & _ & _ & Hfiles).
  split.
  - destruct (Hfiles "13ABC34567890" Msi) as (_ & -> & _). vm_compute. reflexivity.
  - apply (Hshape "/data/img/13ABC34567890-M1BS-1.ntf" "13ABC34567890").
    vm_compute. reflexivity.
Defined.

(** C10 as stated fails: the archive and the rpc file of a collection carry
    its identifier, yet without an image of it no record is made, and the
    identifier is not even listed as incomplete. *)
Lemma archive_without_image_gives_no_record :
  found_prefix "/data/img/12ABC34567890-P1BS-1.tar" = Some "12ABC34567890" /\
  "/data/img/12ABC34567890-P1BS-1.tar" ∈ walk_with_ext archive_only_walk ".tar" /\
  find_collections archive_only_walk archive_only_rpc_walk = ([], Ok ([], [])).
Proof.
  split; [vm_compute; reflexivity |]. split; [vm_compute; left | reflexivity].
Qed.

(** ** Layers of a vector file *)

Section LayerFacts.
Variable Layer : Type.
Variable GetGeomType : Layer -> Z.

(** The loop leaves at the first layer of the type asked for, with its
    index. *)
Lemma ogr_layer_loop_match (layers : list Layer) (geometryType : Z) (i : nat)
    (layer : Layer) (i0 : nat) (bound : option (nat * Layer)) :
  layers !! i = Some layer ->
  GetGeomType layer = geometryType ->
  (forall j l, (j < i)%nat -> layers !! j = Some l -> GetGeomType l <> geometryType) ->
  ogr_layer_loop Layer GetGeomType layers i0 geometryType bound = Some ((i0 + i)%nat, layer).
Proof.
  revert i i0 bound. induction layers as [| l0 layers IH]; intros i i0 bound Hi Ht Hbefore.
  - discriminate.
  - destruct i as [| i]; cbn [ogr_layer_loop].
    + injection Hi as ->. rewrite Ht, Z.eqb_refl, Nat.add_0_r. reflexivity.
    + assert (H0 : GetGeomType l0 <> geometryType)
        by (apply (Hbefore 0%nat); [lia | reflexivity]).
      apply Z.eqb_neq in H0. rewrite H0.
      rewrite (IH i (S i0) (Some (i0, l0)) Hi Ht).
      * f_equal. f_equal. lia.
      * intros j l Hj Hl. apply (Hbefore (S j)); [lia | exact Hl].
Qed.

(** Without a layer of the type asked for, the loop runs to its end: the
    variables hold the last index and the last layer. *)
Lemma ogr_layer_loop_no_match (layers : list Layer) (geometryType : Z) (i0 : nat)
    (bound : option (nat * Layer)) :
  (forall l, l ∈ layers -> GetGeomType l <> geometryType) ->
  ogr_layer_loop Layer GetGeomType layers i0 geometryType bound =
  match last layers with
  | Some l => Some ((i0 + length layers - 1)%nat, l)
  | None => bound
  end.
Proof.
  revert i0 bound. induction layers as [| l0 layers IH]; intros i0 bound Hno.
  - reflexivity.
  - cbn [ogr_layer_loop].
    assert (H0 : GetGeomType l0 <> geometryType) by (apply Hno; left).
    apply Z.eqb_neq in H0. rewrite H0.
    rewrite IH by (intros l Hl; apply Hno; right; exact Hl).
    rewrite last_cons. destruct (last layers) as [l |] eqn:E.
    + f_equal. f_equal. cbn [length]. lia.
    + apply last_None in E. subst layers. f_equal. f_equal. cbn [length]. lia.
Qed.

(** When the vector file holds a layer of the geometry type asked for,
    [ogr_get_layer] returns the first such layer. *)
Theorem ogr_get_layer_first_match (vectorFile : list Layer) (geometryType : Z)
    (i : nat) (layer : Layer) :
  vectorFile !! i = Some layer ->
  GetGeomType layer = geometryType ->
  (forall j l, (j < i)%nat -> vectorFile !! j = Some l ->
               GetGeomType l <> geometryType) ->
  ogr_get_layer Layer GetGeomType vectorFile geometryType = Returns layer.
Proof.
  intros Hi Ht Hbefore. unfold ogr_get_layer.
  rewrite (ogr_layer_loop_match _ _ i layer 0 None Hi Ht Hbefore).
  apply lookup_lt_Some in Hi.
  destruct (Nat.eqb_spec (0 + i) (length vectorFile)) as [E | _]; [lia | reflexivity].
Qed.

(** When no layer has the geometry type asked for, [ogr_get_layer] does not
    raise the [RuntimeError] of line 111: the loop index stops one short of
    [layerCount], and the last layer of the file is returned, whatever its
    type; on a file without layers the test itself fails, on the unbound
    variable [i].  In no case at all is the [RuntimeError] raised. *)
Theorem ogr_get_layer_without_match (vectorFile : list Layer) (geometryType : Z) :
  (forall l, l ∈ vectorFile -> GetGeomType l <> geometryType) ->
  ogr_get_layer Layer GetGeomType vectorFile geometryType =
  match last vectorFile with
  | Some l => Returns l
  | None => Raises UnboundLocalError
  end.
Proof.
  intros Hno. unfold ogr_get_layer.
  rewrite (ogr_layer_loop_no_match _ _ 0 None Hno).
  destruct (last vectorFile) as [l |] eqn:E; [| reflexivity].
  assert (Hlen : (0 < length vectorFile)%nat).
  { destruct vectorFile; [discriminate | cbn [length]; lia]. }
  destruct (Nat.eqb_spec (0 + length vectorFile - 1) (length vectorFile)) as [E' | _];
    [lia | reflexivity].
Qed.

(** The index that the loop leaves in [i] is below the number of layers. *)
Lemma ogr_layer_loop_index (layers : list Layer) (geometryType : Z) (i0 i : nat)
    (bound : option (nat * Layer)) (layer : Layer) :
  ogr_layer_loop Layer GetGeomType layers i0 geometryType bound = Some (i, layer) ->
  (forall j l, bound = Some (j, l) -> (j < i0)%nat) ->
  (i < i0 + length layers)%nat.
Proof.
  revert i0 bound. induction layers as [| l0 layers IH]; intros i0 bound Hloop Hb.
  - cbn in Hloop. apply Hb in Hloop. cbn [length]. lia.
  - cbn [ogr_layer_loop] in Hloop. cbn [length].
    destruct (GetGeomType l0 =? geometryType)%Z.
    + injection Hloop as <- _. lia.
    + apply IH in Hloop; [lia |]. intros j l [= <- _]. lia.
Qed.

(** [ogr_get_layer] never raises the [RuntimeError] that line 111 holds
    for a file without a layer of the type asked for. *)
Theorem ogr_get_layer_never_reports (vectorFile : list Layer) (geometryType : Z) :
  ogr_get_layer Layer GetGeomType vectorFile geometryType <> Raises (Exn RuntimeError).
Proof.
  unfold ogr_get_layer.
  destruct (ogr_layer_loop Layer GetGeomType vectorFile 0 geometryType None)
    as [[i layer] |] eqn:E; [| discriminate].
  apply ogr_layer_loop_index in E; [| discriminate].
  destruct (Nat.eqb_spec i (length vectorFile)) as [E' | _]; [lia | discriminate].
Qed.

End LayerFacts.

(** Of two layers of types 1 and 3, the layer of type 3 is returned. *)
Lemma ogr_get_layer_first_match_witness :
  ogr_get_layer (string * Z) snd [("points", 1%Z); ("polygons", 3%Z)] 3 =
  Returns ("polygons", 3%Z).
Proof.
  apply (ogr_get_layer_first_match (string * Z) snd
           [("points", 1%Z); ("polygons", 3%Z)] 3 1 ("polygons", 3%Z)).
  - reflexivity.
  - reflexivity.
  - intros j l Hj Hl. destruct j as [| j]; [| lia].
    injection Hl as <-. discriminate.
Defined.

(** Asked for a layer of type 2, the same file gives its last layer. *)
Lemma ogr_get_layer_without_match_witness :
  ogr_get_layer (string * Z) snd [("points", 1%Z); ("polygons", 3%Z)] 2 =
  Returns ("polygons", 3%Z).
Proof.
  apply (ogr_get_layer_without_match (string * Z) snd
           [("points", 1%Z); ("polygons", 3%Z)] 2).
  intros l Hl.
  apply elem_of_cons in Hl as [-> | Hl]; [discriminate |].
  apply elem_of_cons in Hl as [-> | Hl]; [discriminate |].
  inversion Hl.
Defined.

(** ** Saving arrays *)

Section SaveFacts.
Variable ndarray : Type.
Variable shape : ndarray -> list Z.

Lemma write_bands_length (arr : list ndarray) (i : nat) :
  length (write_bands ndarray arr i) = length arr.
Proof.
  revert i. induction arr as [| a arr IH]; intros i; [reflexivity |].
  cbn [write_bands length]. rewrite IH. reflexivity.
Qed.

Lemma write_bands_lookup (arr : list ndarray) (i k : nat) :
  write_bands ndarray arr i !! k = WriteArray (i + k + 1) <$> arr !! k.
Proof.
  revert i k. induction arr as [| a arr IH]; intros i k; [reflexivity |].
  destruct k as [| k]; cbn [write_bands lookup list_lookup].
  - rewrite Nat.add_0_r. reflexivity.
  - change (write_bands ndarray arr (S i) !! k = WriteArray (i + S k + 1) <$> arr !! k).
    rewrite IH. do 2 f_equal. lia.
Qed.

(** With a driver that supports [Create], [gdal_save] of a list of arrays
    creates one file of as many bands as the list has arrays, of the width
    and height of the first array, copies the metadata of the source file
    and then writes array number [i] of the list, counted from 0, to band
    [i + 1]: every array once, in the order of the list.  One array alone is
    saved as the list of that array. *)
Theorem gdal_save_writes_every_band (arr : list ndarray) (arr0 : ndarray)
    (xsize ysize : Z) (dims : list Z) (filename : string) (eType : Z)
    (options : list string) :
  arr !! 0%nat = Some arr0 ->
  shape arr0 = ysize :: xsize :: dims ->
  (exists writes : list (gdal_op ndarray),
     gdal_save ndarray shape (inr arr) (Some "YES") filename eType options =
     (Create filename xsize ysize (length arr) eType options
        :: CopyDatasetInfo :: writes, Ok tt) /\
     length writes = length arr /\
     forall (i : nat) (a : ndarray),
       arr !! i = Some a <-> writes !! i = Some (WriteArray (i + 1) a)) /\
  (forall a : ndarray,
     gdal_save ndarray shape (inl a) (Some "YES") filename eType options =
     gdal_save ndarray shape (inr [a]) (Some "YES") filename eType options).
Proof.
  intros H0 Hshape. split; [| reflexivity].
  exists (write_bands ndarray arr 0). split; [| split].
  - unfold gdal_save. rewrite bool_decide_eq_true_2 by reflexivity.
    cbn [negb]. rewrite H0, Hshape. reflexivity.
  - apply write_bands_length.
  - intros i a. rewrite write_bands_lookup. cbn [Nat.add]. split.
    + intros ->. reflexivity.
    + destruct (arr !! i) as [a' |]; [| discriminate].
      intros [= E]. rewrite E. reflexivity.
Qed.

(** Whenever [gdal_save] raises, it has created and written nothing; it
    raises [RuntimeError] exactly for a driver without the [Create]
    capability, whatever the arrays, and otherwise [IndexError] exactly for
    an empty list of arrays or a first array of fewer than two dimensions. *)
Theorem gdal_save_failures (arr : ndarray + list ndarray)
    (dcap_create : option string) (filename : string) (eType : Z)
    (options : list string) :
  let r := gdal_save ndarray shape arr dcap_create filename eType options in
  let arrays := match arr with inr l => l | inl a => [a] end in
  (r.2 = Raise RuntimeError <-> dcap_create <> Some "YES"%string) /\
  (r.2 = Raise IndexError <->
   dcap_create = Some "YES"%string /\
   match arrays with
   | [] => True
   | arr0 :: _ => (length (shape arr0) < 2)%nat
   end) /\
  (forall e, r.2 = Raise e -> r.1 = []) /\
  (r.2 = Ok tt \/ r.2 = Raise RuntimeError \/ r.2 = Raise IndexError).
Proof.
  cbv zeta. unfold gdal_save.
  set (arrays := match arr with inr l => l | inl a => [a] end).
  replace (match arr with inr arr0 => (length arr0, arr0) | inl arr0 => (1%nat, [arr0]) end)
    with (match arr with inr l => length l | inl _ => 1%nat end, arrays)
    by (destruct arr; reflexivity).
  cbv beta iota.
  destruct (decide (dcap_create = Some "YES"%string)) as [Hd | Hd].
  - rewrite bool_decide_eq_true_2 by exact Hd. cbn [negb].
    destruct arrays as [| arr0 rest]; cbn [lookup list_lookup].
    + cbn [fst snd]. intuition (try congruence; auto).
    + destruct (shape arr0) as [| ysize [| xsize dims]];
        cbn [lookup list_lookup length fst snd];
        intuition (try congruence; try lia; auto).
  - rewrite bool_decide_eq_false_2 by exact Hd. cbn [negb fst snd].
    intuition (try congruence; auto).
Qed.

End SaveFacts.

(** Two arrays of 3 lines by 5 columns, an array being here its shape:
    a file of width 5 and height 3 with two bands. *)
Lemma gdal_save_writes_every_band_witness :
  exists writes : list (gdal_op (list Z)),
    gdal_save (list Z) (fun a => a) (inr [[3; 5]; [3; 5]]%Z) (Some "YES")
              "out.tif" 1 [] =
    (Create "out.tif" 5 3 2 1 [] :: CopyDatasetInfo :: writes, Ok tt) /\
    length writes = 2%nat.
Proof.
  destruct (gdal_save_writes_every_band (list Z) (fun a => a) [[3; 5]; [3; 5]]%Z
              [3; 5]%Z 5 3 [] "out.tif" 1 [] eq_refl eq_refl)
    as [(writes & Hsave & Hlen & _) _].
  exists writes. split; [exact Hsave | exact Hlen].
Defined.

(** ** Whole turns of longitude and latitude *)

Section Turns.
Local Open Scope Q_scope.

Lemma Qtrunc_comp (x y : Q) : x == y -> Qtrunc x = Qtrunc y.
Proof.
  intros E. destruct (Qlt_le_dec x 0) as [Hneg | Hpos].
  - rewrite !Qtrunc_nonpos by lra. apply Qceiling_comp, E.
  - rewrite !Qtrunc_nonneg by lra. apply Qfloor_comp, E.
Qed.

Lemma Qfloor_unique (x : Q) (n : Z) :
  inject_Z n <= x -> x < inject_Z (n + 1) -> Qfloor x = n.
Proof.
  intros Hlo Hhi.
  assert (H1 : (Qfloor x < n + 1)%Z) by (apply Qfloor_lt, Hhi).
  assert (H2 : (n <= Qfloor x)%Z).
  { rewrite <- (Qfloor_Z n). apply Qfloor_resp_le, Hlo. }
  lia.
Qed.

Lemma Qfloor_succ (x : Q) : Qfloor (x + 1) = (Qfloor x + 1)%Z.
Proof.
  pose proof (Qfloor_le x) as Hlo. pose proof (Qlt_floor x) as Hhi.
  apply Qfloor_unique.
  - rewrite inject_Z_plus. change (inject_Z 1) with 1. lra.
  - rewrite !inject_Z_plus in *. change (inject_Z 1) with 1 in *. lra.
Qed.

(** [math.fmod] of a non-negative float is unchanged by one more period. *)
Lemma fmod_period (x y : Q) : 0 <= x -> 0 < y -> fmod (x + y) y == fmod x y.
Proof.
  intros Hx Hy. unfold fmod.
  assert (Hq : 0 <= x / y) by (apply Qle_shift_div_l; [exact Hy | lra]).
  assert (E : (x + y) / y == x / y + 1) by (field; lra).
  rewrite (Qtrunc_comp _ _ E).
  rewrite (Qtrunc_nonneg (x / y + 1)) by lra.
  rewrite (Qtrunc_nonneg (x / y)) by exact Hq.
  rewrite Qfloor_succ, inject_Z_plus. change (inject_Z 1) with 1. ring.
Qed.

(** [math.fmod] leaves a float of [[0, y)] as it is. *)
Lemma fmod_small (x y : Q) : 0 <= x < y -> fmod x y == x.
Proof.
  intros [Hx Hy]. unfold fmod.
  assert (Hq0 : 0 <= x / y) by (apply Qle_shift_div_l; lra).
  assert (Hq1 : x / y < 1) by (apply Qlt_shift_div_r; lra).
  rewrite (Qtrunc_nonneg _ Hq0).
  rewrite (Qfloor_unique (x / y) 0);
    [| change (inject_Z 0) with 0; lra | change (inject_Z (0 + 1)) with 1; lra].
  change (inject_Z 0) with 0. ring.
Qed.

Lemma normalize_lon_small (lon : Q) : -180 <= lon < 180 -> normalize_lon lon == lon.
Proof.
  intros H. unfold normalize_lon. rewrite fmod_small by lra. ring.
Qed.

Lemma normalize_lat_small (lat : Q) : -90 <= lat < 90 -> normalize_lat lat == lat.
Proof.
  intros H. unfold normalize_lat. rewrite fmod_small by lra. ring.
Qed.

Lemma Qlt_bool_comp (x x' y y' : Q) :
  x == x' -> y == y' -> Qlt_bool x y = Qlt_bool x' y'.
Proof. intros Ex Ey. unfold Qlt_bool. rewrite Ex, Ey. reflexivity. Qed.

Lemma Qle_bool_comp (x x' y y' : Q) :
  x == x' -> y == y' -> Qle_bool x y = Qle_bool x' y'.
Proof. intros Ex Ey. rewrite Ex, Ey. reflexivity. Qed.

(** The zone depends on the values of the coordinates, not on the fractions
    that stand for them. *)
Lemma utm_zone_number_comp (lon lon' lat lat' : Q) :
  lon == lon' -> lat == lat' -> utm_zone_number lon lat = utm_zone_number lon' lat'.
Proof.
  intros Elon Elat. unfold utm_zone_number.
  rewrite (Qtrunc_comp lon lon' Elon).
  rewrite !(Qle_bool_comp _ _ lat lat' (Qeq_refl _) Elat).
  rewrite !(Qle_bool_comp lat lat' _ _ Elat (Qeq_refl _)).
  rewrite !(Qlt_bool_comp lat lat' _ _ Elat (Qeq_refl _)).
  rewrite !(Qle_bool_comp _ _ lon lon' (Qeq_refl _) Elon).
  rewrite !(Qlt_bool_comp lon lon' _ _ Elon (Qeq_refl _)).
  reflexivity.
Qed.

Lemma compute_utm_zone_comp (lon lon' lat lat' : Q) :
  normalize_lon lon == normalize_lon lon' ->
  normalize_lat lat == normalize_lat lat' ->
  compute_utm_zone lon lat = compute_utm_zone lon' lat'.
Proof.
  intros Elon Elat. unfold compute_utm_zone. cbv zeta.
  rewrite (utm_zone_number_comp _ _ _ _ Elon Elat).
  rewrite (Qlt_bool_comp 0 0 _ _ (Qeq_refl _) Elat).
  reflexivity.
Qed.

Lemma fmod_comp (x x' y : Q) : x == x' -> fmod x y == fmod x' y.
Proof.
  intros E. unfold fmod.
  assert (E' : x / y == x' / y) by (rewrite E; reflexivity).
  rewrite (Qtrunc_comp _ _ E'), E. reflexivity.
Qed.

Lemma normalize_lon_comp (lon lon' : Q) :
  lon == lon' -> normalize_lon lon == normalize_lon lon'.
Proof.
  intros E. unfold normalize_lon.
  rewrite (fmod_comp (lon + 180) (lon' + 180)) by (rewrite E; reflexivity).
  reflexivity.
Qed.

Lemma normalize_lat_comp (lat lat' : Q) :
  lat == lat' -> normalize_lat lat == normalize_lat lat'.
Proof.
  intros E. unfold normalize_lat.
  rewrite (fmod_comp (lat + 90) (lat' + 90)) by (rewrite E; reflexivity).
  reflexivity.
Qed.

Lemma normalize_lon_turn (lon : Q) :
  -180 <= lon -> normalize_lon (lon + 360) == normalize_lon lon.
Proof.
  intros H. unfold normalize_lon.
  rewrite (fmod_comp (lon + 360 + 180) (lon + 180 + 360)) by ring.
  rewrite fmod_period by lra. reflexivity.
Qed.

Lemma normalize_lat_turn (lat : Q) :
  -90 <= lat -> normalize_lat (lat + 180) == normalize_lat lat.
Proof.
  intros H. unfold normalize_lat.
  rewrite (fmod_comp (lat + 180 + 90) (lat + 90 + 180)) by ring.
  rewrite fmod_period by lra. reflexivity.
Qed.

Lemma inject_nat_nonneg (n : nat) : 0 <= inject_Z (Z.of_nat n).
Proof. change 0 with (inject_Z 0). rewrite <- Zle_Qle. lia. Qed.

Lemma inject_nat_succ (n : nat) :
  inject_Z (Z.of_nat (S n)) == inject_Z (Z.of_nat n) + 1.
Proof.
  rewrite Nat2Z.inj_succ. unfold Z.succ. rewrite inject_Z_plus. reflexivity.
Qed.

(** For a longitude not below -180 and a latitude not below -90,
    [compute_utm_zone] gives the same answer after any number of whole
    turns: 360 degrees added to the longitude, 180 degrees added to the
    latitude.  A latitude beyond the pole is therefore not refused as such:
    latitude 100 is answered as latitude -80. *)
Theorem utm_zone_whole_turns (lon lat : Q) (turns half_turns : nat) :
  -180 <= lon -> -90 <= lat ->
  compute_utm_zone (lon + 360 * inject_Z (Z.of_nat turns))
                   (lat + 180 * inject_Z (Z.of_nat half_turns)) =
  compute_utm_zone lon lat.
Proof.
  intros Hlon Hlat. apply compute_utm_zone_comp.
  - clear Hlat. induction turns as [| n IH].
    + apply normalize_lon_comp. change (inject_Z (Z.of_nat 0)) with 0. ring.
    + rewrite <- IH.
      pose proof (inject_nat_nonneg n) as Hn.
      rewrite <- (normalize_lon_turn (lon + 360 * inject_Z (Z.of_nat n))) by nra.
      apply normalize_lon_comp. rewrite inject_nat_succ. ring.
  - clear Hlon. induction half_turns as [| n IH].
    + apply normalize_lat_comp. change (inject_Z (Z.of_nat 0)) with 0. ring.
    + rewrite <- IH.
      pose proof (inject_nat_nonneg n) as Hn.
      rewrite <- (normalize_lat_turn (lat + 180 * inject_Z (Z.of_nat n))) by nra.
      apply normalize_lat_comp. rewrite inject_nat_succ. ring.
Qed.

(** Every zone from 1 to 60 is returned: on the band of latitudes from -80
    up to 56, below the two exception areas, the meridian 6 (z - 1) - 180
    lies in zone [z], in the northern hemisphere for a latitude above 0 and
    in the southern otherwise. *)
Theorem utm_zone_western_meridian (zone : Z) (lat : Q) :
  (1 <= zone <= 60)%Z -> -80 <= lat < 56 ->
  compute_utm_zone (inject_Z (6 * (zone - 1) - 180)) lat =
  Ok (zone, if Qlt_bool 0 lat then "N"%string else "S"%string).
Proof.
  intros Hz Hlat.
  set (n := (6 * (zone - 1) - 180)%Z).
  assert (Hn : -180 <= inject_Z n < 180).
  { change (-180) with (inject_Z (-180)). change 180 with (inject_Z 180).
    rewrite <- Zle_Qle, <- Zlt_Qlt. unfold n. lia. }
  pose proof (normalize_lon_small (inject_Z n) Hn) as Elon.
  assert (Elat : normalize_lat lat == lat) by (apply normalize_lat_small; lra).
  assert (Hzone : utm_zone_number (normalize_lon (inject_Z n)) (normalize_lat lat) = zone).
  { rewrite (utm_zone_number_comp _ _ _ _ Elon Elat).
    rewrite general_zone by lra.
    assert (Hint : inject_Z n == inject_Z (Qfloor (inject_Z n)))
      by (rewrite Qfloor_Z; reflexivity).
    destruct (general_zone_floor (inject_Z n)) as [-> _].
    { right. split; [lra | exact Hint]. }
    rewrite Qfloor_Z. unfold n.
    replace (6 * (zone - 1) - 180 + 180)%Z with ((zone - 1) * 6)%Z by lia.
    rewrite Z.div_mul by lia. lia. }
  rewrite (compute_utm_zone_ok _ _ zone Hzone) by lia.
  rewrite (Qlt_bool_comp 0 0 _ _ (Qeq_refl _) Elat). reflexivity.
Qed.

End Turns.

(** Latitude 100 is answered as latitude -80, on any longitude. *)
Lemma utm_zone_whole_turns_witness :
  compute_utm_zone (3 + 360 * inject_Z (Z.of_nat 0))
                   (-80 + 180 * inject_Z (Z.of_nat 1)) =
  compute_utm_zone 3 (-80).
Proof.
  apply (utm_zone_whole_turns 3 (-80) 0 1).
  - unfold Qle. simpl. lia.
  - unfold Qle. simpl. lia.
Defined.

(** Zone 60 starts on the meridian 174, here at latitude 10. *)
Lemma utm_zone_western_meridian_witness :
  compute_utm_zone (inject_Z (6 * (60 - 1) - 180)) 10 = Ok (60%Z, "N"%string).
Proof.
  apply (utm_zone_western_meridian 60 10).
  - lia.
  - split; [unfold Qle | unfold Qlt]; simpl; lia.
Defined.

(** ** The zone of an image file *)

Section ZoneOfFile.
Local Open Scope Q_scope.
Variable GCP : Type.
Variable GCPsToGeoTransform : list GCP -> option GeoTransform.
Variable Proj : Type.
Variable proj_of_wkt : string -> Proj.
Variable pyproj_transform : Proj -> Proj -> Q -> Q -> Q * Q.
Variable gdal_Open : string -> option (Raster GCP).
Variable longlat : Proj.

Local Abbreviation zone_of_file :=
  (gdal_get_utm_zone GCP GCPsToGeoTransform Proj proj_of_wkt pyproj_transform
     gdal_Open longlat).

Lemma gdal_get_utm_zone_midpoint (file_name : string) (img : Raster GCP)
    (projection : string) (transform : GeoTransform) :
  gdal_Open file_name = Some img ->
  georeference GCPsToGeoTransform img = Some (projection, transform) ->
  let pts := corners proj_of_wkt pyproj_transform img projection transform
               (Some longlat) in
  zone_of_file file_name =
  of_result (compute_utm_zone ((amin pts.*1 + amax pts.*1) / 2)
                              ((amin pts.*2 + amax pts.*2) / 2)).
Proof.
  intros Hopen Hgeo pts. unfold gdal_get_utm_zone, gdal_open. rewrite Hopen.
  rewrite (gdal_bounding_box_unfold _ _ _ _ _ _ (Some longlat) _ _ Hgeo).
  reflexivity.
Qed.

(** [gdal_get_utm_zone] raises [OSError] for a file that cannot be opened
    and [TypeError], from the unpacking of [None], for a raster that has
    neither a projection nor a geotransform to derive from its ground-control
    points; for every other raster it answers as [compute_utm_zone] does on
    the midpoint between the least and the greatest longitude, and between
    the least and the greatest latitude, of the four image corners
    reprojected to longitude and latitude. *)
Theorem gdal_get_utm_zone_outcomes (file_name : string) :
  (gdal_Open file_name = None -> zone_of_file file_name = Raises OSError) /\
  (forall img : Raster GCP,
     gdal_Open file_name = Some img ->
     (georeference GCPsToGeoTransform img = None ->
      zone_of_file file_name = Raises (Exn TypeError)) /\
     (forall (projection : string) (transform : GeoTransform),
        georeference GCPsToGeoTransform img = Some (projection, transform) ->
        let pts := corners proj_of_wkt pyproj_transform img projection transform
                     (Some longlat) in
        zone_of_file file_name =
        of_result (compute_utm_zone ((amin pts.*1 + amax pts.*1) / 2)
                                    ((amin pts.*2 + amax pts.*2) / 2)))).
Proof.
  split.
  - unfold gdal_get_utm_zone, gdal_open. intros ->. reflexivity.
  - intros img Hopen. split.
    + unfold gdal_get_utm_zone, gdal_open. rewrite Hopen.
      intros Hgeo. unfold gdal_bounding_box. rewrite Hgeo. reflexivity.
    + intros projection transform Hgeo.
      apply gdal_get_utm_zone_midpoint; assumption.
Qed.

(** An image file whose four corners, in longitude and latitude, all lie
    between the meridians -180 and 180 and between the parallels -80 and 84
    has a zone: [gdal_get_utm_zone] returns a zone from 1 to 60 and raises
    nothing. *)
Theorem gdal_get_utm_zone_in_band (file_name : string) (img : Raster GCP)
    (projection : string) (transform : GeoTransform) :
  gdal_Open file_name = Some img ->
  georeference GCPsToGeoTransform img = Some (projection, transform) ->
  Forall (fun p : Q * Q => (-180 <= p.1 < 180) /\ (-80 <= p.2 <= 84))
         (corners proj_of_wkt pyproj_transform img projection transform
            (Some longlat)) ->
  exists (zone : Z) (hemisphere : string),
    zone_of_file file_name = Returns (zone, hemisphere) /\ (1 <= zone <= 60)%Z.
Proof.
  intros Hopen Hgeo Hall.
  rewrite (gdal_get_utm_zone_midpoint file_name img projection transform Hopen Hgeo).
  cbv zeta.
  set (pts := corners proj_of_wkt pyproj_transform img projection transform
                (Some longlat)) in *.
  assert (Hne : pts <> []) by (unfold pts, corners; discriminate).
  assert (Hx : forall x, x ∈ pts.*1 -> -180 <= x < 180).
  { intros x Hin. apply list_elem_of_fmap in Hin as (p & -> & Hp).
    rewrite Forall_forall in Hall. apply (Hall p Hp). }
  assert (Hy : forall y, y ∈ pts.*2 -> -80 <= y <= 84).
  { intros y Hin. apply list_elem_of_fmap in Hin as (p & -> & Hp).
    rewrite Forall_forall in Hall. apply (Hall p Hp). }
  assert (Hne1 : pts.*1 <> []) by (destruct pts; [congruence | discriminate]).
  assert (Hne2 : pts.*2 <> []) by (destruct pts; [congruence | discriminate]).
  pose proof (Hx _ (proj1 (amin_spec _ Hne1))) as Hminx.
  pose proof (Hx _ (proj1 (amax_spec _ Hne1))) as Hmaxx.
  pose proof (Hy _ (proj1 (amin_spec _ Hne2))) as Hminy.
  pose proof (Hy _ (proj1 (amax_spec _ Hne2))) as Hmaxy.
  set (lon := (amin pts.*1 + amax pts.*1) / 2) in *.
  set (lat := (amin pts.*2 + amax pts.*2) / 2) in *.
  assert (Hlon : -180 <= lon < 180).
  { assert (E : lon == (amin pts.*1 + amax pts.*1) * (1 # 2)) by (unfold lon; field).
    rewrite E. lra. }
  assert (Hlat : -80 <= lat <= 84).
  { assert (E : lat == (amin pts.*2 + amax pts.*2) * (1 # 2)) by (unfold lat; field).
    rewrite E. lra. }
  pose proof (normalize_lon_small lon Hlon) as Elon.
  assert (Elat : normalize_lat lat == lat) by (apply normalize_lat_small; lra).
  assert (Hzone : (1 <= utm_zone_number (normalize_lon lon) (normalize_lat lat) <= 60)%Z).
  { apply utm_zone_number_valid; [rewrite Elon | rewrite Elat]; assumption. }
  rewrite (compute_utm_zone_ok lon lat _ eq_refl) by lia.
  eexists _, _. split; [reflexivity | exact Hzone].
Qed.

End ZoneOfFile.

(** The raster of 10 by 10 pixels with origin (0,0) and pixel size (1,-1),
    its coordinates being longitudes and latitudes already: the four
    corners lie between the parallels -10 and 0. *)
Lemma gdal_get_utm_zone_in_band_witness :
  exists (zone : Z) (hemisphere : string),
    gdal_get_utm_zone unit (fun _ => None) unit (fun _ => tt)
      (fun (_ _ : unit) x y => (x, y)) (fun _ => Some example_raster) tt
      "image.tif" = Returns (zone, hemisphere) /\ (1 <= zone <= 60)%Z.
Proof.
  apply (gdal_get_utm_zone_in_band unit (fun _ => None) unit (fun _ => tt)
           (fun (_ _ : unit) x y => (x, y)) (fun _ => Some example_raster) tt
           "image.tif" example_raster "PROJCS"
           {| t0 := 0; t1 := 1; t2 := 0; t3 := 0; t4 := 0; t5 := -1 |}).
  - reflexivity.
  - reflexivity.
  - repeat (apply Forall_cons; split;
            [unfold Qle, Qlt; simpl; lia |]).
    apply Forall_nil. exact I.
Defined.

(** ** The groups of a match *)

Section MatcherGroups.
Context {A : Type}.


End MatcherGroups.

(** ** All outcomes of [read_offset] *)

Section ReadOffsetOutcomes.
Local Open Scope Q_scope.





(** [read_offset] writes the entries 0, 1 and 2 of the list before it opens
    the file: on a list of fewer than three entries it raises [IndexError],
    whatever the file holds. *)
Theorem read_offset_short_list (file : string) (offset : list Q) :
  (length offset < 3)%nat ->
  read_offset file offset = Raise IndexError.
Proof.
  intros Hlen.
  destruct offset as [| a [| b [| c rest]]]; [reflexivity .. |].
  cbn [length] in Hlen. lia.
Qed.

End ReadOffsetOutcomes.


(** A list of two entries. *)
Lemma read_offset_short_list_witness :
  read_offset header_offsets [0; 0]%Q = Raise IndexError.
Proof.
  apply (read_offset_short_list header_offsets [0; 0]%Q). simpl. lia.
Defined.

(** ** The working directory *)

Section WorkingDirOutcomes.
Variable realpath : string -> string.
Variable now_timestamp : string.
Variable os_walk : string -> list (string * list string).
Variable obliquity_angle : string -> Q.
Variable glob : string -> list string.

Lemma join_components_app (cs rest : list string) :
  cs <> [] ->
  join_components (cs ++ rest) =
  join_components cs +:+ foldr (fun c path => "/" +:+ c +:+ path) EmptyString rest.
Proof.
  intros Hne.
  assert (Hfold : forall cs : list string,
            foldr (fun c path => "/" +:+ c +:+ path) EmptyString (cs ++ rest) =
            foldr (fun c path => "/" +:+ c +:+ path) EmptyString cs
            +:+ foldr (fun c path => "/" +:+ c +:+ path) EmptyString rest).
  { clear. induction cs as [| c cs IH]; [reflexivity |].
    cbn [foldr app]. rewrite IH, !string_app_assoc. reflexivity. }
  destruct cs as [| c cs]; [congruence |].
  apply (Hfold (c :: cs)).
Qed.

(** The text of a canonical path contains the text of the canonical path of
    each directory above it, and its own. *)
Lemma nested_contains (working imagery : string) :
  canonical working -> canonical imagery ->
  equal_or_nested working imagery = true ->
  str_contains imagery working = true.
Proof.
  unfold canonical, equal_or_nested. intros Hw Hi Hnested.
  apply bool_decide_eq_true in Hnested as [rest Hrest].
  rewrite Hw, Hi, Hrest.
  destruct (path_components imagery) as [| c cs] eqn:E.
  - apply str_contains_prefix.
    cbn [app]. destruct rest as [| c rest]; [reflexivity |].
    unfold join_components. cbn [foldr]. apply prefix_app.
  - rewrite join_components_app by discriminate.
    apply str_contains_prefix, prefix_app.
Qed.

(** A configured working directory that is the imagery directory or lies
    inside it, both paths being resolved to canonical absolute paths, is
    never accepted: [create_working_dir] raises [ValueError], and [main]
    ends on it before it has looked for a file, logged a warning or called a
    stage. *)
Theorem working_dir_nested_is_rejected (cfg : config) (working_dir : string) :
  work_dir cfg = Some working_dir ->
  working_dir <> EmptyString ->
  canonical (realpath working_dir) ->
  canonical (realpath (imagery_dir cfg)) ->
  equal_or_nested (realpath working_dir) (realpath (imagery_dir cfg)) = true ->
  create_working_dir realpath now_timestamp (work_dir cfg) (imagery_dir cfg) =
  Raise ValueError /\
  main realpath now_timestamp os_walk obliquity_angle glob cfg =
  ([], Raise ValueError).
Proof.
  intros Hcfg Hne Hw Hi Hnested.
  assert (H : create_working_dir realpath now_timestamp (work_dir cfg) (imagery_dir cfg)
              = Raise ValueError).
  { rewrite Hcfg. unfold create_working_dir.
    destruct working_dir as [| c w]; [congruence |].
    rewrite (nested_contains _ _ Hw Hi Hnested). reflexivity. }
  split; [exact H |]. unfold main. rewrite H. reflexivity.
Qed.

End WorkingDirOutcomes.

(** The working directory [/data/img/work] inside the imagery directory
    [/data/img] of the example. *)
Lemma working_dir_nested_is_rejected_witness :
  main (fun p => p) "0" example_os_walk (fun _ => 20%Q) (fun _ => [])
    {| work_dir := Some "/data/img/work";
       imagery_dir := imagery_dir example_config;
       rpc_dir := rpc_dir example_config;
       p3d_fpath := p3d_fpath example_config;
       aoi_name := aoi_name example_config;
       aoi_bounds := aoi_bounds example_config;
       gsd := gsd example_config;
       osm_roads_shapefiles_dir := None;
       osm_roads_shapefiles_prefix := None;
       semantic_config_fpath := semantic_config_fpath example_config;
       semantic_model_fpath := semantic_model_fpath example_config;
       building_model_fpath_prefix := building_model_fpath_prefix example_config;
       material_model_fpath := material_model_fpath example_config;
       material_batch_size := None;
       material_cuda := false;
       roof_model_dir := roof_model_dir example_config;
       roof_model_prefix := roof_model_prefix example_config |} =
  ([], Raise ValueError).
Proof.
  eapply proj2.
  apply (working_dir_nested_is_rejected (fun p => p) "0" example_os_walk
           (fun _ => 20%Q) (fun _ => []) _ "/data/img/work").
  - reflexivity.
  - discriminate.
  - vm_compute. reflexivity.
  - vm_compute. reflexivity.
  - vm_compute. reflexivity.
Defined.

(** ** Dictionaries, any position *)

Section DictAnywhere.
Context {V : Type}.
Implicit Types (d : list (string * V)) (k : string) (v : V).

Lemma dict_set_keys d k v v0 :
  dict_get k d = Some v0 -> (dict_set k v d).*1 = d.*1.
Proof.
  induction d as [| [k' v'] d IH]; cbn [dict_get dict_set]; [discriminate |].
  destruct (decide (k = k')) as [-> | Hne]; [reflexivity |].
  intros H. cbn [fmap list_fmap fst]. f_equal. apply IH, H.
Qed.

Lemma dict_get_set_eq d k v : dict_get k (dict_set k v d) = Some v.
Proof.
  induction d as [| [k' v'] d IH]; cbn [dict_get dict_set].
  - rewrite decide_True by reflexivity. reflexivity.
  - destruct (decide (k = k')) as [-> | Hne]; cbn [dict_get].
    + rewrite decide_True by reflexivity. reflexivity.
    + rewrite decide_False by exact Hne. exact IH.
Qed.

Lemma dict_get_set_ne d k k' v :
  k' <> k -> dict_get k' (dict_set k v d) = dict_get k' d.
Proof.
  intros Hne. induction d as [| [k0 v0] d IH]; cbn [dict_get dict_set].
  - rewrite decide_False by exact Hne. reflexivity.
  - destruct (decide (k = k0)) as [-> | Hne0]; cbn [dict_get].
    + rewrite !decide_False by exact Hne. reflexivity.
    + destruct (decide (k' = k0)); [reflexivity | exact IH].
Qed.

Lemma dict_set_same d k v : dict_get k d = Some v -> dict_set k v d = d.
Proof.
  induction d as [| [k' v'] d IH]; cbn [dict_get dict_set]; [discriminate |].
  destruct (decide (k = k')) as [-> | Hne].
  - intros [= ->]. reflexivity.
  - intros H. f_equal. apply IH, H.
Qed.

Lemma dict_set_set d k v v' : dict_set k v' (dict_set k v d) = dict_set k v' d.
Proof.
  induction d as [| [k' v0] d IH]; cbn [dict_set].
  - rewrite decide_True by reflexivity. reflexivity.
  - destruct (decide (k = k')) as [-> | Hne]; cbn [dict_set].
    + rewrite decide_True by reflexivity. reflexivity.
    + rewrite decide_False by exact Hne. f_equal. exact IH.
Qed.

End DictAnywhere.

(** ** [classify_fpaths] on any dictionary *)

Section ClassifyAnywhere.
Implicit Types (d : list (string * collection)) (files : collection).

Lemma classify_fpaths_set (prefix file_type : string) (fpaths : list string)
    d files :
  dict_get prefix d = Some files ->
  classify_fpaths prefix fpaths d file_type =
  Ok (dict_set prefix (classify_files prefix fpaths file_type files) d).
Proof.
  revert d files. induction fpaths as [| fpath fpaths IH]; intros d files Hget.
  - cbn [classify_fpaths classify_files foldl].
    rewrite (dict_set_same _ _ _ Hget). reflexivity.
  - cbn [classify_fpaths].
    assert (Hstep :
      (if str_contains prefix fpath then
         if str_contains "-P1BS-" fpath then
           update_item prefix (set_pan <[file_type := fpath]>) d
         else if str_contains "-M1BS-" fpath then
           update_item prefix (set_msi <[file_type := fpath]>) d
         else if str_contains "-A1BS-" fpath then
           update_item prefix (set_swir <[file_type := fpath]>) d
         else Ok d
       else Ok d) =
      Ok (dict_set prefix (classify_fpath prefix file_type fpath files) d)).
    { unfold classify_fpath, update_item, getitem. rewrite Hget.
      cbn [mbind result_bind].
      repeat match goal with |- context [if ?b then _ else _] => destruct b end;
        try reflexivity; rewrite (dict_set_same _ _ _ Hget); reflexivity. }
    rewrite Hstep. cbn [mbind result_bind].
    rewrite (IH _ (classify_fpath prefix file_type fpath files))
      by apply dict_get_set_eq.
    rewrite dict_set_set. reflexivity.
Qed.

(** On a dictionary that holds an entry for [prefix], wherever it stands,
    [classify_fpaths] raises nothing; it leaves the keys and their order as
    they are, every other entry untouched, and in the entry of [prefix] the
    files of [fpaths] that carry the prefix, each under its modality. *)
Theorem classify_fpaths_entry (prefix file_type : string) (fpaths : list string)
    d files :
  dict_get prefix d = Some files ->
  exists d',
    classify_fpaths prefix fpaths d file_type = Ok d' /\
    d'.*1 = d.*1 /\
    dict_get prefix d' = Some (classify_files prefix fpaths file_type files) /\
    (forall k, k <> prefix -> dict_get k d' = dict_get k d) /\
    (forall (m : modality) (key : string),
       key <> file_type ->
       modality_files m (classify_files prefix fpaths file_type files) !! key =
       modality_files m files !! key).
Proof.
  intros Hget. eexists. split; [apply classify_fpaths_set, Hget |].
  split; [eapply dict_set_keys, Hget |].
  split; [apply dict_get_set_eq |].
  split; [intros k Hk; apply dict_get_set_ne, Hk |].
  intros m key Hkey. rewrite classify_files_lookup.
  rewrite decide_False by exact Hkey. reflexivity.
Qed.

(** On a dictionary without an entry for [prefix], [classify_fpaths] raises
    [KeyError] for the prefix as soon as one of the paths carries the prefix
    and the marker of a modality, and returns the dictionary as it is when
    none does. *)
Theorem classify_fpaths_missing_entry (prefix file_type : string)
    (fpaths : list string) d :
  dict_get prefix d = None ->
  ((exists fpath m, fpath ∈ fpaths /\ belongs_to m prefix fpath = true) ->
   classify_fpaths prefix fpaths d file_type = Raise (KeyError prefix)) /\
  ((forall fpath m, fpath ∈ fpaths -> belongs_to m prefix fpath = false) ->
   classify_fpaths prefix fpaths d file_type = Ok d).
Proof.
  intros Hget.
  assert (Hstep : forall fpath,
    (if str_contains prefix fpath then
       if str_contains "-P1BS-" fpath then
         update_item prefix (set_pan <[file_type := fpath]>) d
       else if str_contains "-M1BS-" fpath then
         update_item prefix (set_msi <[file_type := fpath]>) d
       else if str_contains "-A1BS-" fpath then
         update_item prefix (set_swir <[file_type := fpath]>) d
       else Ok d
     else Ok d) =
    if belongs_to Pan prefix fpath || belongs_to Msi prefix fpath
       || belongs_to Swir prefix fpath
    then Raise (KeyError prefix) else Ok d).
  { intros fpath. unfold update_item, getitem. rewrite Hget.
    cbn [mbind result_bind belongs_to]. unfold is_pan_of, is_msi_of, is_swir_of.
    repeat match goal with |- context [str_contains ?a ?b] =>
      destruct (str_contains a b) end; reflexivity. }
  split.
  - intros (fpath & m & Hin & Hm).
    induction fpaths as [| f fpaths IH]; [inversion Hin |].
    cbn [classify_fpaths]. rewrite Hstep.
    destruct (belongs_to Pan prefix f || belongs_to Msi prefix f
              || belongs_to Swir prefix f) eqn:E; [reflexivity |].
    cbn [mbind result_bind]. apply IH.
    apply elem_of_cons in Hin as [-> | Hin]; [| exact Hin].
    apply orb_false_iff in E as [E E3]. apply orb_false_iff in E as [E1 E2].
    destruct m; congruence.
  - intros Hnone. induction fpaths as [| f fpaths IH]; [reflexivity |].
    cbn [classify_fpaths]. rewrite Hstep.
    rewrite !Hnone by left. cbn [orb mbind result_bind].
    apply IH. intros fpath m Hin. apply Hnone. right. exact Hin.
Qed.

End ClassifyAnywhere.

(** The dictionary of two collections: the files of the second are filed
    in its entry, the first entry being left as it is. *)
Lemma classify_fpaths_entry_witness :
  exists d',
    classify_fpaths "13ABC34567890" ["/data/img/13ABC34567890-P1BS-1.ntf"]
      [("12ABC34567890", new_collection); ("13ABC34567890", new_collection)]
      "image" = Ok d' /\
    d'.*1 = ["12ABC34567890"; "13ABC34567890"] /\
    dict_get "12ABC34567890" d' = Some new_collection.
Proof.
  destruct (classify_fpaths_entry "13ABC34567890" "image"
              ["/data/img/13ABC34567890-P1BS-1.ntf"]
              [("12ABC34567890", new_collection); ("13ABC34567890", new_collection)]
              new_collection eq_refl)
    as (d' & Hrun & Hkeys & _ & Hother & _).
  exists d'. split; [exact Hrun |]. split; [exact Hkeys |].
  rewrite Hother by discriminate. reflexivity.
Defined.

(** A dictionary without the entry of the collection whose image is filed. *)
Lemma classify_fpaths_missing_entry_witness :
  classify_fpaths "13ABC34567890" ["/data/img/13ABC34567890-P1BS-1.ntf"]
    [("12ABC34567890", new_collection)] "image" =
  Raise (KeyError "13ABC34567890").
Proof.
  apply (classify_fpaths_missing_entry "13ABC34567890" "image"
           ["/data/img/13ABC34567890-P1BS-1.ntf"]
           [("12ABC34567890", new_collection)] eq_refl).
  exists "/data/img/13ABC34567890-P1BS-1.ntf", Pan.
  split; [left | vm_compute; reflexivity].
Defined.

(** ** The records of the collections *)

Section Records.
Variable imagery_walk rpc_walk : list (string * list string).

Local Abbreviation ntf_fpaths := (walk_with_ext imagery_walk ".ntf").
Local Abbreviation info_fpaths := (walk_with_ext imagery_walk ".tar").
Local Abbreviation rpc_fpaths := (walk_with_ext rpc_walk ".rpc").

(** Every file of the record of a collection is a file that was found, of
    the extension of its key, whose path carries the identifier of the
    collection and the marker of its modality: the image among the [.ntf]
    files of the imagery tree, the archive among its [.tar] files, the rpc
    file among the [.rpc] files of the rpc tree.  A record holds no other
    key. *)
Theorem record_files_belong (prefix : string) (m : modality) (key fpath : string) :
  modality_files m (classified ntf_fpaths rpc_fpaths info_fpaths prefix) !! key =
  Some fpath ->
  belongs_to m prefix fpath = true /\
  str_contains prefix fpath = true /\
  ((key = "image" /\ fpath ∈ ntf_fpaths) \/
   (key = "rpc" /\ fpath ∈ rpc_fpaths) \/
   (key = "info" /\ fpath ∈ info_fpaths)).
Proof.
  destruct (classified_lookup ntf_fpaths rpc_fpaths info_fpaths prefix m)
    as (Himage & Hrpc & Hinfo & Hother).
  intros Hkey.
  assert (Hlast : forall fpaths,
            last (filter (fun fpath => Is_true (belongs_to m prefix fpath)) fpaths)
            = Some fpath ->
            belongs_to m prefix fpath = true /\ fpath ∈ fpaths).
  { intros fpaths Hl. apply last_Some_elem_of, list_elem_of_filter in Hl as [Hb Hin].
    split; [apply Is_true_true, Hb | exact Hin]. }
  assert (Hcontains : belongs_to m prefix fpath = true ->
                      str_contains prefix fpath = true).
  { destruct m; cbn [belongs_to]; unfold is_pan_of, is_msi_of, is_swir_of;
      destruct (str_contains prefix fpath); cbn [andb]; intros H;
      (reflexivity || discriminate H). }
  destruct (decide (key = "image")) as [-> | Hn1].
  { rewrite Himage in Hkey. destruct (Hlast _ Hkey) as [Hb Hin]. auto 6. }
  destruct (decide (key = "rpc")) as [-> | Hn2].
  { rewrite Hrpc in Hkey. destruct (Hlast _ Hkey) as [Hb Hin]. auto 6. }
  destruct (decide (key = "info")) as [-> | Hn3].
  { rewrite Hinfo in Hkey. destruct (Hlast _ Hkey) as [Hb Hin]. auto 7. }
  rewrite (Hother key Hn1 Hn2 Hn3) in Hkey. discriminate.
Qed.

(** [find_collections] raises nothing.  In its result no identifier is
    kept twice and none is listed twice as incomplete; none is both kept and
    listed; every identifier, kept or listed, is one of two digits, three
    uppercase letters and eight digits; every record kept is complete; and
    the log holds the warnings of the identifiers listed, in their order,
    and nothing else. *)
Theorem find_collections_invariants :
  exists (d : list (string * collection)) (incomplete_ids : list string),
    find_collections imagery_walk rpc_walk =
    (LogWarning ∘ skip_message <$> incomplete_ids, Ok (d, incomplete_ids)) /\
    NoDup d.*1 /\ NoDup incomplete_ids /\
    (forall id, id ∈ d.*1 -> id ∉ incomplete_ids) /\
    (forall id, id ∈ d.*1 \/ id ∈ incomplete_ids -> is_collection_id id = true) /\
    (forall id files, (id, files) ∈ d ->
       files = classified ntf_fpaths rpc_fpaths info_fpaths id /\
       is_complete files = true).
Proof.
  eexists _, _. split; [apply find_collections_spec |].
  set (record := classified ntf_fpaths rpc_fpaths info_fpaths).
  set (prefixes := elements (collect_prefixes ntf_fpaths ∅)).
  assert (Hnd : NoDup prefixes) by apply NoDup_elements.
  assert (Hkeys : ((fun prefix => (prefix, record prefix)) <$>
                     filter (fun prefix => Is_true (is_complete (record prefix))) prefixes).*1
                  = filter (fun prefix => Is_true (is_complete (record prefix))) prefixes).
  { rewrite <- list_fmap_compose. apply list_fmap_id. }
  rewrite Hkeys.
  split; [apply NoDup_filter, Hnd |].
  split; [apply NoDup_filter, Hnd |].
  split.
  { intros id [Hc _]%list_elem_of_filter [Hn _]%list_elem_of_filter. contradiction. }
  split.
  { intros id Hid.
    assert (Hin : id ∈ prefixes).
    { destruct Hid as [Hid | Hid]; apply list_elem_of_filter in Hid as [_ Hid]; exact Hid. }
    apply elem_of_elements, collect_prefixes_elem in Hin as [Hin | (f & _ & Hf)].
    - apply not_elem_of_empty in Hin. contradiction.
    - apply found_prefix_shape in Hf as [Hshape _]. exact Hshape. }
  intros id files Hin.
  apply list_elem_of_fmap in Hin as (p & [= -> ->] & Hp).
  apply list_elem_of_filter in Hp as [Hc _].
  split; [reflexivity | apply Is_true_true, Hc].
Qed.

End Records.

(** The image of the pan modality of the first collection of the example. *)
Lemma record_files_belong_witness :
  belongs_to Pan "12ABC34567890" "/data/img/12ABC34567890-P1BS-1.ntf" = true /\
  str_contains "12ABC34567890" "/data/img/12ABC34567890-P1BS-1.ntf" = true.
Proof.
  destruct (record_files_belong example_imagery_walk example_rpc_walk
              "12ABC34567890" Pan "image" "/data/img/12ABC34567890-P1BS-1.ntf")
    as (Hb & Hc & _).
  - vm_compute. reflexivity.
  - split; assumption.
Defined.

(** ** The log of the stages *)

Section ForItemsLog.
Context {S V0 V : Type}.
Variable body : S -> string -> V -> run (S * V).

(** A loop whose body succeeds on every entry logs what the body logs for
    each entry, in the order of the entries; [pre] is what an earlier loop
    has made of the values. *)
Lemma for_items_explicit (pre : string -> V0 -> V)
    (logf : string -> V0 -> list event)
    (upd : S -> string -> V0 -> S) (g : string -> V0 -> V)
    (d : list (string * V0)) (st : S) :
  (forall st k v, (k, v) ∈ d ->
     body st k (pre k v) = (logf k v, Ok (upd st k v, g k v))) ->
  for_items body ((fun kv => (kv.1, pre kv.1 kv.2)) <$> d) st =
  (flat_map (fun kv => logf kv.1 kv.2) d,
   Ok (foldl (fun st kv => upd st kv.1 kv.2) st d,
       (fun kv => (kv.1, g kv.1 kv.2)) <$> d)).
Proof.
  revert st. induction d as [| [k v] d IH]; intros st Hbody; [reflexivity |].
  cbn [for_items mbind run_bind fmap list_fmap fst snd].
  rewrite (Hbody st k v) by left. cbn [mbind run_bind].
  change (list_fmap _ _ ?f d) with (f <$> d).
  rewrite IH by (intros st' k' v' Hin; apply Hbody; right; exact Hin).
  cbn [mbind run_bind flat_map foldl fst snd mret run_ret].
  rewrite app_nil_r. reflexivity.
Qed.

End ForItemsLog.

Lemma fmap_pair_id {V : Type} (d : list (string * V)) :
  (fun kv : string * V => (kv.1, kv.2)) <$> d = d.
Proof.
  induction d as [| [k v] d IH]; [reflexivity |].
  cbn [fmap list_fmap fst snd]. f_equal. exact IH.
Qed.

Lemma dict_get_fmap_value {V0 V : Type} (g : string -> V0 -> V)
    (d : list (string * V0)) (k : string) :
  dict_get k ((fun kv => (kv.1, g kv.1 kv.2)) <$> d) = g k <$> dict_get k d.
Proof.
  induction d as [| [k' v] d IH]; [reflexivity |].
  cbn [fmap list_fmap dict_get fst snd].
  destruct (decide (k = k')) as [-> | Hne]; [reflexivity | exact IH].
Qed.

Section StageTrace.
Variable obliquity_angle : string -> Q.
Variable glob : string -> list string.

Implicit Types (files : collection) (d : list (string * collection)).

Lemma orthorectify_explicit (working_dir dsm_file dtm_file collection_id : string)
    files (st : unit) :
  is_complete files = true ->
  orthorectify_collection working_dir dsm_file dtm_file st collection_id files =
  ([Call "orthorectify" (ortho_args working_dir dsm_file dtm_file (pan files));
    Call "orthorectify" (ortho_args working_dir dsm_file dtm_file (msi files))],
   Ok (st, orthorectified working_dir files)).
Proof.
  intros Hc. apply is_complete_iff in Hc as [([pi Hpi] & _ & _) ([mi Hmi] & _ & _)].
  unfold orthorectify_collection, orthorectified, ortho_args, ortho_path.
  rewrite (getkey_Some _ _ _ Hpi). cbn [lift mbind run_bind emit].
  change (msi (set_pan _ files)) with (msi files).
  rewrite (getkey_Some _ _ _ Hmi). cbn [lift mbind run_bind emit mret run_ret].
  rewrite Hpi, Hmi. cbn [default].
  destruct (truthy (pan files !! "rpc")), (truthy (msi files !! "rpc")); reflexivity.
Qed.

Lemma pansharpen_explicit (working_dir collection_id : string) files0
    (st : option Q * string) :
  is_complete files0 = true ->
  let files := orthorectified working_dir files0 in
  pansharpen_collection obliquity_angle working_dir st collection_id files =
  ([Call "subprocess.run"
      ["gdal_pansharpen.py"; ortho_path working_dir (pan files0);
       ortho_path working_dir (msi files0);
       pansharpened_path working_dir collection_id]],
   Ok (nadir_update collection_id
         (obliquity_angle (default EmptyString (pan files0 !! "image"))) st,
       set_pansharpened_fpath (pansharpened_path working_dir collection_id) files)).
Proof.
  intros Hc files. apply is_complete_iff in Hc as [([pi Hpi] & _ & _) _].
  unfold pansharpen_collection.
  assert (H1 : pan files !! "ortho_img_fpath" = Some (ortho_path working_dir (pan files0)))
    by apply lookup_insert_eq.
  assert (H2 : msi files !! "ortho_img_fpath" = Some (ortho_path working_dir (msi files0)))
    by apply lookup_insert_eq.
  assert (H3 : pan files !! "image" = Some pi).
  { unfold files, orthorectified. cbn [pan set_msi set_pan].
    rewrite lookup_insert_ne by discriminate. exact Hpi. }
  rewrite (getkey_Some _ _ _ H1), (getkey_Some _ _ _ H2).
  cbn [lift mbind run_bind emit].
  change (pan (set_pansharpened_fpath _ files)) with (pan files).
  rewrite (getkey_Some _ _ _ H3), Hpi.
  cbn [lift mbind run_bind emit mret run_ret default]. reflexivity.
Qed.

Lemma material_explicit (working_dir : string) files0
    (st : list string * list string) (collection_id : string) (p r : string) :
  is_complete files0 = true ->
  let files := set_rgb_fpath r (set_pansharpened_fpath p
                 (orthorectified working_dir files0)) in
  material_paths st collection_id files =
  ([], Ok ((st.1 ++ [ortho_path working_dir (msi files0)],
            st.2 ++ [default EmptyString (msi files0 !! "info")]), files)).
Proof.
  intros Hc files. apply is_complete_iff in Hc as [_ (_ & [mi Hmi] & _)].
  destruct st as [imgs infos].
  unfold material_paths. cbn [msi set_rgb_fpath set_pansharpened_fpath fst snd files].
  assert (H1 : msi (orthorectified working_dir files0) !! "ortho_img_fpath"
               = Some (ortho_path working_dir (msi files0))) by apply lookup_insert_eq.
  assert (H2 : msi (orthorectified working_dir files0) !! "info" = Some mi).
  { unfold orthorectified. cbn [msi set_msi set_pan].
    rewrite lookup_insert_ne by discriminate. exact Hmi. }
  rewrite (getkey_Some _ _ _ H1), (getkey_Some _ _ _ H2), Hmi. reflexivity.
Qed.

Lemma foldl_two_lists {X : Type} (f g : X -> string) (l : list X)
    (a b : list string) :
  foldl (fun st x => (st.1 ++ [f x], st.2 ++ [g x])) (a, b) l =
  (a ++ (f <$> l), b ++ (g <$> l)).
Proof.
  revert a b. induction l as [| x l IH]; intros a b; cbn [foldl fmap list_fmap].
  - rewrite !app_nil_r. reflexivity.
  - cbn [fst snd]. rewrite IH, <- !app_assoc. reflexivity.
Qed.

Lemma flat_map_nil {X Y : Type} (l : list X) :
  flat_map (fun _ : X => @nil Y) l = [].
Proof. induction l as [| x l IH]; [reflexivity | exact IH]. Qed.

(** The whole log of the stages on a non-empty set of complete
    collections. *)
Lemma run_stages_trace (cfg : config) (working_dir : string) d :
  d <> [] ->
  Forall (fun kv => is_complete kv.2 = true) d ->
  let dsm_file := path_join working_dir (aoi_name cfg +:+ "_P3D_DSM.tif") in
  let dtm_file := path_join working_dir (aoi_name cfg +:+ "_DTM.tif") in
  let id :=
    most_nadir
      ((fun kv : string * collection =>
          (kv.1, obliquity_angle (default EmptyString (pan kv.2 !! "image")))) <$> d) in
  exists roads rest : list string,
    run_stages obliquity_angle glob cfg working_dir d =
    (Call "generate_dsm"
       ([dsm_file; "-s"; p3d_fpath cfg; "--bounds"] ++ aoi_bounds cfg
        ++ ["--gsd"; gsd cfg])
     :: Call "fit_dtm" [dsm_file; dtm_file]
     :: flat_map (fun kv : string * collection =>
                    [Call "orthorectify" (ortho_args working_dir dsm_file dtm_file (pan kv.2));
                     Call "orthorectify" (ortho_args working_dir dsm_file dtm_file (msi kv.2))]) d
     ++ flat_map (fun kv : string * collection =>
                    [Call "subprocess.run"
                       ["gdal_pansharpen.py"; ortho_path working_dir (pan kv.2);
                        ortho_path working_dir (msi kv.2);
                        pansharpened_path working_dir kv.1]]) d
     ++ flat_map (fun kv : string * collection =>
                    [Call "msi_to_rgb" [pansharpened_path working_dir kv.1;
                                        rgb_path working_dir kv.1; "-b"]]) d
     ++ [Call "segment_by_height"
           ([dsm_file; dtm_file; path_join working_dir "threshold_CLS.tif";
             "--msi"; pansharpened_path working_dir id;
             "--ndvi"; path_join working_dir "ndvi.tif"] ++ roads);
         Call "kwsemantic_segment"
           [semantic_config_fpath cfg; semantic_model_fpath cfg;
            rgb_path working_dir id; dsm_file; dtm_file;
            pansharpened_path working_dir id; working_dir; "semantic"];
         Call "building_segmentation"
           ["--rgb_image"; rgb_path working_dir id;
            "--msi_image"; pansharpened_path working_dir id;
            "--dsm"; dsm_file; "--dtm"; dtm_file;
            "--model_path"; building_model_fpath_prefix cfg;
            "--save_dir"; working_dir; "--output_tif"];
         Call "material_classifier"
           (["--image_paths"] ++ ((fun kv => ortho_path working_dir (msi kv.2)) <$> d)
            ++ ["--info_paths"]
            ++ ((fun kv => default EmptyString (msi kv.2 !! "info")) <$> d)
            ++ rest);
         Call "roof_geon_extraction"
           ["--las"; p3d_fpath cfg;
            "--cls"; path_join working_dir "threshold_CLS.tif";
            "--dtm"; dtm_file;
            "--model_dir"; roof_model_dir cfg;
            "--model_prefix"; roof_model_prefix cfg;
            "--output_dir"; working_dir];
         Call "buildings_to_dsm"
           ([dtm_file; path_join working_dir "buildings_to_dsm_DSM.tif"]
            ++ ["--input_obj_paths"] ++ glob (working_dir +:+ "/*.obj"));
         Call "buildings_to_dsm"
           ([dtm_file; path_join working_dir "buildings_to_dsm_CLS.tif"; "--render_cls"]
            ++ ["--input_obj_paths"] ++ glob (working_dir +:+ "/*.obj"))],
     Ok tt).
Proof.
  intros Hne Hall dsm_file dtm_file id. rewrite Forall_forall in Hall.
  exists (if truthy (osm_roads_shapefiles_dir cfg)
             && truthy (osm_roads_shapefiles_prefix cfg)
          then ["--road-vector";
                path_join (default EmptyString (osm_roads_shapefiles_dir cfg))
                          (default EmptyString (osm_roads_shapefiles_prefix cfg) +:+ ".shx");
                "--road-rasterized";
                path_join working_dir "road_rasterized.tif";
                "--road-rasterized-bridge";
                path_join working_dir "road_rasterized_bridge.tif"]
          else []),
         (["--output_dir"; working_dir;
           "--model_path"; material_model_fpath cfg;
           "--outfile_prefix"; aoi_name cfg]
          ++ match material_batch_size cfg with
             | Some batch_size => ["--batch_size"; batch_size]
             | None => []
             end
          ++ if material_cuda cfg then ["--cuda"] else []).
  unfold run_stages. cbv zeta. cbn [mbind run_bind emit].
  fold dsm_file dtm_file.
  (* orthorectification *)
  rewrite <- (fmap_pair_id d) at 1.
  rewrite (for_items_explicit
             (orthorectify_collection working_dir dsm_file dtm_file)
             (fun _ v => v)
             (fun _ v => [Call "orthorectify" (ortho_args working_dir dsm_file dtm_file (pan v));
                          Call "orthorectify" (ortho_args working_dir dsm_file dtm_file (msi v))])
             (fun st _ _ => st) (fun _ v => orthorectified working_dir v) d tt)
    by (intros st k v Hin; apply orthorectify_explicit, (Hall (k, v) Hin)).
  cbn [mbind run_bind].
  (* pansharpening and selection *)
  rewrite (for_items_explicit
             (pansharpen_collection obliquity_angle working_dir)
             (fun _ v => orthorectified working_dir v)
             (fun k v => [Call "subprocess.run"
                            ["gdal_pansharpen.py"; ortho_path working_dir (pan v);
                             ortho_path working_dir (msi v);
                             pansharpened_path working_dir k]])
             (fun st k v =>
                nadir_update k (obliquity_angle (default EmptyString (pan v !! "image"))) st)
             (fun k v => set_pansharpened_fpath (pansharpened_path working_dir k)
                           (orthorectified working_dir v))
             d (None, EmptyString))
    by (intros st k v Hin; apply pansharpen_explicit, (Hall (k, v) Hin)).
  cbn [mbind run_bind].
  set (angles := (fun kv : string * collection =>
                    (kv.1, obliquity_angle (default EmptyString (pan kv.2 !! "image")))) <$> d)
    in *.
  assert (Hfold :
    foldl (fun st (kv : string * collection) =>
             nadir_update kv.1
               (obliquity_angle (default EmptyString (pan kv.2 !! "image"))) st)
          (None, EmptyString) d =
    foldl nadir_step (None, EmptyString) angles).
  { unfold angles. rewrite foldl_fmap. reflexivity. }
  rewrite Hfold.
  destruct (foldl nadir_step (None, EmptyString) angles) as [lowest id'] eqn:Efold.
  assert (Hid : id = id') by (unfold id, most_nadir; rewrite Efold; reflexivity).
  cbn [mbind run_bind].
  (* conversion to RGB *)
  rewrite (for_items_explicit (rgb_collection working_dir)
             (fun k v => set_pansharpened_fpath (pansharpened_path working_dir k)
                           (orthorectified working_dir v))
             (fun k _ => [Call "msi_to_rgb" [pansharpened_path working_dir k;
                                             rgb_path working_dir k; "-b"]])
             (fun st _ _ => st)
             (fun k v => (staged working_dir (k, v)).2) d tt)
    by (intros st k v _; reflexivity).
  cbn [mbind run_bind].
  (* the most nadir collection is one of the collections *)
  assert (Hkey : id' ∈ d.*1).
  { apply nadir_fold_key in Efold.
    - unfold angles in Efold. rewrite <- list_fmap_compose in Efold. exact Efold.
    - unfold angles. destruct d; [congruence | discriminate]. }
  destruct (dict_get id' d) as [files0 |] eqn:Eget;
    [| apply dict_get_None in Eget; contradiction].
  unfold getitem.
  rewrite !(dict_get_fmap_value (fun k v => (staged working_dir (k, v)).2)), Eget.
  cbn [fmap option_fmap option_map lift mbind run_bind].
  (* the paths of the material classifier *)
  rewrite (for_items_explicit material_paths
             (fun k v => (staged working_dir (k, v)).2)
             (fun _ _ => [])
             (fun st _ v => (st.1 ++ [ortho_path working_dir (msi v)],
                             st.2 ++ [default EmptyString (msi v !! "info")]))
             (fun k v => (staged working_dir (k, v)).2) d ([], []))
    by (intros st k v Hin; apply material_explicit, (Hall (k, v) Hin)).
  rewrite flat_map_nil.
  rewrite (foldl_two_lists (fun kv : string * collection => ortho_path working_dir (msi kv.2))
             (fun kv : string * collection => default EmptyString (msi kv.2 !! "info"))).
  cbn [mbind run_bind mret run_ret app].
  cbn [staged fst snd pansharpened_fpath rgb_fpath set_rgb_fpath set_pansharpened_fpath].
  rewrite <- Hid.
  destruct (truthy (osm_roads_shapefiles_dir cfg)
            && truthy (osm_roads_shapefiles_prefix cfg)),
    (material_batch_size cfg), (material_cuda cfg);
    repeat (rewrite <- app_assoc || rewrite <- app_comm_cons);
    rewrite ?app_nil_r; cbn [app]; reflexivity.
Qed.

Lemma tools_of_calls {X : Type} (f : X -> list event) (tools : list string)
    (l : list X) :
  (forall x, tool_of <$> f x = tools) ->
  tool_of <$> flat_map f l = mjoin (replicate (length l) tools).
Proof.
  intros Hf. induction l as [| x l IH]; [reflexivity |].
  cbn [flat_map length replicate mjoin list_join]. rewrite fmap_app, Hf, IH.
  reflexivity.
Qed.

Lemma join_replicate_one (n : nat) (t : string) :
  mjoin (replicate n [t]) = replicate n t.
Proof. induction n as [| n IH]; [reflexivity |]. cbn. f_equal. exact IH. Qed.

Lemma join_replicate_two (n : nat) (t : string) :
  mjoin (replicate n [t; t]) = replicate (2 * n) t.
Proof.
  induction n as [| n IH]; [reflexivity |].
  replace (2 * S n)%nat with (S (S (2 * n))) by lia.
  cbn [replicate mjoin list_join app]. f_equal. f_equal. exact IH.
Qed.

Lemma elem_of_flat_map {X Y : Type} (f : X -> list Y) (l : list X) (x : X) (y : Y) :
  x ∈ l -> y ∈ f x -> y ∈ flat_map f l.
Proof.
  intros Hx Hy. apply list_elem_of_In, in_flat_map.
  exists x. split; apply list_elem_of_In; assumption.
Qed.

Local Abbreviation angles_of d :=
  ((fun kv : string * collection =>
      (kv.1, obliquity_angle (default EmptyString (pan kv.2 !! "image")))) <$> d).

(** On a non-empty set of complete collections [run_stages] raises
    nothing and calls the tools in this order: the rendering of the surface
    model and the fitting of the terrain model; then orthorectification,
    twice for each collection; only then pansharpening, once for each
    collection; only then the conversion to RGB, once for each collection;
    then, once each, segmentation by height, semantic segmentation, building
    segmentation, material classification and roof geon extraction; last
    the two renderings of the buildings. *)
Theorem stages_in_order (cfg : config) (working_dir : string) d :
  d <> [] ->
  Forall (fun kv => is_complete kv.2 = true) d ->
  let r := run_stages obliquity_angle glob cfg working_dir d in
  r.2 = Ok tt /\
  tool_of <$> r.1 =
  ["generate_dsm"; "fit_dtm"]
  ++ replicate (2 * length d) "orthorectify"
  ++ replicate (length d) "subprocess.run"
  ++ replicate (length d) "msi_to_rgb"
  ++ ["segment_by_height"; "kwsemantic_segment"; "building_segmentation";
      "material_classifier"; "roof_geon_extraction";
      "buildings_to_dsm"; "buildings_to_dsm"].
Proof.
  intros Hne Hall r.
  destruct (run_stages_trace cfg working_dir d Hne Hall) as (roads & rest & Hrun).
  unfold r. rewrite Hrun. cbn [fst snd]. split; [reflexivity |].
  rewrite !fmap_cons, !fmap_app.
  rewrite (tools_of_calls _ ["orthorectify"; "orthorectify"]) by reflexivity.
  rewrite (tools_of_calls _ ["subprocess.run"]) by reflexivity.
  rewrite (tools_of_calls _ ["msi_to_rgb"]) by reflexivity.
  rewrite join_replicate_two, !join_replicate_one. reflexivity.
Qed.

(** The files of a collection go from stage to stage: the images of its
    pan and msi modalities are orthorectified, each with the surface and the
    terrain model and, when it has one, its rpc file; pansharpening reads
    the two images that orthorectification wrote for this collection, and
    the conversion to RGB reads the image that pansharpening wrote for
    it. *)
Theorem collection_artifacts_flow (cfg : config) (working_dir : string) d
    (collection_id : string) files :
  d <> [] ->
  Forall (fun kv => is_complete kv.2 = true) d ->
  (collection_id, files) ∈ d ->
  let log := (run_stages obliquity_angle glob cfg working_dir d).1 in
  let dsm_file := path_join working_dir (aoi_name cfg +:+ "_P3D_DSM.tif") in
  let dtm_file := path_join working_dir (aoi_name cfg +:+ "_DTM.tif") in
  exists (pan_image msi_image pan_ortho msi_ortho pansharpened : string)
         (pan_rpc msi_rpc : list string),
    pan files !! "image" = Some pan_image /\
    msi files !! "image" = Some msi_image /\
    Call "orthorectify"
      ([pan_image; dsm_file; pan_ortho; "--dtm"; dtm_file] ++ pan_rpc) ∈ log /\
    Call "orthorectify"
      ([msi_image; dsm_file; msi_ortho; "--dtm"; dtm_file] ++ msi_rpc) ∈ log /\
    Call "subprocess.run"
      ["gdal_pansharpen.py"; pan_ortho; msi_ortho; pansharpened] ∈ log /\
    Call "msi_to_rgb"
      [pansharpened; rgb_path working_dir collection_id; "-b"] ∈ log /\
    (forall rpc, rpc <> EmptyString -> pan files !! "rpc" = Some rpc ->
                 pan_rpc = ["--raytheon-rpc"; rpc]) /\
    (forall rpc, rpc <> EmptyString -> msi files !! "rpc" = Some rpc ->
                 msi_rpc = ["--raytheon-rpc"; rpc]).
Proof.
  intros Hne Hall Hin log dsm_file dtm_file.
  destruct (run_stages_trace cfg working_dir d Hne Hall) as (roads & rest & Hrun).
  unfold log. rewrite Hrun. cbn [fst]. fold dsm_file dtm_file.
  rewrite Forall_forall in Hall.
  pose proof (Hall _ Hin) as Hc. cbn [snd] in Hc.
  apply is_complete_iff in Hc as [([pi Hpi] & _ & _) ([mi Hmi] & _ & _)].
  exists pi, mi, (ortho_path working_dir (pan files)),
    (ortho_path working_dir (msi files)),
    (pansharpened_path working_dir collection_id),
    (if truthy (pan files !! "rpc")
     then ["--raytheon-rpc"; default EmptyString (pan files !! "rpc")] else []),
    (if truthy (msi files !! "rpc")
     then ["--raytheon-rpc"; default EmptyString (msi files !! "rpc")] else []).
  assert (Hrpc : forall (m : gmap string string) rpc,
            rpc <> EmptyString -> m !! "rpc" = Some rpc ->
            (if truthy (m !! "rpc")
             then ["--raytheon-rpc"; default EmptyString (m !! "rpc")] else [])
            = ["--raytheon-rpc"; rpc]).
  { intros m rpc Hrpc ->. cbn [truthy default].
    apply String.eqb_neq in Hrpc. rewrite Hrpc. reflexivity. }
  split; [exact Hpi |]. split; [exact Hmi |].
  split; [| split; [| split; [| split; [| split]]]].
  - right. right. apply elem_of_app. left.
    eapply elem_of_flat_map; [exact Hin |]. cbn [snd].
    unfold ortho_args. rewrite Hpi. left.
  - right. right. apply elem_of_app. left.
    eapply elem_of_flat_map; [exact Hin |]. cbn [snd].
    unfold ortho_args at 2. rewrite Hmi. right. left.
  - right. right. apply elem_of_app. right. apply elem_of_app. left.
    eapply elem_of_flat_map; [exact Hin |]. left.
  - right. right. apply elem_of_app. right. apply elem_of_app. right.
    apply elem_of_app. left.
    eapply elem_of_flat_map; [exact Hin |]. left.
  - intros rpc; apply Hrpc.
  - intros rpc; apply Hrpc.
Qed.

(** The three stages that work on one image take the images of one and the
    same collection, the most nadir one: segmentation by height reads its
    pansharpened image, semantic segmentation and building segmentation read
    its RGB and its pansharpened image; that collection is one of the
    collections of the run, whose images the earlier stages have written. *)
Theorem single_image_stages_use_most_nadir (cfg : config) (working_dir : string) d :
  d <> [] ->
  Forall (fun kv => is_complete kv.2 = true) d ->
  let log := (run_stages obliquity_angle glob cfg working_dir d).1 in
  let dsm_file := path_join working_dir (aoi_name cfg +:+ "_P3D_DSM.tif") in
  let dtm_file := path_join working_dir (aoi_name cfg +:+ "_DTM.tif") in
  let id := most_nadir (angles_of d) in
  id ∈ d.*1 /\
  (exists roads : list string,
     Call "segment_by_height"
       ([dsm_file; dtm_file; path_join working_dir "threshold_CLS.tif";
         "--msi"; pansharpened_path working_dir id;
         "--ndvi"; path_join working_dir "ndvi.tif"] ++ roads) ∈ log) /\
  Call "kwsemantic_segment"
    [semantic_config_fpath cfg; semantic_model_fpath cfg;
     rgb_path working_dir id; dsm_file; dtm_file;
     pansharpened_path working_dir id; working_dir; "semantic"] ∈ log /\
  Call "building_segmentation"
    ["--rgb_image"; rgb_path working_dir id;
     "--msi_image"; pansharpened_path working_dir id;
     "--dsm"; dsm_file; "--dtm"; dtm_file;
     "--model_path"; building_model_fpath_prefix cfg;
     "--save_dir"; working_dir; "--output_tif"] ∈ log /\
  Call "msi_to_rgb" [pansharpened_path working_dir id;
                     rgb_path working_dir id; "-b"] ∈ log.
Proof.
  intros Hne Hall log dsm_file dtm_file id.
  destruct (run_stages_trace cfg working_dir d Hne Hall) as (roads & rest & Hrun).
  unfold log. rewrite Hrun. cbn [fst]. fold dsm_file dtm_file. fold id.
  assert (Hid : id ∈ d.*1).
  { unfold id, most_nadir.
    destruct (foldl nadir_step (None, EmptyString) (angles_of d)) as [lowest id'] eqn:E.
    apply nadir_fold_key in E.
    - rewrite <- list_fmap_compose in E. exact E.
    - destruct d; [congruence | discriminate]. }
  split; [exact Hid |].
  split; [exists roads |]; [| split; [| split]].
  - right. right. rewrite !elem_of_app. right. right. right. left.
  - right. right. rewrite !elem_of_app. right. right. right. right. left.
  - right. right. rewrite !elem_of_app. right. right. right. right. right. left.
  - apply list_elem_of_fmap in Hid as ([k v] & Hk & Hin). cbn [fst] in Hk.
    right. right. rewrite !elem_of_app. right. right. left.
    eapply elem_of_flat_map; [exact Hin |]. cbn [fst]. rewrite <- Hk. left.
Qed.

(** The material classifier is given one orthorectified msi image and one
    archive for each collection, in the order of the collections: entry [i]
    of the image paths and entry [i] of the info paths belong to collection
    [i], the image being the one that orthorectification wrote for it. *)
Theorem material_classifier_paths_aligned (cfg : config) (working_dir : string) d :
  d <> [] ->
  Forall (fun kv => is_complete kv.2 = true) d ->
  let log := (run_stages obliquity_angle glob cfg working_dir d).1 in
  exists img_paths info_paths rest : list string,
    Call "material_classifier"
      (["--image_paths"] ++ img_paths ++ ["--info_paths"] ++ info_paths ++ rest) ∈ log /\
    length img_paths = length d /\ length info_paths = length d /\
    forall (i : nat) (collection_id : string) files,
      d !! i = Some (collection_id, files) ->
      img_paths !! i = Some (ortho_path working_dir (msi files)) /\
      exists info, msi files !! "info" = Some info /\ info_paths !! i = Some info.
Proof.
  intros Hne Hall log.
  destruct (run_stages_trace cfg working_dir d Hne Hall) as (roads & rest & Hrun).
  unfold log. rewrite Hrun. cbn [fst].
  eexists _, _, rest. split; [| split; [| split]].
  - right. right. rewrite !elem_of_app. right. right. right.
    right. right. right. left.
  - apply length_fmap.
  - apply length_fmap.
  - intros i collection_id files Hi. rewrite !list_lookup_fmap, Hi. cbn [fmap option_fmap option_map snd].
    split; [reflexivity |].
    rewrite Forall_forall in Hall.
    pose proof (Hall _ (list_elem_of_lookup_2 _ _ _ Hi)) as Hc. cbn [snd] in Hc.
    apply is_complete_iff in Hc as [_ (_ & [info Hinfo] & _)].
    exists info. rewrite Hinfo. split; reflexivity.
Qed.

End StageTrace.

(** The run of the stages on the complete collection of the example. *)
Lemma stages_in_order_witness :
  tool_of <$> (run_stages (fun _ => 20%Q) (fun _ => []) example_config "/work"
                 example_collections).1 =
  ["generate_dsm"; "fit_dtm"; "orthorectify"; "orthorectify"; "subprocess.run";
   "msi_to_rgb"; "segment_by_height"; "kwsemantic_segment";
   "building_segmentation"; "material_classifier"; "roof_geon_extraction";
   "buildings_to_dsm"; "buildings_to_dsm"].
Proof.
  apply (stages_in_order (fun _ => 20%Q) (fun _ => []) example_config "/work"
           example_collections).
  - discriminate.
  - repeat constructor.
Defined.

Lemma collection_artifacts_flow_witness :
  exists pan_ortho msi_ortho pansharpened : string,
    Call "subprocess.run"
      ["gdal_pansharpen.py"; pan_ortho; msi_ortho; pansharpened]
    ∈ (run_stages (fun _ => 20%Q) (fun _ => []) example_config "/work"
         example_collections).1 /\
    Call "msi_to_rgb"
      [pansharpened; rgb_path "/work" "12ABC34567890"; "-b"]
    ∈ (run_stages (fun _ => 20%Q) (fun _ => []) example_config "/work"
         example_collections).1.
Proof.
  destruct (collection_artifacts_flow (fun _ => 20%Q) (fun _ => []) example_config
              "/work" example_collections "12ABC34567890"
              (classified (walk_with_ext example_imagery_walk ".ntf")
                 (walk_with_ext example_rpc_walk ".rpc")
                 (walk_with_ext example_imagery_walk ".tar") "12ABC34567890"))
    as (pi & mi & po & mo & ps & pr & mr & _ & _ & _ & _ & Hps & Hrgb & _).
  - discriminate.
  - repeat constructor.
  - left.
  - exists po, mo, ps. split; assumption.
Defined.

Lemma single_image_stages_use_most_nadir_witness :
  Call "kwsemantic_segment"
    ["/models/semantic.json"; "/models/semantic.pth";
     rgb_path "/work" "12ABC34567890"; "/work/D1_P3D_DSM.tif"; "/work/D1_DTM.tif";
     pansharpened_path "/work" "12ABC34567890"; "/work"; "semantic"]
  ∈ (run_stages (fun _ => 20%Q) (fun _ => []) example_config "/work"
       example_collections).1.
Proof.
  apply (single_image_stages_use_most_nadir (fun _ => 20%Q) (fun _ => [])
           example_config "/work" example_collections).
  - discriminate.
  - repeat constructor.
Defined.

Lemma material_classifier_paths_aligned_witness :
  exists img_paths info_paths rest : list string,
    Call "material_classifier"
      (["--image_paths"] ++ img_paths ++ ["--info_paths"] ++ info_paths ++ rest)
    ∈ (run_stages (fun _ => 20%Q) (fun _ => []) example_config "/work"
         example_collections).1 /\
    length img_paths = 1%nat /\ length info_paths = 1%nat.
Proof.
  destruct (material_classifier_paths_aligned (fun _ => 20%Q) (fun _ => [])
              example_config "/work" example_collections)
    as (img_paths & info_paths & rest & Hcall & Himg & Hinfo & _).
  - discriminate.
  - repeat constructor.
  - exists img_paths, info_paths, rest. repeat split; assumption.
Defined.

(** ** The files written for the collections *)

Lemma string_app_inv_head (a b c : string) : a +:+ b = a +:+ c -> b = c.
Proof.
  induction a as [| x a IH]; [exact (fun H => H) |].
  rewrite !string_app_cons. intros [= H]. apply IH, H.
Qed.

Lemma string_app_inv_tail (a b c : string) : a +:+ c = b +:+ c -> a = b.
Proof.
  intros H.
  assert (Hlen : String.length a = String.length b).
  { apply (f_equal String.length) in H. rewrite !string_length_app in H. lia. }
  revert b H Hlen. induction a as [| x a IH]; intros [| y b] H Hlen;
    try discriminate Hlen; [reflexivity |].
  rewrite !string_app_cons in H. injection H as -> H.
  f_equal. apply IH; [exact H | cbn [String.length] in Hlen; lia].
Qed.

(** [os.path.join] with the name of a file that starts with a digit puts
    the name after the directory and at most one slash. *)
Lemma path_join_collection_file (working_dir id name : string) :
  is_collection_id id = true ->
  path_join working_dir (id +:+ name) =
  working_dir
  +:+ (if String.eqb working_dir "" || endswith working_dir "/" then "" else "/")
  +:+ id +:+ name.
Proof.
  intros Hid.
  destruct (collection_id_chars id Hid) as (c1 & c2 & c3 & c4 & c5 & c6 & c7 & c8 & c9
    & c10 & c11 & c12 & c13 & -> & Hd & _).
  unfold path_join. rewrite string_app_cons. cbn [String.prefix].
  destruct (ascii_dec "/" c1) as [<- | _]; [discriminate Hd |].
  destruct (String.eqb working_dir "" || endswith working_dir "/");
    rewrite ?string_app_nil_l; reflexivity.
Qed.

(** Two different collections never share a pansharpened image or an RGB
    image, and the pansharpened image of a collection is never the RGB image
    of one: the paths that [main] gives to the files written for the
    collections, in one and the same working directory, are pairwise
    different. *)
Theorem output_paths_distinct (working_dir id1 id2 : string) :
  is_collection_id id1 = true -> is_collection_id id2 = true ->
  (pansharpened_path working_dir id1 = pansharpened_path working_dir id2 -> id1 = id2) /\
  (rgb_path working_dir id1 = rgb_path working_dir id2 -> id1 = id2) /\
  pansharpened_path working_dir id1 <> rgb_path working_dir id2.
Proof.
  intros H1 H2. unfold pansharpened_path, rgb_path.
  rewrite !path_join_collection_file by assumption.
  assert (Hlen : forall id, is_collection_id id = true -> String.length id = 13%nat).
  { intros id Hid. unfold is_collection_id in Hid.
    repeat match goal with
    | H : _ && _ = true |- _ => apply andb_true_iff in H; destruct H
    end.
    apply Nat.eqb_eq. assumption. }
  split; [| split].
  - intros H. do 2 apply string_app_inv_head in H.
    apply string_app_inv_tail in H. exact H.
  - intros H. do 2 apply string_app_inv_head in H.
    apply string_app_inv_tail in H. exact H.
  - intros H. do 2 apply string_app_inv_head in H.
    apply (f_equal String.length) in H. rewrite !string_length_app in H.
    rewrite (Hlen _ H1), (Hlen _ H2) in H. cbn [String.length] in H. lia.
Qed.

(** The two collections of the example walk. *)
Lemma output_paths_distinct_witness :
  pansharpened_path "/work" "12ABC34567890" <> rgb_path "/work" "13ABC34567890".
Proof.
  apply (output_paths_distinct "/work" "12ABC34567890" "13ABC34567890");
    reflexivity.
Defined.

(** ** The bounding box of a north-up raster *)

Section NorthUp.
Local Open Scope Q_scope.
Variable GCP : Type.
Variable GCPsToGeoTransform : list GCP -> option GeoTransform.
Variable Proj : Type.
Variable proj_of_wkt : string -> Proj.
Variable pyproj_transform : Proj -> Proj -> Q -> Q -> Q * Q.

(** For a raster without rotation, whose columns run east and whose lines
    run south (no rotation terms, a pixel width that is not negative, a
    pixel height that is not positive), and without a target projection, the
    bounding box is that of the geotransform: from the origin of the raster,
    its upper left corner, to the origin moved by the width times the pixel
    width and by the height times the pixel height. *)
Theorem bounding_box_north_up (raster : Raster GCP) (projection : string)
    (transform : GeoTransform) :
  georeference GCPsToGeoTransform raster = Some (projection, transform) ->
  t2 transform == 0 -> t4 transform == 0 ->
  0 <= t1 transform -> t5 transform <= 0 ->
  (0 <= RasterXSize raster)%Z -> (0 <= RasterYSize raster)%Z ->
  exists minX minY maxX maxY : Q,
    gdal_bounding_box GCPsToGeoTransform proj_of_wkt pyproj_transform raster None =
    Some [minX; minY; maxX; maxY] /\
    minX == t0 transform /\
    minY == t3 transform + inject_Z (RasterYSize raster) * t5 transform /\
    maxX == t0 transform + inject_Z (RasterXSize raster) * t1 transform /\
    maxY == t3 transform.
Proof.
  intros Hgeo H2 H4 H1 H5 Hw Hh.
  rewrite (gdal_bounding_box_unfold _ _ _ _ _ _ None _ _ Hgeo). cbv zeta.
  eexists _, _, _, _. split; [reflexivity |].
  unfold corners, corner. cbn [map fmap list_fmap fst snd].
  set (w := inject_Z (RasterXSize raster)).
  set (h := inject_Z (RasterYSize raster)).
  assert (Hw0 : 0 <= w) by (unfold w; change 0 with (inject_Z 0); rewrite <- Zle_Qle; lia).
  assert (Hh0 : 0 <= h) by (unfold h; change 0 with (inject_Z 0); rewrite <- Zle_Qle; lia).
  assert (Hwt : 0 <= w * t1 transform) by (apply Qmult_le_0_compat; assumption).
  assert (Hht : h * t5 transform <= 0).
  { assert (0 <= h * - t5 transform) by (apply Qmult_le_0_compat; lra).
    assert (h * - t5 transform == - (h * t5 transform)) by ring. lra. }
  assert (Hw2 : w * t4 transform == 0) by (rewrite H4; ring).
  assert (Hh2 : h * t2 transform == 0) by (rewrite H2; ring).
  set (xs := [_; _; _; _]) at 1.
  set (ys := [_; _; _; _]) at 1.
  fold xs. fold ys.
  destruct (amin_spec xs) as [Hminx_in Hminx]; [discriminate |].
  destruct (amax_spec xs) as [Hmaxx_in Hmaxx]; [discriminate |].
  destruct (amin_spec ys) as [Hminy_in Hminy]; [discriminate |].
  destruct (amax_spec ys) as [Hmaxy_in Hmaxy]; [discriminate |].
  assert (X0 : amin xs <= t0 transform + 0 * t1 transform + 0 * t2 transform)
    by (apply Hminx; left).
  assert (X1 : t0 transform + w * t1 transform + 0 * t2 transform <= amax xs)
    by (apply Hmaxx; right; left).
  assert (Y0 : t3 transform + 0 * t4 transform + 0 * t5 transform <= amax ys)
    by (apply Hmaxy; left).
  assert (Y1 : amin ys <= t3 transform + w * t4 transform + h * t5 transform)
    by (apply Hminy; right; right; left).
  assert (Hx : forall x, x ∈ xs ->
            t0 transform <= x <= t0 transform + w * t1 transform).
  { intros x Hin. unfold xs in Hin.
    repeat match goal with
    | H : _ ∈ _ :: _ |- _ => apply elem_of_cons in H as [-> | H]
    | H : _ ∈ [] |- _ => inversion H
    end; lra. }
  assert (Hy : forall y, y ∈ ys ->
            t3 transform + h * t5 transform <= y <= t3 transform).
  { intros y Hin. unfold ys in Hin.
    repeat match goal with
    | H : _ ∈ _ :: _ |- _ => apply elem_of_cons in H as [-> | H]
    | H : _ ∈ [] |- _ => inversion H
    end; lra. }
  apply Hx in Hminx_in, Hmaxx_in. apply Hy in Hminy_in, Hmaxy_in.
  repeat split; lra.
Qed.

End NorthUp.

(** The raster of the example: 10 by 10 pixels of size (1,-1) from the
    origin (0,0). *)
Lemma bounding_box_north_up_witness :
  exists minX minY maxX maxY : Q,
    gdal_bounding_box (fun _ : list unit => None) (fun _ => tt)
      (fun (_ _ : unit) x y => (x, y)) example_raster None =
    Some [minX; minY; maxX; maxY] /\
    minX == 0 /\ minY == 0 + inject_Z 10 * -1 /\
    maxX == 0 + inject_Z 10 * 1 /\ maxY == 0.
Proof.
  apply (bounding_box_north_up unit (fun _ => None) unit (fun _ => tt)
           (fun (_ _ : unit) x y => (x, y)) example_raster "PROJCS"
           {| t0 := 0; t1 := 1; t2 := 0; t3 := 0; t4 := 0; t5 := -1 |}).
  - reflexivity.
  - reflexivity.
  - reflexivity.
  - unfold Qle. simpl. lia.
  - unfold Qle. simpl. lia.
  - simpl. lia.
  - simpl. lia.
Defined.
